(** * The kul units library: rational numbers, dimensions, unit algebra

    A shallow embedding of the header-only units library (namespace [kul]):
    the [rational] type, the SI [dimension] vector, the [optional] origin,
    the compile-time (static) unit algebra, the run-time (dynamic) unit
    algebra, the [conversion] class and the [quantity] operators.

    Conventions of the embedding.
    - [std::int64_t] and [int] values are integers of [Z]; the arithmetic
      operators are written with their two's-complement wrap-around
      ([wrap 64], [wrap 32]).  Signed overflow is undefined in C++; the
      theorems that depend on its absence carry range hypotheses.
    - Division by zero, dereferencing [begin()] of an empty vector and the
      like are undefined behaviour; throwing code raises an exception.
      The dynamic algebra therefore runs in the [outcome] monad.
    - [std::unique_ptr] graphs are deep-copied by every [copy()], so dynamic
      unit descriptions are values of an inductive type. *)

From Stdlib Require Import ZArith List String Bool Lia Znumtheory QArith.
Import ListNotations.

Local Open Scope Z_scope.

(** ** Machine integers *)

Definition wrap (bits z : Z) : Z :=
  (z + 2 ^ (bits - 1)) mod 2 ^ bits - 2 ^ (bits - 1).

Definition int64_min : Z := - 2 ^ 63.
Definition int64_max : Z := 2 ^ 63 - 1.
Definition int_min : Z := - 2 ^ 31.
Definition int_max : Z := 2 ^ 31 - 1.

Definition int64_range (z : Z) : Prop := int64_min <= z <= int64_max.
Definition int_range (z : Z) : Prop := int_min <= z <= int_max.

(** [std::int64_t] operators. *)
Definition neg64 (a : Z) : Z := wrap 64 (- a).
Definition mul64 (a b : Z) : Z := wrap 64 (a * b).
(** [a / b] truncates toward zero; only [INT64_MIN / -1] leaves the range. *)
Definition quot64 (a b : Z) : Z := wrap 64 (Z.quot a b).
(** [a % b] has the sign of [a] and never leaves the range. *)
Definition rem64 (a b : Z) : Z := Z.rem a b.

(** [int] operators. *)
Definition int_add (a b : Z) : Z := wrap 32 (a + b).
Definition int_sub (a b : Z) : Z := wrap 32 (a - b).
Definition int_neg (a : Z) : Z := wrap 32 (- a).
Definition int_mul (a b : Z) : Z := wrap 32 (a * b).
Definition int_quot (a b : Z) : Z := wrap 32 (Z.quot a b).
Definition int_rem (a b : Z) : Z := Z.rem a b.

(** ** Section [rational] *)

(** [kul::abs]. *)
Definition abs (a : Z) : Z := if a <? 0 then neg64 a else a.

(** The body of the [while (b != 0)] loop of [kul::gcd], run at most [fuel]
    times. *)
Fixpoint gcd_loop (fuel : nat) (a b : Z) : Z :=
  match fuel with
  | O => a
  | S fuel' => if b =? 0 then a else gcd_loop fuel' b (rem64 a b)
  end.

(** [kul::gcd].  Two iterations more than halve [|b|], so the loop has
    reached [b = 0] after [2 * (log2 |b| + 1) + 1] of them (lemma
    [gcd_loop_terminates]). *)
Definition gcd_fuel (b : Z) : nat :=
  S (2 * S (Z.to_nat (Z.log2 (Z.abs b)))).

Definition gcd (a b : Z) : Z := gcd_loop (gcd_fuel b) a b.

Record rational : Type := mk_rational {
  m_numerator : Z;
  m_denominator : Z
}.

Definition numerator (r : rational) : Z := m_numerator r.
Definition denominator (r : rational) : Z := m_denominator r.

(** The constructor [rational(numerator_arg, denominator_arg)].  With both
    arguments zero [common] is zero and the two divisions are undefined in
    the source; [Z.quot] then gives zero.  No statement below is about that
    case. *)
Definition rational_from (numerator_arg denominator_arg : Z) : rational :=
  let abs_num_arg := abs numerator_arg in
  let abs_den_arg := abs denominator_arg in
  let common := gcd abs_num_arg abs_den_arg in
  let abs_num := quot64 abs_num_arg common in
  let abs_den := quot64 abs_den_arg common in
  let is_negative :=
    xorb (negb (numerator_arg <? 0)) (negb (denominator_arg <? 0)) in
  mk_rational (if is_negative then neg64 abs_num else abs_num) abs_den.

(** The constructor [rational(numerator_arg)]. *)
Definition rational_of_int (numerator_arg : Z) : rational :=
  rational_from numerator_arg 1.

Definition inverse (a : rational) : rational :=
  rational_from (denominator a) (numerator a).

(** [operator*(rational, rational)]. *)
Definition rational_mul (a b : rational) : rational :=
  rational_from (mul64 (numerator a) (numerator b))
                (mul64 (denominator a) (denominator b)).

(** [operator/(rational, rational)]. *)
Definition rational_div (a b : rational) : rational :=
  rational_mul a (inverse b).

(** [operator==(rational, rational)]. *)
Definition rational_eqb (a b : rational) : bool :=
  (numerator a =? numerator b) && (denominator a =? denominator b).

(** A [for (int i = 0; i < n; ++i)] loop: [n] iterations when [n] is
    positive, none otherwise. *)
Fixpoint repeat_loop {A : Type} (n : nat) (body : A -> A) (x : A) : A :=
  match n with
  | O => x
  | S n' => repeat_loop n' body (body x)
  end.

(** [kul::pow(rational, int)]. *)
Definition rational_pow (b : rational) (e : Z) : rational :=
  let result := rational_of_int 1 in
  let result :=
    repeat_loop (Z.to_nat e) (fun r => rational_mul r b) result in
  repeat_loop (Z.to_nat (int_neg e)) (fun r => rational_div r b) result.

(** The invariant of the data model: lowest terms, positive denominator. *)
Definition rational_reduced (r : rational) : Prop :=
  Z.gcd (Z.abs (numerator r)) (denominator r) = 1 /\ denominator r > 0.

(** Both fields are representable and their negations are too. *)
Definition rational_in_range (r : rational) : Prop :=
  int64_min < numerator r <= int64_max /\
  int64_min < denominator r <= int64_max.

(** ** Section [dimension] *)

Record dimension : Type := mk_dimension {
  time_exponent : Z;
  length_exponent : Z;
  mass_exponent : Z;
  electric_current_exponent : Z;
  temperature_exponent : Z;
  amount_of_substance_exponent : Z;
  luminous_intensity_exponent : Z
}.

Definition dimensionless : dimension := mk_dimension 0 0 0 0 0 0 0.
Definition dimension_time : dimension := mk_dimension 1 0 0 0 0 0 0.
Definition dimension_length : dimension := mk_dimension 0 1 0 0 0 0 0.
Definition dimension_mass : dimension := mk_dimension 0 0 1 0 0 0 0.
Definition dimension_electric_current : dimension := mk_dimension 0 0 0 1 0 0 0.
Definition dimension_temperature : dimension := mk_dimension 0 0 0 0 1 0 0.
Definition dimension_amount_of_substance : dimension :=
  mk_dimension 0 0 0 0 0 1 0.
Definition dimension_luminous_intensity : dimension :=
  mk_dimension 0 0 0 0 0 0 1.

(** [operator*(dimension, dimension)]. *)
Definition dimension_mul (a b : dimension) : dimension :=
  mk_dimension
    (int_add (time_exponent a) (time_exponent b))
    (int_add (length_exponent a) (length_exponent b))
    (int_add (mass_exponent a) (mass_exponent b))
    (int_add (electric_current_exponent a) (electric_current_exponent b))
    (int_add (temperature_exponent a) (temperature_exponent b))
    (int_add (amount_of_substance_exponent a) (amount_of_substance_exponent b))
    (int_add (luminous_intensity_exponent a) (luminous_intensity_exponent b)).

(** [operator/(dimension, dimension)]. *)
Definition dimension_div (a b : dimension) : dimension :=
  mk_dimension
    (int_sub (time_exponent a) (time_exponent b))
    (int_sub (length_exponent a) (length_exponent b))
    (int_sub (mass_exponent a) (mass_exponent b))
    (int_sub (electric_current_exponent a) (electric_current_exponent b))
    (int_sub (temperature_exponent a) (temperature_exponent b))
    (int_sub (amount_of_substance_exponent a) (amount_of_substance_exponent b))
    (int_sub (luminous_intensity_exponent a) (luminous_intensity_exponent b)).

(** [kul::pow(dimension, int)]. *)
Definition dimension_pow (d : dimension) (e : Z) : dimension :=
  mk_dimension
    (int_mul (time_exponent d) e)
    (int_mul (length_exponent d) e)
    (int_mul (mass_exponent d) e)
    (int_mul (electric_current_exponent d) e)
    (int_mul (temperature_exponent d) e)
    (int_mul (amount_of_substance_exponent d) e)
    (int_mul (luminous_intensity_exponent d) e).

(** [operator==(dimension, dimension)]. *)
Definition dimension_eqb (a b : dimension) : bool :=
  (time_exponent a =? time_exponent b) &&
  (length_exponent a =? length_exponent b) &&
  (mass_exponent a =? mass_exponent b) &&
  (electric_current_exponent a =? electric_current_exponent b) &&
  (temperature_exponent a =? temperature_exponent b) &&
  (amount_of_substance_exponent a =? amount_of_substance_exponent b) &&
  (luminous_intensity_exponent a =? luminous_intensity_exponent b).

(** ** Section [optional] *)

(** [optional<rational>] is [option rational]; [nullopt] is [None]. *)
Definition has_value {A : Type} (o : option A) : bool :=
  match o with Some _ => true | None => false end.

(** [operator==(optional<T>, optional<T>)] at [T = rational]. *)
Definition optional_eqb (a b : option rational) : bool :=
  match a, b with
  | None, None => true
  | Some x, Some y => rational_eqb x y
  | _, _ => false
  end.

(** ** Section [unit]: the named unit classes

    A class derived from [crtp<Unit>] whose [copy()] is
    [std::make_unique<Unit>()].  The classes of the header are listed one by
    one; [user_unit] stands for a class written by a client of the library
    (an affine temperature scale, say), given by its four static
    properties.  The prefix and marker templates are applied to named
    classes. *)

Inductive named : Type :=
| unitless
| second
| meter
| inch
| gram
| radian
| kilo (T : named)
| milli (T : named)
| make_relative (T : named)
| user_unit (name : string) (d : dimension) (m : rational)
            (o : option rational).

Fixpoint static_name (U : named) : string :=
  match U with
  | unitless => "1"
  | second => "s"
  | meter => "m"
  | inch => "in"
  | gram => "g"
  | radian => "rad"
  | kilo T => "k" ++ static_name T
  | milli T => "m" ++ static_name T
  | make_relative T => static_name T
  | user_unit name _ _ _ => name
  end.

Fixpoint named_dimension (U : named) : dimension :=
  match U with
  | unitless => dimensionless
  | second => dimension_time
  | meter => dimension_length
  | inch => dimension_length
  | gram => dimension_mass
  | radian => dimensionless
  | kilo T => named_dimension T
  | milli T => named_dimension T
  | make_relative T => named_dimension T
  | user_unit _ d _ _ => d
  end.

Fixpoint named_magnitude (U : named) : rational :=
  match U with
  | unitless => rational_of_int 1
  | second => rational_of_int 1
  | meter => rational_of_int 1
  | inch => rational_from 254 10000
  | gram => rational_from 1 1000
  | radian => rational_of_int 1
  | kilo T => rational_mul (rational_of_int 1000) (named_magnitude T)
  | milli T => rational_mul (rational_from 1 1000) (named_magnitude T)
  | make_relative T => named_magnitude T
  | user_unit _ _ m _ => m
  end.

Definition named_origin (U : named) : option rational :=
  match U with
  | user_unit _ _ _ o => o
  | _ => None
  end.

(** Identity of two named classes ([std::is_same], template matching). *)
Fixpoint named_eqb (A B : named) : bool :=
  match A, B with
  | unitless, unitless => true
  | second, second => true
  | meter, meter => true
  | inch, inch => true
  | gram, gram => true
  | radian, radian => true
  | kilo A', kilo B' => named_eqb A' B'
  | milli A', milli B' => named_eqb A' B'
  | make_relative A', make_relative B' => named_eqb A' B'
  | user_unit n1 d1 m1 o1, user_unit n2 d2 m2 o2 =>
      String.eqb n1 n2 && dimension_eqb d1 d2 && rational_eqb m1 m2 &&
      optional_eqb o1 o2
  | _, _ => false
  end.

(** ** Section [static]: compile-time unit descriptions

    A static unit description is a C++ type: a named class, a
    [static_pow<Base, Exponent>] or a [static_product<Units...>].  Template
    specialisations select by type identity, which is [static_unit_eqb]. *)

Unset Elimination Schemes.
Inductive static_unit : Type :=
| static_named (U : named)
| static_pow (Base : static_unit) (Exponent : Z)
| static_product (Units : list static_unit).
Set Elimination Schemes.

(** Induction over a description and, for a product, over its units. *)
Section StaticInd.
Variable P : static_unit -> Prop.
Hypothesis Hnamed : forall U, P (static_named U).
Hypothesis Hpow : forall Base Exponent, P Base -> P (static_pow Base Exponent).
Hypothesis Hproduct : forall Units, Forall P Units -> P (static_product Units).

Fixpoint static_unit_ind (U : static_unit) : P U :=
  match U with
  | static_named n => Hnamed n
  | static_pow Base Exponent => Hpow Base Exponent (static_unit_ind Base)
  | static_product Units =>
      Hproduct Units
        ((fix all (l : list static_unit) : Forall P l :=
            match l with
            | [] => Forall_nil P
            | U' :: l' => Forall_cons U' (static_unit_ind U') (all l')
            end) Units)
  end.
End StaticInd.

Fixpoint static_unit_eqb (A B : static_unit) {struct A} : bool :=
  match A, B with
  | static_named a, static_named b => named_eqb a b
  | static_pow A' E1, static_pow B' E2 => static_unit_eqb A' B' && (E1 =? E2)
  | static_product As, static_product Bs =>
      (fix units_eqb (l1 l2 : list static_unit) {struct l1} : bool :=
         match l1, l2 with
         | [], [] => true
         | x :: l1', y :: l2' => static_unit_eqb x y && units_eqb l1' l2'
         | _, _ => false
         end) As Bs
  | _, _ => false
  end.

Module Static.

(** [static_dimension()], by the three [static_product] specialisations
    (no unit, one unit, a first unit and a tail). *)
Fixpoint static_dimension (U : static_unit) : dimension :=
  match U with
  | static_named n => named_dimension n
  | static_pow Base Exponent => dimension_pow (static_dimension Base) Exponent
  | static_product Units =>
      (fix product_dimension (l : list static_unit) : dimension :=
         match l with
         | [] => dimensionless
         | FirstUnit :: OtherUnits =>
             match OtherUnits with
             | [] => static_dimension FirstUnit
             | _ :: _ =>
                 dimension_mul (static_dimension FirstUnit)
                               (product_dimension OtherUnits)
             end
         end) Units
  end.

Fixpoint static_magnitude (U : static_unit) : rational :=
  match U with
  | static_named n => named_magnitude n
  | static_pow Base Exponent => rational_pow (static_magnitude Base) Exponent
  | static_product Units =>
      (fix product_magnitude (l : list static_unit) : rational :=
         match l with
         | [] => rational_of_int 1
         | FirstUnit :: OtherUnits =>
             match OtherUnits with
             | [] => static_magnitude FirstUnit
             | _ :: _ =>
                 rational_mul (static_magnitude FirstUnit)
                              (product_magnitude OtherUnits)
             end
         end) Units
  end.

Definition static_origin (U : static_unit) : option rational :=
  match U with
  | static_named n => named_origin n
  | static_pow _ _ => None
  | static_product _ => None
  end.

(** [are_equal<A, B>]. *)
Definition are_equal (A B : static_unit) : bool :=
  dimension_eqb (static_dimension A) (static_dimension B) &&
  rational_eqb (static_magnitude A) (static_magnitude B) &&
  optional_eqb (static_origin A) (static_origin B).

Definition is_absolute (T : static_unit) : bool := has_value (static_origin T).
Definition is_relative (T : static_unit) : bool := negb (is_absolute T).

(** [prepend_unless_unitless<A, static_product<Units...>>]; the product is
    given by its list of units. *)
Definition prepend_unless_unitless (A : static_unit) (B : list static_unit)
  : list static_unit :=
  match A with
  | static_named unitless => B
  | _ => A :: B
  end.

(** [multiply_with<static_product<Units...>, static_pow<Base, Exponent>>]:
    the three specialisations on the left product, the most specialised
    one (same [Base] in front) first. *)
Fixpoint multiply_with_pow (LHS : list static_unit) (Base : static_unit)
  (Exponent : Z) : list static_unit :=
  match LHS with
  | [] => [static_pow Base Exponent]
  | FirstUnit :: NextUnits =>
      match FirstUnit with
      | static_pow Base1 Exponent1 =>
          if static_unit_eqb Base1 Base
          then static_pow Base (int_add Exponent1 Exponent) :: NextUnits
          else FirstUnit :: multiply_with_pow NextUnits Base Exponent
      | _ => FirstUnit :: multiply_with_pow NextUnits Base Exponent
      end
  end.

(** [multiply_with<LHS, B>] for a left product [LHS]: a right product is
    folded in unit by unit, a power goes to [multiply_with_pow], anything
    else is taken as [static_pow<B, 1>]. *)
Fixpoint multiply_with (LHS : list static_unit) (B : static_unit)
  {struct B} : list static_unit :=
  match B with
  | static_product Units =>
      (fix fold_units (lhs : list static_unit) (l : list static_unit)
         : list static_unit :=
         match l with
         | [] => lhs
         | FirstUnit :: NextUnits =>
             fold_units (multiply_with lhs FirstUnit) NextUnits
         end) LHS Units
  | static_pow Base Exponent => multiply_with_pow LHS Base Exponent
  | static_named _ => multiply_with_pow LHS B 1
  end.

Fixpoint divide_by_pow (LHS : list static_unit) (Base : static_unit)
  (Exponent : Z) : list static_unit :=
  match LHS with
  | [] => [static_pow Base (int_neg Exponent)]
  | FirstUnit :: NextUnits =>
      match FirstUnit with
      | static_pow Base1 Exponent1 =>
          if static_unit_eqb Base1 Base
          then static_pow Base (int_sub Exponent1 Exponent) :: NextUnits
          else FirstUnit :: divide_by_pow NextUnits Base Exponent
      | _ => FirstUnit :: divide_by_pow NextUnits Base Exponent
      end
  end.

Fixpoint divide_by (LHS : list static_unit) (B : static_unit)
  {struct B} : list static_unit :=
  match B with
  | static_product Units =>
      (fix fold_units (lhs : list static_unit) (l : list static_unit)
         : list static_unit :=
         match l with
         | [] => lhs
         | FirstUnit :: NextUnits =>
             fold_units (divide_by lhs FirstUnit) NextUnits
         end) LHS Units
  | static_pow Base Exponent => divide_by_pow LHS Base Exponent
  | static_named _ => divide_by_pow LHS B 1
  end.

(** [simplify_product<T>] at a product given by its units. *)
Definition simplify_product (Terms : list static_unit) : static_unit :=
  match Terms with
  | [] => static_named unitless
  | [T] => T
  | _ => static_product Terms
  end.

(** [simplify<T>], with [simplify_terms] as the inner recursion. *)
Fixpoint simplify (T : static_unit) : static_unit :=
  match T with
  | static_pow Base Exponent =>
      if Exponent =? 0 then static_named unitless
      else if Exponent =? 1 then Base
      else T
  | static_product Terms =>
      simplify_product
        ((fix simplify_terms (l : list static_unit) : list static_unit :=
            match l with
            | [] => []
            | FirstUnit :: NextUnits =>
                prepend_unless_unitless (simplify FirstUnit)
                                        (simplify_terms NextUnits)
            end) Terms)
  | static_named _ => T
  end.

(** A unit that [prepend_unless_unitless] keeps. *)
Definition kept (T : static_unit) : bool :=
  match T with
  | static_named unitless => false
  | _ => true
  end.

(** Every power of exponent 1 that [simplify] meets (the description
    itself, the terms of a product) has a base that [simplify] leaves as it
    is. *)
Fixpoint unit_powers_simplified (T : static_unit) : Prop :=
  match T with
  | static_named _ => True
  | static_pow Base Exponent => Exponent = 1 -> simplify Base = Base
  | static_product Terms =>
      (fix all (l : list static_unit) : Prop :=
         match l with
         | [] => True
         | t :: l' => unit_powers_simplified t /\ all l'
         end) Terms
  end.

(** [canonicalize_t<T>]: the units of the canonical product. *)
Definition canonicalize (T : static_unit) : list static_unit :=
  multiply_with [] T.

(** [multiply<A, B>] and [divide<A, B>]. *)
Definition multiply (A B : static_unit) : static_unit :=
  simplify (static_product (multiply_with (canonicalize A) B)).

Definition divide (A B : static_unit) : static_unit :=
  simplify (static_product (divide_by (canonicalize A) B)).

End Static.

(** ** Outcomes of run-time code *)

Inductive exception : Type :=
| runtime_error
| logic_error
| bad_cast.

Inductive outcome (A : Type) : Type :=
| Ok (a : A)
| Throw (e : exception)
| Undefined.

Arguments Ok {A} a.
Arguments Throw {A} e.
Arguments Undefined {A}.

Definition bind {A B : Type} (m : outcome A) (k : A -> outcome B)
  : outcome B :=
  match m with
  | Ok a => k a
  | Throw e => Throw e
  | Undefined => Undefined
  end.

Notation "x <- m ;; k" := (bind m (fun x => k))
  (at level 61, m at next level, right associativity).

(** ** Section [dynamic]: run-time unit descriptions

    The node owned by a [dynamic_unit]: an object of a named class, a
    [dynamic_exp] or a [dynamic_product].  [dynamic_cast] is pattern
    matching on the constructor. *)

Unset Elimination Schemes.
Inductive dynamic_unit : Type :=
| dynamic_named (u : named)
| dynamic_exp (m_base : dynamic_unit) (m_exponent : Z)
| dynamic_product (m_terms : list dynamic_unit).
Set Elimination Schemes.

Section DynamicInd.
Variable P : dynamic_unit -> Prop.
Hypothesis Hnamed : forall u, P (dynamic_named u).
Hypothesis Hexp : forall b e, P b -> P (dynamic_exp b e).
Hypothesis Hproduct : forall ts, Forall P ts -> P (dynamic_product ts).

Fixpoint dynamic_unit_ind (u : dynamic_unit) : P u :=
  match u with
  | dynamic_named n => Hnamed n
  | dynamic_exp b e => Hexp b e (dynamic_unit_ind b)
  | dynamic_product ts =>
      Hproduct ts
        ((fix all (l : list dynamic_unit) : Forall P l :=
            match l with
            | [] => Forall_nil P
            | t :: l' => Forall_cons t (dynamic_unit_ind t) (all l')
            end) ts)
  end.
End DynamicInd.

Module Dynamic.

(** [unit::dimension()].  A product reads [*m_terms.begin()] first, which
    is undefined when there is no term. *)
Fixpoint dimension_of (u : dynamic_unit) : outcome dimension :=
  match u with
  | dynamic_named n => Ok (named_dimension n)
  | dynamic_exp m_base m_exponent =>
      d <- dimension_of m_base ;; Ok (dimension_pow d m_exponent)
  | dynamic_product m_terms =>
      match m_terms with
      | [] => Undefined
      | first :: rest =>
          result <- dimension_of first ;;
          (fix loop (result : dimension) (l : list dynamic_unit)
             : outcome dimension :=
             match l with
             | [] => Ok result
             | it :: l' =>
                 d <- dimension_of it ;; loop (dimension_mul result d) l'
             end) result rest
      end
  end.

(** [unit::magnitude()]. *)
Fixpoint magnitude (u : dynamic_unit) : outcome rational :=
  match u with
  | dynamic_named n => Ok (named_magnitude n)
  | dynamic_exp m_base m_exponent =>
      m <- magnitude m_base ;; Ok (rational_pow m m_exponent)
  | dynamic_product m_terms =>
      match m_terms with
      | [] => Undefined
      | first :: rest =>
          result <- magnitude first ;;
          (fix loop (result : rational) (l : list dynamic_unit)
             : outcome rational :=
             match l with
             | [] => Ok result
             | it :: l' =>
                 m <- magnitude it ;; loop (rational_mul result m) l'
             end) result rest
      end
  end.

(** [unit::origin()]. *)
Definition origin (u : dynamic_unit) : option rational :=
  match u with
  | dynamic_named n => named_origin n
  | dynamic_exp _ _ => None
  | dynamic_product _ => None
  end.

(** [operator==(unit const&, unit const&)]; [&&] evaluates the magnitudes
    only when the dimensions are equal. *)
Definition unit_eq (a b : dynamic_unit) : outcome bool :=
  da <- dimension_of a ;;
  db <- dimension_of b ;;
  if dimension_eqb da db then
    ma <- magnitude a ;;
    mb <- magnitude b ;;
    Ok (rational_eqb ma mb && optional_eqb (origin a) (origin b))
  else Ok false.

(** [dynamic_cast<unitless const*>(term.pointer()) != nullptr]. *)
Definition is_unitless (term : dynamic_unit) : bool :=
  match term with
  | dynamic_named unitless => true
  | _ => false
  end.

Definition push_back (m_terms : list dynamic_unit) (term : dynamic_unit)
  : list dynamic_unit :=
  m_terms ++ [term].

Definition push_back_unless_unitless (m_terms : list dynamic_unit)
  (term : dynamic_unit) : list dynamic_unit :=
  if is_unitless term then m_terms else push_back m_terms term.

(** [dynamic_product::multiply_with(dynamic_exp const&)].  The reference
    cast of an existing term that is no [dynamic_exp] throws
    [std::bad_cast]; a merged term takes the base of the new one. *)
Fixpoint multiply_with_exp (m_terms : list dynamic_unit)
  (new_base : dynamic_unit) (new_exponent : Z)
  : outcome (list dynamic_unit) :=
  match m_terms with
  | [] => Ok (push_back [] (dynamic_exp new_base new_exponent))
  | existing_any :: rest =>
      match existing_any with
      | dynamic_exp existing_base existing_exponent =>
          same <- unit_eq existing_base new_base ;;
          if same : bool then
            Ok (dynamic_exp new_base (int_add existing_exponent new_exponent)
                  :: rest)
          else
            rest' <- multiply_with_exp rest new_base new_exponent ;;
            Ok (existing_any :: rest')
      | _ => Throw bad_cast
      end
  end.

(** [dynamic_product::divide_by(dynamic_exp const&)]. *)
Definition divide_by_exp (m_terms : list dynamic_unit)
  (new_base : dynamic_unit) (new_exponent : Z)
  : outcome (list dynamic_unit) :=
  multiply_with_exp m_terms new_base (int_neg new_exponent).

(** [dynamic_product::multiply_with(dynamic_unit const&)] with the
    overloads it dispatches to: product, power, named. *)
Fixpoint multiply_with (m_terms : list dynamic_unit) (new_unit : dynamic_unit)
  {struct new_unit} : outcome (list dynamic_unit) :=
  match new_unit with
  | dynamic_product other_terms =>
      (fix loop (m_terms : list dynamic_unit) (l : list dynamic_unit)
         : outcome (list dynamic_unit) :=
         match l with
         | [] => Ok m_terms
         | term :: l' =>
             m_terms' <- multiply_with m_terms term ;; loop m_terms' l'
         end) m_terms other_terms
  | dynamic_exp base exponent => multiply_with_exp m_terms base exponent
  | dynamic_named _ => multiply_with_exp m_terms new_unit 1
  end.

(** [dynamic_product::divide_by(dynamic_unit const&)]. *)
Fixpoint divide_by (m_terms : list dynamic_unit) (new_unit : dynamic_unit)
  {struct new_unit} : outcome (list dynamic_unit) :=
  match new_unit with
  | dynamic_product other_terms =>
      (fix loop (m_terms : list dynamic_unit) (l : list dynamic_unit)
         : outcome (list dynamic_unit) :=
         match l with
         | [] => Ok m_terms
         | term :: l' =>
             m_terms' <- divide_by m_terms term ;; loop m_terms' l'
         end) m_terms other_terms
  | dynamic_exp base exponent => divide_by_exp m_terms base exponent
  | dynamic_named _ => divide_by_exp m_terms new_unit 1
  end.

(** The tail of [dynamic_product::simplify]: empty, one term, several. *)
Definition collapse (result : list dynamic_unit) : dynamic_unit :=
  match result with
  | [] => dynamic_named unitless
  | [front] => front
  | _ => dynamic_product result
  end.

(** [unit::simplify()] by node kind. *)
Fixpoint simplify (u : dynamic_unit) : dynamic_unit :=
  match u with
  | dynamic_named _ => u
  | dynamic_exp m_base m_exponent =>
      if m_exponent =? 0 then dynamic_named unitless
      else if m_exponent =? 1 then m_base
      else u
  | dynamic_product m_terms =>
      collapse
        ((fix loop (result : list dynamic_unit) (l : list dynamic_unit)
            : list dynamic_unit :=
            match l with
            | [] => result
            | u' :: l' =>
                loop (push_back_unless_unitless result (simplify u')) l'
            end) [] m_terms)
  end.

(** A term that [push_back_unless_unitless] appends. *)
Definition kept (term : dynamic_unit) : bool := negb (is_unitless term).

(** Every power of exponent 1 that [simplify] meets (the unit itself, the
    terms of a product) has a base that [simplify] leaves as it is. *)
Fixpoint unit_powers_simplified (u : dynamic_unit) : Prop :=
  match u with
  | dynamic_named _ => True
  | dynamic_exp m_base m_exponent => m_exponent = 1 -> simplify m_base = m_base
  | dynamic_product m_terms =>
      (fix all (l : list dynamic_unit) : Prop :=
         match l with
         | [] => True
         | t :: l' => unit_powers_simplified t /\ all l'
         end) m_terms
  end.

(** [operator==] between two objects of named classes. *)
Definition named_equal (a b : named) : bool :=
  dimension_eqb (named_dimension a) (named_dimension b) &&
  rational_eqb (named_magnitude a) (named_magnitude b) &&
  optional_eqb (named_origin a) (named_origin b).

(** [operator*(dynamic_unit, dynamic_unit)]. *)
Definition mul (a b : dynamic_unit) : outcome dynamic_unit :=
  p <- multiply_with [] a ;;
  p <- multiply_with p b ;;
  Ok (simplify (dynamic_product p)).

(** [operator/(dynamic_unit, dynamic_unit)]. *)
Definition div (a b : dynamic_unit) : outcome dynamic_unit :=
  p <- multiply_with [] a ;;
  p <- divide_by p b ;;
  Ok (simplify (dynamic_product p)).

(** [root(dynamic_unit const&, int)].  [%] and [/] are undefined for a zero
    divisor and for [INT_MIN] by [-1]. *)
Fixpoint root (base : dynamic_unit) (exponent : Z) {struct base}
  : outcome dynamic_unit :=
  match base with
  | dynamic_named _ => Throw runtime_error
  | dynamic_exp exp_base exp_exponent =>
      if (exponent =? 0) || ((exp_exponent =? int_min) && (exponent =? -1))
      then Undefined
      else if negb (int_rem exp_exponent exponent =? 0)
      then Throw runtime_error
      else Ok (simplify (dynamic_exp exp_base (int_quot exp_exponent exponent)))
  | dynamic_product terms =>
      result <-
        (fix loop (result : list dynamic_unit) (l : list dynamic_unit)
           : outcome (list dynamic_unit) :=
           match l with
           | [] => Ok result
           | term :: l' =>
               r <- root term exponent ;;
               result' <- multiply_with result r ;;
               loop result' l'
           end) [] terms ;;
      Ok (simplify (dynamic_product result))
  end.

End Dynamic.

(** [copy()] of an object of a static description, which is how a static
    unit becomes a [dynamic_unit]: a named class copies to itself,
    [static_pow<Base, Exponent>] to [dynamic_exp(Base(), Exponent)],
    [static_product<>] to an empty [dynamic_product], [static_product<Unit>]
    to the product multiplied with [Unit()] through the [named] overload.
    [static_product<FirstUnit, OtherUnits...>::copy()] calls
    [tail_type::copy()] without an object and cannot be instantiated:
    [None]. *)
Fixpoint static_copy (U : static_unit) : option dynamic_unit :=
  match U with
  | static_named n => Some (dynamic_named n)
  | static_pow Base Exponent =>
      match static_copy Base with
      | Some b => Some (dynamic_exp b Exponent)
      | None => None
      end
  | static_product Units =>
      match Units with
      | [] => Some (dynamic_product [])
      | [Unit] =>
          match static_copy Unit with
          | Some u => Some (dynamic_product [dynamic_exp u 1])
          | None => None
          end
      | _ => None
      end
  end.

(** ** Section [convert] *)

(** The operations the templates use of the payload type [T]. *)
Class Numeric (T : Type) : Type := {
  of_int : Z -> T;
  add : T -> T -> T;
  sub : T -> T -> T;
  mul : T -> T -> T;
  div : T -> T -> T
}.

Section Payload.

Context {T : Type} {payload : Numeric T}.

(** [rational::convert_to<T>()]. *)
Definition convert_to (r : rational) : T :=
  div (of_int (numerator r)) (of_int (denominator r)).

Record conversion : Type := mk_conversion {
  m_multiplier : T;
  m_offset : T
}.

(** The four-argument constructor of [conversion<T>]. *)
Definition conversion_new (old_magnitude : rational)
  (old_origin : option rational) (new_magnitude : rational)
  (new_origin : option rational) : conversion :=
  let m_multiplier := convert_to (rational_div old_magnitude new_magnitude) in
  let m_offset := of_int 0 in
  let m_offset :=
    match old_origin with
    | Some o => add m_offset (convert_to (rational_div o new_magnitude))
    | None => m_offset
    end in
  let m_offset :=
    match new_origin with
    | Some o => sub m_offset (convert_to (rational_div o new_magnitude))
    | None => m_offset
    end in
  mk_conversion m_multiplier m_offset.

(** [conversion(unit const& from, unit const& to)]. *)
Definition conversion_of_units (from to : dynamic_unit) : outcome conversion :=
  from_magnitude <- Dynamic.magnitude from ;;
  to_magnitude <- Dynamic.magnitude to ;;
  Ok (conversion_new from_magnitude (Dynamic.origin from)
                     to_magnitude (Dynamic.origin to)).

(** [static_conversion<T, From, To>]. *)
Definition static_conversion (From To : static_unit) : conversion :=
  conversion_new (Static.static_magnitude From) (Static.static_origin From)
                 (Static.static_magnitude To) (Static.static_origin To).

(** What an origin adds to the offset: the origin over the target
    magnitude, zero when there is none. *)
Definition origin_contribution (origin : option rational)
  (target_magnitude : rational) : T :=
  match origin with
  | Some o => convert_to (rational_div o target_magnitude)
  | None => of_int 0
  end.

(** [conversion::operator()]. *)
Definition convert (c : conversion) (old_value : T) : T :=
  add (mul old_value (m_multiplier c)) (m_offset c).

(** ** Section [quantity]

    [quantity<T, Unit>] for a static [Unit]: the unit is the type, the value
    the only member.  An operator whose [enable_if] or [static_assert]
    rejects the operands has no result. *)

Record quantity : Type := mk_quantity {
  unit_type : static_unit;
  value : T
}.

(** The converting constructor [quantity<T, Unit>(quantity<T2, Unit2>)]. *)
Definition quantity_convert (Unit : static_unit) (other : quantity)
  : option quantity :=
  let Unit2 := unit_type other in
  if Static.are_equal Unit Unit2 then Some (mk_quantity Unit (value other))
  else if dimension_eqb (Static.static_dimension Unit)
                        (Static.static_dimension Unit2) &&
          ((Static.is_absolute Unit && Static.is_absolute Unit2) ||
           (Static.is_relative Unit && Static.is_relative Unit2))
  then Some (mk_quantity Unit
               (convert (static_conversion Unit2 Unit) (value other)))
  else None.

(** [make_relative<Unit>] as [operator-] uses it: on an absolute unit,
    which is a named class (powers and products have no origin and take the
    other overload). *)
Definition static_make_relative (Unit : static_unit) : static_unit :=
  match Unit with
  | static_named n => static_named (make_relative n)
  | _ => Unit
  end.

(** [operator+(quantity<T1, Unit>, quantity<T2, Unit>)]. *)
Definition quantity_add (a b : quantity) : option quantity :=
  if static_unit_eqb (unit_type a) (unit_type b) &&
     Static.is_relative (unit_type a)
  then Some (mk_quantity (unit_type a) (add (value a) (value b)))
  else None.

(** The two overloads of [operator-(quantity<T1, Unit>, quantity<T2,
    Unit>)]. *)
Definition quantity_sub (a b : quantity) : option quantity :=
  if static_unit_eqb (unit_type a) (unit_type b) then
    if Static.is_relative (unit_type a)
    then Some (mk_quantity (unit_type a) (sub (value a) (value b)))
    else Some (mk_quantity (static_make_relative (unit_type a))
                           (sub (value a) (value b)))
  else None.

End Payload.

Arguments conversion T : clear implicits.
Arguments quantity T : clear implicits.

(** An exact integer payload. *)
#[export] Instance Numeric_Z : Numeric Z := {
  of_int := fun z => z;
  add := Z.add;
  sub := Z.sub;
  mul := Z.mul;
  div := Z.quot
}.

(** ** Units of a client

    The header defines no absolute unit; these are two temperature scales
    as a client writes them, the coherent one and an affine one. *)

Definition kelvin : named :=
  user_unit "K" dimension_temperature (rational_of_int 1) None.

Definition degree_celsius : named :=
  user_unit "degC" dimension_temperature (rational_of_int 1)
            (Some (rational_from 27315 100)).

(** [U] is the named class [m] (then [e = 1]) or [static_pow<m, e>]. *)
Definition power_of_named (U : static_unit) (m : named) (e : Z) : Prop :=
  (U = static_named m /\ e = 1) \/ U = static_pow (static_named m) e.

(** ** Well-formed values

    An [int] member is within the range of [int]; the components of a
    [dimension] are [int] members. *)
Definition dimension_in_range (d : dimension) : Prop :=
  int_range (time_exponent d) /\
  int_range (length_exponent d) /\
  int_range (mass_exponent d) /\
  int_range (electric_current_exponent d) /\
  int_range (temperature_exponent d) /\
  int_range (amount_of_substance_exponent d) /\
  int_range (luminous_intensity_exponent d).

(** A run-time description none of whose products is empty: its
    [dimension()] and [magnitude()] never read past an empty vector. *)
Fixpoint no_empty_product (u : dynamic_unit) : Prop :=
  match u with
  | dynamic_named _ => True
  | dynamic_exp m_base _ => no_empty_product m_base
  | dynamic_product m_terms =>
      m_terms <> [] /\
      (fix all (l : list dynamic_unit) : Prop :=
         match l with
         | [] => True
         | t :: l' => no_empty_product t /\ all l'
         end) m_terms
  end.

(** The [dimension] of every named object inside [u] has members within
    the range of [int]. *)
Fixpoint dimensions_in_range (u : dynamic_unit) : Prop :=
  match u with
  | dynamic_named n => dimension_in_range (named_dimension n)
  | dynamic_exp m_base _ => dimensions_in_range m_base
  | dynamic_product m_terms =>
      (fix all (l : list dynamic_unit) : Prop :=
         match l with
         | [] => True
         | t :: l' => dimensions_in_range t /\ all l'
         end) m_terms
  end.

(** The product of a list of dimensions. *)
Definition dimension_product (ds : list dimension) : dimension :=
  fold_right dimension_mul dimensionless ds.

(** [t] is a [dynamic_exp]: the reference cast of [multiply_with]
    succeeds. *)
Definition is_dynamic_exp (t : dynamic_unit) : Prop :=
  match t with
  | dynamic_exp _ _ => True
  | _ => False
  end.

(** The terms of a product under construction: powers whose bases have
    defined properties. *)
Definition exp_terms (p : list dynamic_unit) : Prop :=
  Forall (fun t => is_dynamic_exp t /\ no_empty_product t) p.

(** The same for a static description. *)
Fixpoint static_dimensions_in_range (U : static_unit) : Prop :=
  match U with
  | static_named n => dimension_in_range (named_dimension n)
  | static_pow Base _ => static_dimensions_in_range Base
  | static_product Units =>
      (fix all (l : list static_unit) : Prop :=
         match l with
         | [] => True
         | t :: l' => static_dimensions_in_range t /\ all l'
         end) Units
  end.

(** ** Canonical products

    The base of a term of a canonical product; a term that is no
    [static_pow] stands for itself. *)
Definition term_base (T : static_unit) : static_unit :=
  match T with
  | static_pow Base _ => Base
  | _ => T
  end.

Definition is_static_pow (T : static_unit) : Prop :=
  match T with
  | static_pow _ _ => True
  | _ => False
  end.

(** Every term is a power and no base occurs twice. *)
Definition canonical (Units : list static_unit) : Prop :=
  Forall is_static_pow Units /\ NoDup (map term_base Units).

(** ** Roots of static descriptions

    [static_root_helper<A, Exponent>]: the specialisations for a power, for
    the empty product and for a product with a first unit.  The primary
    template is only declared, so any other [A] stops the build, as do the
    failed [static_assert] and a [%] or [/] that is no constant expression:
    [None]. *)
Fixpoint static_root_helper (A : static_unit) (Exponent : Z)
  : option static_unit :=
  match A with
  | static_named _ => None
  | static_pow Base Exponent1 =>
      if (Exponent =? 0) || ((Exponent1 =? int_min) && (Exponent =? -1))
      then None
      else if int_rem Exponent1 Exponent =? 0
      then Some (static_pow Base (int_quot Exponent1 Exponent))
      else None
  | static_product Units =>
      match
        (fix helper_units (l : list static_unit)
           : option (list static_unit) :=
           match l with
           | [] => Some []
           | FirstUnit :: NextUnits =>
               match static_root_helper FirstUnit Exponent,
                     helper_units NextUnits with
               | Some first_root, Some next_root =>
                   Some (first_root :: next_root)
               | _, _ => None
               end
           end) Units
      with
      | Some root => Some (static_product root)
      | None => None
      end
  end.

(** [static_root<Base, Exponent>], [static_sqrt], [static_cbrt]. *)
Definition static_root (Base : static_unit) (Exponent : Z)
  : option static_unit :=
  match static_root_helper (static_product (Static.canonicalize Base))
                           Exponent with
  | Some root => Some (Static.simplify root)
  | None => None
  end.

Definition static_sqrt (Base : static_unit) : option static_unit :=
  static_root Base 2.

Definition static_cbrt (Base : static_unit) : option static_unit :=
  static_root Base 3.

(** [T] is a power whose exponent [Exponent] divides: the root of this
    term of a canonical product is defined. *)
Definition root_defined (Exponent : Z) (T : static_unit) : Prop :=
  exists Base Exponent1,
    T = static_pow Base Exponent1 /\ Exponent <> 0 /\
    ~ (Exponent1 = int_min /\ Exponent = -1) /\
    Z.rem Exponent1 Exponent = 0.

(** [sqrt(dynamic_unit)] and [cbrt(dynamic_unit)]. *)
Definition dynamic_sqrt (base : dynamic_unit) : outcome dynamic_unit :=
  Dynamic.root base 2.

Definition dynamic_cbrt (base : dynamic_unit) : outcome dynamic_unit :=
  Dynamic.root base 3.

Section QuantityProducts.

Context {T : Type} {payload : Numeric T}.

(** [operator*(quantity<T1, Unit1>, quantity<T2, Unit2>)]. *)
Definition quantity_mul (a b : quantity T) : quantity T :=
  mk_quantity (Static.multiply (unit_type a) (unit_type b))
              (mul (value a) (value b)).

(** [operator/(quantity<T1, Unit1>, quantity<T2, Unit2>)]. *)
Definition quantity_div (a b : quantity T) : quantity T :=
  mk_quantity (Static.divide (unit_type a) (unit_type b))
              (div (value a) (value b)).

End QuantityProducts.

(** An exact rational payload. *)
#[export] Instance Numeric_Q : Numeric Q := {
  of_int := inject_Z;
  add := Qplus;
  sub := Qminus;
  mul := Qmult;
  div := Qdiv
}.

(** [a / b] is computed without overflow and [b] is not zero. *)
Definition exact_quotient (a b : rational) : Prop :=
  rational_reduced a /\ rational_reduced b /\ rational_in_range b /\
  numerator b <> 0 /\
  Z.abs (numerator a * denominator b) <= int64_max /\
  denominator a * Z.abs (numerator b) <= int64_max.

(** The divisions of a conversion to a unit of magnitude [target] from a
    unit of magnitude [source], with the origins of both. *)
Definition exact_conversion (source : rational) (o_source : option rational)
  (target : rational) (o_target : option rational) : Prop :=
  exact_quotient source target /\
  (forall o, o_source = Some o -> exact_quotient o target) /\
  (forall o, o_target = Some o -> exact_quotient o target).

(** * Properties

    Machine integers *)

Lemma wrap64_small (z : Z) : int64_range z -> wrap 64 z = z.
Proof.
  unfold int64_range, int64_min, int64_max, wrap. intros Hz.
  change (64 - 1) with 63.
  rewrite Z.mod_small by lia. lia.
Qed.

Lemma wrap32_small (z : Z) : int_range z -> wrap 32 z = z.
Proof.
  unfold int_range, int_min, int_max, wrap. intros Hz.
  change (32 - 1) with 31.
  rewrite Z.mod_small by lia. lia.
Qed.

Lemma wrap32_range (z : Z) : int_range (wrap 32 z).
Proof.
  unfold int_range, int_min, int_max, wrap. change (32 - 1) with 31.
  pose proof (Z.mod_pos_bound (z + 2 ^ 31) (2 ^ 32) ltac:(lia)). lia.
Qed.

Lemma abs_small (a : Z) : int64_min < a <= int64_max -> abs a = Z.abs a.
Proof.
  intros Ha. unfold abs, neg64.
  destruct (Z.ltb_spec a 0).
  - rewrite wrap64_small; [lia|]. unfold int64_range, int64_min, int64_max in *. lia.
  - lia.
Qed.

(** * [kul::gcd] *)

Lemma gcd_rem_step (a b : Z) : Z.gcd b (Z.rem a b) = Z.gcd a b.
Proof.
  destruct (Z.eq_dec b 0) as [->|Hb].
  - rewrite Z.rem_0_r_ext by reflexivity. now rewrite Z.gcd_comm.
  - pose proof (Z.quot_rem a b Hb) as E.
    replace (Z.rem a b) with (a + (- Z.quot a b) * b) by lia.
    rewrite Z.gcd_add_mult_diag_r. apply Z.gcd_comm.
Qed.

Lemma rem_rem_half (a b : Z) :
  b <> 0 -> Z.rem a b <> 0 -> 2 * Z.abs (Z.rem b (Z.rem a b)) < Z.abs b.
Proof.
  intros Hb Hr.
  pose proof (Z.rem_bound_abs a b Hb) as H1.
  pose proof (Z.rem_bound_abs b (Z.rem a b) Hr) as H2.
  pose proof (Z.quot_rem b (Z.rem a b) Hr) as E.
  set (r := Z.rem a b) in *. set (r' := Z.rem b r) in *.
  set (q := Z.quot b r) in *.
  assert (Hq : q <> 0) by (intros Hq0; rewrite Hq0 in E; lia).
  assert (Hsign : 0 <= r' * b) by (apply Z.rem_sign_mul; exact Hr).
  nia.
Qed.

Lemma gcd_loop_S (n : nat) (a b : Z) :
  gcd_loop (S n) a b = if b =? 0 then a else gcd_loop n b (rem64 a b).
Proof. reflexivity. Qed.

Lemma gcd_loop_spec (k : nat) : forall a b,
  Z.abs b < 2 ^ Z.of_nat k ->
  Z.abs (gcd_loop (S (2 * k)) a b) = Z.gcd a b.
Proof.
  induction k as [|k IH]; intros a b Hb.
  - assert (b = 0) by (simpl in Hb; lia). subst b. simpl.
    now rewrite Z.gcd_0_r.
  - replace (S (2 * S k)) with (S (S (S (2 * k)))) by lia.
    rewrite (gcd_loop_S (S (S (2 * k)))), (gcd_loop_S (S (2 * k))).
    unfold rem64.
    destruct (Z.eqb_spec b 0) as [->|Hb0]; [now rewrite Z.gcd_0_r|].
    destruct (Z.eqb_spec (Z.rem a b) 0) as [Hr|Hr].
    + rewrite <- (gcd_rem_step a b), Hr. now rewrite Z.gcd_0_r.
    + rewrite IH.
      * now rewrite !gcd_rem_step.
      * pose proof (rem_rem_half a b Hb0 Hr).
        rewrite Nat2Z.inj_succ, Z.pow_succ_r in Hb by lia. lia.
Qed.

(** More fuel than [gcd_fuel] does not change the result: the loop has
    stopped at [b = 0]. *)
Lemma gcd_loop_terminates (k : nat) : forall a b extra,
  Z.abs b < 2 ^ Z.of_nat k ->
  gcd_loop (S (2 * k) + extra) a b = gcd_loop (S (2 * k)) a b.
Proof.
  induction k as [|k IH]; intros a b extra Hb.
  - assert (b = 0) by (simpl in Hb; lia). subst b. reflexivity.
  - replace (S (2 * S k) + extra)%nat with (S (S (S (2 * k) + extra))) by lia.
    replace (S (2 * S k)) with (S (S (S (2 * k)))) by lia.
    rewrite (gcd_loop_S (S (S (2 * k) + extra))), (gcd_loop_S (S (S (2 * k)))).
    rewrite (gcd_loop_S (S (2 * k) + extra)), (gcd_loop_S (S (2 * k))).
    unfold rem64.
    destruct (Z.eqb_spec b 0) as [->|Hb0]; [reflexivity|].
    destruct (Z.eqb_spec (Z.rem a b) 0) as [Hr|Hr]; [reflexivity|].
    apply IH.
    pose proof (rem_rem_half a b Hb0 Hr).
    rewrite Nat2Z.inj_succ, Z.pow_succ_r in Hb by lia. lia.
Qed.

Lemma gcd_fuel_enough (b : Z) :
  Z.abs b < 2 ^ Z.of_nat (S (Z.to_nat (Z.log2 (Z.abs b)))).
Proof.
  rewrite Nat2Z.inj_succ, Z2Nat.id by apply Z.log2_nonneg.
  destruct (Z.eq_dec b 0) as [->|Hb]; [reflexivity|].
  apply Z.log2_spec. lia.
Qed.

Lemma gcd_loop_nonneg (fuel : nat) : forall a b,
  0 <= a -> 0 <= b -> 0 <= gcd_loop fuel a b.
Proof.
  induction fuel as [|fuel IH]; intros a b Ha Hb; simpl; [exact Ha|].
  destruct (Z.eqb_spec b 0); [exact Ha|].
  apply IH; [exact Hb|]. unfold rem64. apply Z.rem_nonneg; lia.
Qed.

Lemma gcd_spec (a b : Z) : 0 <= a -> 0 <= b -> gcd a b = Z.gcd a b.
Proof.
  intros Ha Hb. unfold gcd, gcd_fuel.
  rewrite <- (gcd_loop_spec _ a b (gcd_fuel_enough b)).
  symmetry. apply Z.abs_eq. now apply gcd_loop_nonneg.
Qed.

(** * The [rational] constructor *)

Lemma gcd_pos_r (n d : Z) : d <> 0 -> 0 < Z.gcd n d.
Proof.
  intros Hd. pose proof (Z.gcd_nonneg n d).
  destruct (Z.eq_dec (Z.gcd n d) 0) as [E|]; [|lia].
  apply Z.gcd_eq_0_r in E. contradiction.
Qed.

Lemma quot_gcd_bounds (x y : Z) :
  0 <= x -> 0 < Z.gcd x y ->
  0 <= Z.quot x (Z.gcd x y) <= x.
Proof.
  intros Hx Hg. rewrite Z.quot_div_nonneg by lia. split.
  - apply Z.div_pos; lia.
  - apply Z.div_le_upper_bound; nia.
Qed.

(** What the constructor stores when neither argument is [INT64_MIN]. *)
Lemma rational_from_fields (n d : Z) :
  int64_min < n <= int64_max -> int64_min < d <= int64_max -> d <> 0 ->
  numerator (rational_from n d) =
    Z.sgn n * Z.sgn d * (Z.abs n / Z.gcd n d) /\
  denominator (rational_from n d) = Z.abs d / Z.gcd n d.
Proof.
  intros Hn Hd Hd0.
  unfold rational_from, numerator, denominator. cbn [m_numerator m_denominator].
  rewrite !abs_small by assumption.
  rewrite gcd_spec by lia. rewrite Z.gcd_abs_l, Z.gcd_abs_r.
  pose proof (gcd_pos_r n d Hd0) as Hg.
  assert (Hqn : 0 <= Z.quot (Z.abs n) (Z.gcd n d) <= Z.abs n).
  { rewrite <- (Z.gcd_abs_l n d). apply quot_gcd_bounds; [lia|].
    now rewrite Z.gcd_abs_l. }
  assert (Hqd : 0 <= Z.quot (Z.abs d) (Z.gcd n d) <= Z.abs d).
  { rewrite <- (Z.gcd_abs_r n d), Z.gcd_comm.
    apply quot_gcd_bounds; [lia|]. now rewrite Z.gcd_comm, Z.gcd_abs_r. }
  unfold quot64, neg64, int64_min, int64_max in *.
  rewrite (wrap64_small (Z.quot (Z.abs n) (Z.gcd n d)))
    by (unfold int64_range, int64_min, int64_max; lia).
  rewrite (wrap64_small (Z.quot (Z.abs d) (Z.gcd n d)))
    by (unfold int64_range, int64_min, int64_max; lia).
  rewrite !Z.quot_div_nonneg in * by lia.
  split; [|reflexivity].
  set (q := Z.abs n / Z.gcd n d) in *.
  assert (Hq0 : n = 0 -> q = 0).
  { intros ->. unfold q. now rewrite Z.abs_0, Z.div_0_l by lia. }
  destruct (Z.ltb_spec n 0), (Z.ltb_spec d 0); cbn [negb xorb];
    try (rewrite wrap64_small
           by (unfold int64_range, int64_min, int64_max; lia));
    pose proof (Z.sgn_spec n); pose proof (Z.sgn_spec d); nia.
Qed.

Lemma rational_from_ok (n d : Z) :
  int64_min < n <= int64_max -> int64_min < d <= int64_max -> d <> 0 ->
  rational_reduced (rational_from n d) /\
  Z.abs (numerator (rational_from n d)) <= Z.abs n /\
  denominator (rational_from n d) <= Z.abs d /\
  numerator (rational_from n d) * d = n * denominator (rational_from n d).
Proof.
  intros Hn Hd Hd0.
  destruct (rational_from_fields n d Hn Hd Hd0) as [En Ed].
  pose proof (gcd_pos_r n d Hd0) as Hg.
  set (g := Z.gcd n d) in *.
  assert (Dn : (g | Z.abs n)) by (apply Z.divide_abs_r, Z.gcd_divide_l).
  assert (Dd : (g | Z.abs d)) by (apply Z.divide_abs_r, Z.gcd_divide_r).
  destruct Dn as [qn Hqn]. destruct Dd as [qd Hqd].
  assert (Eqn : Z.abs n / g = qn) by (rewrite Hqn; apply Z.div_mul; lia).
  assert (Eqd : Z.abs d / g = qd) by (rewrite Hqd; apply Z.div_mul; lia).
  rewrite Eqn in En. rewrite Eqd in Ed.
  assert (Hqn0 : 0 <= qn) by nia.
  assert (Hqd0 : 0 < qd) by nia.
  assert (Habs : Z.abs (numerator (rational_from n d)) = qn).
  { rewrite En. pose proof (Z.sgn_spec n). pose proof (Z.sgn_spec d). nia. }
  unfold rational_reduced. rewrite Habs, Ed.
  repeat split.
  - rewrite <- Eqn, <- Eqd. apply Z.gcd_div_gcd; [lia|].
    unfold g. now rewrite Z.gcd_abs_l, Z.gcd_abs_r.
  - lia.
  - nia.
  - nia.
  - rewrite En. pose proof (Z.sgn_spec n). pose proof (Z.sgn_spec d). nia.
Qed.

Lemma inverse_ok (a : rational) :
  rational_in_range a -> numerator a <> 0 ->
  rational_reduced (inverse a) /\
  Z.abs (numerator (inverse a)) <= Z.abs (denominator a) /\
  denominator (inverse a) <= Z.abs (numerator a).
Proof.
  intros [Hn Hd] Hn0. unfold inverse.
  destruct (rational_from_ok (denominator a) (numerator a) Hd Hn Hn0)
    as [R [Bn [Bd _]]].
  auto.
Qed.

Lemma mul64_small (x y : Z) :
  int64_min < x * y <= int64_max -> mul64 x y = x * y.
Proof.
  intros Hxy. unfold mul64. apply wrap64_small.
  unfold int64_range. lia.
Qed.

Lemma rational_mul_ok (a b : rational) :
  int64_min < numerator a * numerator b <= int64_max ->
  int64_min < denominator a * denominator b <= int64_max ->
  denominator a * denominator b <> 0 ->
  rational_reduced (rational_mul a b) /\
  Z.abs (numerator (rational_mul a b)) <= Z.abs (numerator a * numerator b) /\
  denominator (rational_mul a b) <= Z.abs (denominator a * denominator b).
Proof.
  intros Hn Hd Hd0. unfold rational_mul.
  rewrite !mul64_small by assumption.
  destruct (rational_from_ok _ _ Hn Hd Hd0) as [R [Bn [Bd _]]]. auto.
Qed.

(** * [kul::pow] on rationals *)

Section PowLoop.

Variable M : Z.
Variable c : rational.
Hypothesis M_pos : 1 <= M.
Hypothesis c_num : Z.abs (numerator c) <= M.
Hypothesis c_den : 0 < denominator c <= M.

Lemma pow_loop_ok (n : nat) : forall (i : Z) (r : rational),
  0 <= i ->
  M ^ (i + Z.of_nat n) <= int64_max ->
  rational_reduced r ->
  Z.abs (numerator r) <= M ^ i -> denominator r <= M ^ i ->
  rational_reduced (repeat_loop n (fun r => rational_mul r c) r).
Proof.
  induction n as [|n IH]; intros i r Hi Hfit Hr Bn Bd; [exact Hr|].
  cbn [repeat_loop].
  assert (Hle : M ^ (i + 1) <= M ^ (i + Z.of_nat (S n)))
    by (apply Z.pow_le_mono_r; lia).
  assert (Hpow : M ^ (i + 1) = M ^ i * M)
    by (rewrite Z.pow_add_r, Z.pow_1_r by lia; reflexivity).
  assert (Hpi : 0 < M ^ i) by (apply Z.pow_pos_nonneg; lia).
  destruct Hr as [_ Hrd].
  assert (Hnum : Z.abs (numerator r * numerator c) <= M ^ (i + 1)).
  { rewrite Z.abs_mul, Hpow. apply Z.mul_le_mono_nonneg; lia. }
  assert (Hden : 0 < denominator r * denominator c <= M ^ (i + 1)).
  { rewrite Hpow. split; [nia|]. apply Z.mul_le_mono_nonneg; lia. }
  destruct (rational_mul_ok r c) as [R [Bn' Bd']];
    try (unfold int64_min, int64_max in *; lia).
  apply (IH (i + 1)); try lia; try assumption.
  replace (i + 1 + Z.of_nat n) with (i + Z.of_nat (S n)) by lia.
  exact Hfit.
Qed.

End PowLoop.

Lemma rational_of_int_1 : rational_of_int 1 = mk_rational 1 1.
Proof. reflexivity. Qed.

Lemma rational_pow_ok (b : rational) (e : Z) :
  rational_reduced b -> rational_in_range b -> int_range e ->
  (0 <= e \/ numerator b <> 0) ->
  Z.max (Z.abs (numerator b)) (denominator b) ^ Z.abs e <= int64_max ->
  rational_reduced (rational_pow b e).
Proof.
  intros Hb Hr He Hz Hfit.
  set (M := Z.max (Z.abs (numerator b)) (denominator b)) in *.
  destruct Hb as [Hgcd Hden].
  assert (HM : 1 <= M) by (unfold M; lia).
  assert (Hone : rational_reduced (mk_rational 1 1))
    by (split; reflexivity).
  unfold rational_pow. rewrite rational_of_int_1.
  destruct (Z.le_gt_cases 0 e) as [Hpos|Hneg].
  - assert (E : int_neg e = - e).
    { unfold int_neg. apply wrap32_small.
      unfold int_range, int_min, int_max in *. lia. }
    replace (Z.to_nat (int_neg e)) with 0%nat by (rewrite E; lia).
    cbn [repeat_loop].
    apply (pow_loop_ok M b HM ltac:(unfold M; lia) ltac:(unfold M; lia)
             (Z.to_nat e) 0); cbn [numerator denominator m_numerator m_denominator];
      try lia; try assumption.
    rewrite Z2Nat.id by lia. rewrite Z.abs_eq in Hfit by lia. exact Hfit.
  - replace (Z.to_nat e) with 0%nat by lia. cbn [repeat_loop].
    assert (Hnz : numerator b <> 0) by lia.
    destruct (inverse_ok b Hr Hnz) as [[_ Hiden] [Bn Bd]].
    assert (Hcount : Z.of_nat (Z.to_nat (int_neg e)) <= Z.abs e).
    { pose proof (wrap32_range (- e)) as Hw. unfold int_neg.
      destruct (Z.eq_dec e int_min) as [->|Hmin]; [vm_compute; discriminate|].
      rewrite wrap32_small; [lia|].
      unfold int_range, int_min, int_max in *. lia. }
    unfold rational_div.
    apply (pow_loop_ok M (inverse b) HM ltac:(unfold M; lia)
             ltac:(unfold M; lia) (Z.to_nat (int_neg e)) 0);
      cbn [numerator denominator m_numerator m_denominator];
      try lia; try assumption.
    etransitivity; [|exact Hfit]. apply Z.pow_le_mono_r; lia.
Qed.

(** * Equality tests *)

Lemma rational_eqb_eq (a b : rational) : rational_eqb a b = true <-> a = b.
Proof.
  unfold rational_eqb, numerator, denominator. destruct a, b; cbn.
  rewrite andb_true_iff, !Z.eqb_eq. split.
  - intros [-> ->]. reflexivity.
  - intros E. injection E. auto.
Qed.

Lemma dimension_eqb_eq (a b : dimension) : dimension_eqb a b = true <-> a = b.
Proof.
  unfold dimension_eqb. destruct a, b; cbn.
  rewrite !andb_true_iff, !Z.eqb_eq. split.
  - intros [[[[[[-> ->] ->] ->] ->] ->] ->]. reflexivity.
  - intros E. injection E. intros. subst. repeat split.
Qed.

Lemma optional_eqb_eq (a b : option rational) :
  optional_eqb a b = true <-> a = b.
Proof.
  destruct a as [x|], b as [y|]; cbn; try (split; [discriminate|discriminate]).
  - rewrite rational_eqb_eq. split; [intros ->; reflexivity|].
    intros E; injection E; auto.
  - split; reflexivity.
Qed.

Lemma named_eqb_eq (A : named) : forall B, named_eqb A B = true <-> A = B.
Proof.
  induction A; destruct B; cbn;
    try (split; [discriminate|discriminate]);
    try (split; reflexivity).
  - rewrite IHA. split; [intros ->; reflexivity|intros E; injection E; auto].
  - rewrite IHA. split; [intros ->; reflexivity|intros E; injection E; auto].
  - rewrite IHA. split; [intros ->; reflexivity|intros E; injection E; auto].
  - rewrite !andb_true_iff, String.eqb_eq, dimension_eqb_eq, rational_eqb_eq,
      optional_eqb_eq.
    split.
    + intros [[[-> ->] ->] ->]. reflexivity.
    + intros E. injection E. auto.
Qed.

Lemma static_unit_eqb_eq (A : static_unit) :
  forall B, static_unit_eqb A B = true <-> A = B.
Proof.
  induction A as [a|A' E1 IH|As IH] using static_unit_ind; intros B;
    destruct B as [b|B' E2|Bs]; cbn;
    try (split; [discriminate|discriminate]).
  - rewrite named_eqb_eq. split; [intros ->; reflexivity|].
    intros E; injection E; auto.
  - rewrite andb_true_iff, IH, Z.eqb_eq.
    split; [intros [-> ->]; reflexivity|intros E; injection E; auto].
  - revert Bs. induction IH as [|x l Hx _ IHl]; intros [|y l2];
      try (split; [discriminate|discriminate]).
    + split; reflexivity.
    + rewrite andb_true_iff, Hx, IHl. split.
      * intros [-> E]. injection E as ->. reflexivity.
      * intros E. injection E as -> ->. auto.
Qed.

Lemma static_unit_eqb_refl (A : static_unit) : static_unit_eqb A A = true.
Proof. now apply static_unit_eqb_eq. Qed.

(** * Conversion between units *)

Section Conversion.
Context {T : Type} {payload : Numeric T}.

Lemma conversion_of_units_defined (from to : dynamic_unit)
  (from_magnitude to_magnitude : rational) :
  Dynamic.magnitude from = Ok from_magnitude ->
  Dynamic.magnitude to = Ok to_magnitude ->
  conversion_of_units from to =
    Ok (conversion_new from_magnitude (Dynamic.origin from)
                       to_magnitude (Dynamic.origin to)).
Proof.
  intros Ef Et. unfold conversion_of_units. rewrite Ef, Et. reflexivity.
Qed.

(** C1: the run-time constructor [conversion(unit const&, unit const&)]
    reads only magnitudes and origins.  It returns a conversion from meter
    to second (unequal dimensions) and from an absolute temperature unit to
    a relative one, where the converting constructor of the static path
    rejects both pairs. *)
Theorem dynamic_conversion_is_unchecked :
  conversion_of_units (dynamic_named meter) (dynamic_named second) =
    Ok (conversion_new (rational_of_int 1) None (rational_of_int 1) None) /\
  conversion_of_units (dynamic_named degree_celsius) (dynamic_named kelvin) =
    Ok (conversion_new (rational_of_int 1) (Some (rational_from 27315 100))
                       (rational_of_int 1) None) /\
  (forall v : T,
     quantity_convert (static_named second)
                      (mk_quantity (static_named meter) v) = None) /\
  (forall v : T,
     quantity_convert (static_named kelvin)
                      (mk_quantity (static_named degree_celsius) v) = None).
Proof.
  repeat split.
Qed.


Lemma conversion_new_formula (old_magnitude new_magnitude : rational)
  (old_origin new_origin : option rational) :
  (forall x : T, add (of_int 0) x = x) ->
  sub (of_int 0) (of_int 0) = of_int 0 :> T ->
  has_value old_origin = has_value new_origin ->
  let c := conversion_new old_magnitude old_origin new_magnitude new_origin in
  m_multiplier c = convert_to (rational_div old_magnitude new_magnitude) /\
  m_offset c = sub (origin_contribution old_origin new_magnitude)
                   (origin_contribution new_origin new_magnitude) /\
  forall old_value : T,
    convert c old_value = add (mul old_value (m_multiplier c)) (m_offset c).
Proof.
  intros Hadd Hsub Habs. cbv zeta. unfold conversion_new, convert.
  cbn [m_multiplier m_offset].
  destruct old_origin, new_origin; try discriminate; cbn [origin_contribution];
    repeat split; rewrite ?Hadd, ?Hsub; reflexivity.
Qed.

(** C4: for units of equal dimension and matching absoluteness the
    multiplier is the source magnitude divided by the target magnitude as
    rationals, converted to the payload type; the offset is the source
    origin over the target magnitude minus the target origin over the target
    magnitude, an absent origin counting as zero; applying the conversion
    to [old_value] gives [old_value * multiplier + offset].  This holds for
    the conversion built from two run-time units and for
    [static_conversion].  The payload type is assumed to satisfy
    [0 + x = x] and [0 - 0 = 0]. *)
Theorem conversion_multiplier_and_offset :
  (forall x : T, add (of_int 0) x = x) ->
  sub (of_int 0) (of_int 0) = of_int 0 :> T ->
  (forall (from to : dynamic_unit) (from_magnitude to_magnitude : rational),
     Dynamic.magnitude from = Ok from_magnitude ->
     Dynamic.magnitude to = Ok to_magnitude ->
     Dynamic.dimension_of from = Dynamic.dimension_of to ->
     has_value (Dynamic.origin from) = has_value (Dynamic.origin to) ->
     exists c : conversion T,
       conversion_of_units from to = Ok c /\
       m_multiplier c = convert_to (rational_div from_magnitude to_magnitude) /\
       m_offset c =
         sub (origin_contribution (Dynamic.origin from) to_magnitude)
             (origin_contribution (Dynamic.origin to) to_magnitude) /\
       forall old_value : T,
         convert c old_value =
           add (mul old_value (m_multiplier c)) (m_offset c)) /\
  (forall From To : static_unit,
     Static.static_dimension From = Static.static_dimension To ->
     Static.is_absolute From = Static.is_absolute To ->
     let c := static_conversion From To in
     m_multiplier c =
       convert_to (rational_div (Static.static_magnitude From)
                                (Static.static_magnitude To)) /\
     m_offset c =
       sub (origin_contribution (Static.static_origin From)
                                (Static.static_magnitude To))
           (origin_contribution (Static.static_origin To)
                                (Static.static_magnitude To)) /\
     forall old_value : T,
       convert c old_value =
         add (mul old_value (m_multiplier c)) (m_offset c)).
Proof.
  intros Hadd Hsub. split.
  - intros from to from_magnitude to_magnitude Ef Et _ Habs.
    eexists. split.
    + apply conversion_of_units_defined; eassumption.
    + now apply conversion_new_formula.
  - intros From To _ Habs. now apply conversion_new_formula.
Qed.

End Conversion.

Lemma conversion_multiplier_and_offset_witness :
  (exists c : conversion Z,
     conversion_of_units (dynamic_named meter) (dynamic_named inch) = Ok c /\
     m_multiplier c = 39 /\ m_offset c = 0 /\
     convert c 2 = 78) /\
  m_offset (static_conversion (T := Z) (static_named kelvin)
                              (static_named kelvin)) = 0.
Proof.
  destruct (conversion_multiplier_and_offset (payload := Numeric_Z)
              (fun x : Z => eq_refl) eq_refl) as [Hdyn Hstat].
  split.
  - destruct (Hdyn (dynamic_named meter) (dynamic_named inch)
                   (rational_of_int 1) (rational_from 254 10000)
                   eq_refl eq_refl eq_refl eq_refl)
      as [c [E [Em [Eo Ec]]]].
    exists c. repeat split; try assumption.
    rewrite Ec, Em, Eo. reflexivity.
  - destruct (Hstat (static_named kelvin) (static_named kelvin)
                    eq_refl eq_refl) as [_ [Eo _]].
    rewrite Eo. reflexivity.
Defined.

(** * The empty product *)

(** C3: the static empty product has dimension zero, magnitude 1 and no
    origin, and [are_equal] holds between it and [unitless].  The dynamic
    empty product (what [static_product<>::copy()] returns) has no defined
    dimension or magnitude: both read the first term of an empty vector,
    and so does the equality test against [unitless]. *)
Theorem empty_product_properties :
  Static.static_dimension (static_product []) = dimensionless /\
  Static.static_magnitude (static_product []) = mk_rational 1 1 /\
  Static.static_origin (static_product []) = None /\
  Static.are_equal (static_product []) (static_named unitless) = true /\
  static_copy (static_product []) = Some (dynamic_product []) /\
  Dynamic.origin (dynamic_product []) = None /\
  Dynamic.dimension_of (dynamic_product []) = Undefined /\
  Dynamic.magnitude (dynamic_product []) = Undefined /\
  Dynamic.unit_eq (dynamic_product []) (dynamic_named unitless) = Undefined /\
  Dynamic.simplify (dynamic_product []) = dynamic_named unitless.
Proof.
  repeat split.
Qed.

(** * Origins of powers and products *)

(** C10: a power node and a product node have no origin, whatever the base
    or the terms, in the static and in the dynamic realization; such a unit
    is relative. *)
Theorem power_and_product_have_no_origin :
  (forall (B : dynamic_unit) (e : Z), Dynamic.origin (dynamic_exp B e) = None) /\
  (forall terms : list dynamic_unit,
     Dynamic.origin (dynamic_product terms) = None) /\
  (forall (B : static_unit) (e : Z),
     Static.static_origin (static_pow B e) = None /\
     Static.is_relative (static_pow B e) = true) /\
  (forall Units : list static_unit,
     Static.static_origin (static_product Units) = None /\
     Static.is_relative (static_product Units) = true) /\
  Static.is_absolute (static_named degree_celsius) = true /\
  Static.is_relative (static_pow (static_named degree_celsius) 1) = true /\
  Static.is_relative
    (static_product [static_named degree_celsius; static_named second]) = true.
Proof.
  repeat split.
Qed.

(** * Subtraction of absolute quantities *)

Section Quantity.
Context {T : Type} {payload : Numeric T}.

Lemma is_absolute_named (U : static_unit) :
  Static.is_absolute U = true ->
  exists n o, U = static_named n /\ named_origin n = Some o.
Proof.
  destruct U as [n| |]; cbn; try discriminate.
  unfold Static.is_absolute. cbn. destruct (named_origin n) as [o|] eqn:E;
    [|discriminate].
  intros _. now exists n, o.
Qed.


End Quantity.


(** * Simplification: dynamic *)

Lemma simplify_loop_filter (l : list dynamic_unit) : forall result,
  (fix loop (result : list dynamic_unit) (l : list dynamic_unit)
     : list dynamic_unit :=
     match l with
     | [] => result
     | u' :: l' =>
         loop (Dynamic.push_back_unless_unitless result (Dynamic.simplify u'))
              l'
     end) result l
  = result ++ filter Dynamic.kept (map Dynamic.simplify l).
Proof.
  induction l as [|u l IH]; intros result; cbn [map filter].
  - now rewrite app_nil_r.
  - rewrite IH. unfold Dynamic.push_back_unless_unitless, Dynamic.push_back, Dynamic.kept.
    destruct (Dynamic.is_unitless (Dynamic.simplify u)); cbn [negb].
    + reflexivity.
    + now rewrite <- app_assoc.
Qed.

Lemma dynamic_simplify_product (m_terms : list dynamic_unit) :
  Dynamic.simplify (dynamic_product m_terms) =
  Dynamic.collapse (filter Dynamic.kept (map Dynamic.simplify m_terms)).
Proof.
  cbn [Dynamic.simplify]. now rewrite simplify_loop_filter.
Qed.

Lemma is_unitless_iff (term : dynamic_unit) :
  Dynamic.is_unitless term = true <-> term = dynamic_named unitless.
Proof.
  destruct term as [[]| |]; cbn; split; try discriminate; reflexivity.
Qed.

Lemma unit_powers_simplified_product (m_terms : list dynamic_unit) :
  Dynamic.unit_powers_simplified (dynamic_product m_terms) <->
  Forall Dynamic.unit_powers_simplified m_terms.
Proof.
  induction m_terms as [|t l IH].
  - split; [constructor|intros _; exact I].
  - change (Dynamic.unit_powers_simplified (dynamic_product (t :: l)))
      with (Dynamic.unit_powers_simplified t /\
            Dynamic.unit_powers_simplified (dynamic_product l)).
    rewrite IH. split.
    + intros [Ht Hl]. now constructor.
    + intros Hf. inversion Hf. now split.
Qed.

Lemma map_filter_fixed {A : Type} (f : A -> A) (p : A -> bool) (l : list A) :
  Forall (fun x => f x = x) l ->
  filter p (map f (filter p l)) = filter p l.
Proof.
  induction 1 as [|x l Hx _ IH]; [reflexivity|].
  cbn [filter]. destruct (p x) eqn:Ep; [|exact IH].
  cbn [map filter]. rewrite Hx, Ep, IH. reflexivity.
Qed.

Lemma dynamic_simplify_idempotent (u : dynamic_unit) :
  Dynamic.unit_powers_simplified u ->
  Dynamic.simplify (Dynamic.simplify u) = Dynamic.simplify u.
Proof.
  induction u as [n|b e _|ts IH] using dynamic_unit_ind; intros Hu.
  - reflexivity.
  - cbn [Dynamic.simplify].
    destruct (Z.eqb_spec e 0) as [E0|E0]; [reflexivity|].
    destruct (Z.eqb_spec e 1) as [E1|E1]; [exact (Hu E1)|].
    cbn [Dynamic.simplify].
    destruct (Z.eqb_spec e 0); [contradiction|].
    destruct (Z.eqb_spec e 1); [contradiction|]. reflexivity.
  - apply unit_powers_simplified_product in Hu.
    rewrite dynamic_simplify_product.
    assert (Hfix : Forall (fun s => Dynamic.simplify s = s)
                          (map Dynamic.simplify ts)).
    { apply Forall_map. rewrite Forall_forall in *. intros t Ht.
      apply IH; [exact Ht|]. now apply Hu. }
    set (S := map Dynamic.simplify ts) in *.
    assert (Hkept : Forall (fun s => Dynamic.simplify s = s) (filter Dynamic.kept S)).
    { rewrite Forall_forall in *. intros s Hs. apply Hfix.
      now apply filter_In in Hs. }
    destruct (filter Dynamic.kept S) as [|s1 [|s2 rest]] eqn:EF.
    + reflexivity.
    + cbn [Dynamic.collapse]. now inversion Hkept.
    + cbn [Dynamic.collapse]. rewrite dynamic_simplify_product, <- EF.
      rewrite map_filter_fixed by exact Hfix. rewrite EF. reflexivity.
Qed.

(** * Simplification: static *)

Lemma simplify_terms_filter (Terms : list static_unit) :
  (fix simplify_terms (l : list static_unit) : list static_unit :=
     match l with
     | [] => []
     | FirstUnit :: NextUnits =>
         Static.prepend_unless_unitless (Static.simplify FirstUnit)
                                        (simplify_terms NextUnits)
     end) Terms
  = filter Static.kept (map Static.simplify Terms).
Proof.
  induction Terms as [|t l IH]; [reflexivity|].
  rewrite IH. cbn [map filter].
  unfold Static.prepend_unless_unitless, Static.kept.
  destruct (Static.simplify t) as [[]| |]; reflexivity.
Qed.

Lemma static_simplify_product (Terms : list static_unit) :
  Static.simplify (static_product Terms) =
  Static.simplify_product (filter Static.kept (map Static.simplify Terms)).
Proof.
  cbn [Static.simplify]. now rewrite simplify_terms_filter.
Qed.

Lemma static_unit_powers_simplified_product (Terms : list static_unit) :
  Static.unit_powers_simplified (static_product Terms) <->
  Forall Static.unit_powers_simplified Terms.
Proof.
  induction Terms as [|t l IH].
  - split; [constructor|intros _; exact I].
  - change (Static.unit_powers_simplified (static_product (t :: l)))
      with (Static.unit_powers_simplified t /\
            Static.unit_powers_simplified (static_product l)).
    rewrite IH. split.
    + intros [Ht Hl]. now constructor.
    + intros Hf. inversion Hf. now split.
Qed.

Lemma static_simplify_idempotent (T : static_unit) :
  Static.unit_powers_simplified T ->
  Static.simplify (Static.simplify T) = Static.simplify T.
Proof.
  induction T as [n|B E _|Terms IH] using static_unit_ind; intros HT.
  - reflexivity.
  - cbn [Static.simplify].
    destruct (Z.eqb_spec E 0) as [E0|E0]; [reflexivity|].
    destruct (Z.eqb_spec E 1) as [E1|E1]; [exact (HT E1)|].
    cbn [Static.simplify].
    destruct (Z.eqb_spec E 0); [contradiction|].
    destruct (Z.eqb_spec E 1); [contradiction|]. reflexivity.
  - apply static_unit_powers_simplified_product in HT.
    rewrite static_simplify_product.
    assert (Hfix : Forall (fun s => Static.simplify s = s)
                          (map Static.simplify Terms)).
    { apply Forall_map. rewrite Forall_forall in *. intros t Ht.
      apply IH; [exact Ht|]. now apply HT. }
    set (S := map Static.simplify Terms) in *.
    assert (Hkept : Forall (fun s => Static.simplify s = s)
                           (filter Static.kept S)).
    { rewrite Forall_forall in *. intros s Hs. apply Hfix.
      now apply filter_In in Hs. }
    destruct (filter Static.kept S) as [|s1 [|s2 rest]] eqn:EF.
    + reflexivity.
    + cbn [Static.simplify_product]. now inversion Hkept.
    + cbn [Static.simplify_product]. rewrite static_simplify_product, <- EF.
      rewrite map_filter_fixed by exact Hfix. rewrite EF. reflexivity.
Qed.

(** C9, as it holds: [simplify] is idempotent on every description whose
    exponent-1 powers (the unit itself or terms of its products) have a
    base that [simplify] leaves as it is, in the dynamic and in the static
    realization. *)
Theorem simplify_idempotent_on_simplified_bases :
  (forall u : dynamic_unit,
     Dynamic.unit_powers_simplified u ->
     Dynamic.simplify (Dynamic.simplify u) = Dynamic.simplify u) /\
  (forall T : static_unit,
     Static.unit_powers_simplified T ->
     Static.simplify (Static.simplify T) = Static.simplify T).
Proof.
  split; [exact dynamic_simplify_idempotent|exact static_simplify_idempotent].
Qed.

Lemma simplify_idempotent_witness :
  let u := dynamic_product [dynamic_exp (dynamic_named meter) 1;
                            dynamic_exp (dynamic_named second) (-2);
                            dynamic_exp (dynamic_named gram) 0] in
  let T := static_product [static_pow (static_named meter) 1;
                           static_pow (static_named second) (-2);
                           static_pow (static_named gram) 0] in
  Dynamic.simplify (Dynamic.simplify u) = Dynamic.simplify u /\
  Static.simplify (Static.simplify T) = Static.simplify T.
Proof.
  cbv zeta. destruct simplify_idempotent_on_simplified_bases as [Hd Hs].
  split.
  - apply Hd. cbn. repeat split; intros; try reflexivity; discriminate.
  - apply Hs. cbn. repeat split; intros; try reflexivity; discriminate.
Defined.

(** C9 as stated fails: a power of exponent 1 simplifies to its base as it
    is, so a second [simplify] can change the result again, here from
    [degC^1] (no origin) to [degC] (an origin): the two are not even equal
    as units. *)
Lemma simplify_not_idempotent :
  let u := dynamic_exp (dynamic_exp (dynamic_named degree_celsius) 1) 1 in
  let T := static_pow (static_pow (static_named degree_celsius) 1) 1 in
  Dynamic.simplify (Dynamic.simplify u) <> Dynamic.simplify u /\
  Dynamic.unit_eq (Dynamic.simplify (Dynamic.simplify u)) (Dynamic.simplify u)
    = Ok false /\
  Static.simplify (Static.simplify T) <> Static.simplify T /\
  Static.are_equal (Static.simplify (Static.simplify T)) (Static.simplify T)
    = false.
Proof.
  cbv zeta. repeat split; try discriminate.
Qed.

(** * Terms of class [unitless] *)

(** C2 as stated fails: radian equals the dimensionless unit under the unit
    equality test, yet it is appended, and the simplified product keeps
    it. *)
Lemma radian_is_not_dropped :
  Dynamic.unit_eq (dynamic_named radian) (dynamic_named unitless) = Ok true /\
  Dynamic.push_back_unless_unitless [dynamic_named meter] (dynamic_named radian)
    = [dynamic_named meter; dynamic_named radian] /\
  Dynamic.simplify (dynamic_product [dynamic_named radian; dynamic_named meter])
    = dynamic_product [dynamic_named radian; dynamic_named meter].
Proof.
  repeat split.
Qed.

(** C2, as it holds: appending drops a term exactly when the term is an
    object of class [unitless]; [simplify] on a product simplifies every
    term, drops those that became such an object and collapses what is
    left, so the terms it collapses hold no object of class [unitless]. *)
Theorem unitless_objects_are_dropped :
  (forall m_terms term,
     term = dynamic_named unitless ->
     Dynamic.push_back_unless_unitless m_terms term = m_terms) /\
  (forall m_terms term,
     term <> dynamic_named unitless ->
     Dynamic.push_back_unless_unitless m_terms term = m_terms ++ [term]) /\
  (forall m_terms,
     Dynamic.simplify (dynamic_product m_terms) =
     Dynamic.collapse (filter Dynamic.kept (map Dynamic.simplify m_terms))) /\
  (forall m_terms,
     ~ In (dynamic_named unitless)
          (filter Dynamic.kept (map Dynamic.simplify m_terms))).
Proof.
  repeat split.
  - intros m_terms term ->. reflexivity.
  - intros m_terms term Hne. unfold Dynamic.push_back_unless_unitless.
    destruct (Dynamic.is_unitless term) eqn:E; [|reflexivity].
    apply is_unitless_iff in E. contradiction.
  - exact dynamic_simplify_product.
  - intros m_terms Hin. apply filter_In in Hin. destruct Hin as [_ Hk].
    discriminate.
Qed.

Lemma unitless_objects_are_dropped_witness :
  Dynamic.push_back_unless_unitless [dynamic_named meter]
                                    (dynamic_named unitless)
    = [dynamic_named meter] /\
  Dynamic.push_back_unless_unitless [dynamic_named meter]
                                    (dynamic_named second)
    = [dynamic_named meter] ++ [dynamic_named second].
Proof.
  destruct unitless_objects_are_dropped as [Hdrop [Hkeep _]].
  split.
  - apply Hdrop. reflexivity.
  - apply Hkeep. discriminate.
Defined.

(** * Roots *)

(** The loop of [root] over the terms of a product, when every term has a
    root: the roots are multiplied into the result one after the other. *)
Lemma root_loop_roots (exponent : Z) (terms roots : list dynamic_unit) :
  Forall2 (fun term r => Dynamic.root term exponent = Ok r) terms roots ->
  forall result,
  (fix loop (result : list dynamic_unit) (l : list dynamic_unit)
     : outcome (list dynamic_unit) :=
     match l with
     | [] => Ok result
     | term :: l' =>
         r <- Dynamic.root term exponent ;;
         result' <- Dynamic.multiply_with result r ;;
         loop result' l'
     end) result terms
  = Dynamic.multiply_with result (dynamic_product roots).
Proof.
  induction 1 as [|term r terms roots Hr _ IH]; intros result.
  - reflexivity.
  - rewrite Hr. cbn [bind Dynamic.multiply_with].
    destruct (Dynamic.multiply_with result r) as [result'| |];
      cbn [bind]; [|reflexivity|reflexivity].
    rewrite IH. reflexivity.
Qed.

(** The same loop when a term has no root: the exception leaves [root]
    after the earlier roots were multiplied in. *)
Lemma root_loop_throws (exponent : Z) (e : exception)
  (before : list dynamic_unit) (term : dynamic_unit)
  (after roots : list dynamic_unit) :
  Forall2 (fun term r => Dynamic.root term exponent = Ok r) before roots ->
  Dynamic.root term exponent = Throw e ->
  forall result result',
  Dynamic.multiply_with result (dynamic_product roots) = Ok result' ->
  (fix loop (result : list dynamic_unit) (l : list dynamic_unit)
     : outcome (list dynamic_unit) :=
     match l with
     | [] => Ok result
     | term :: l' =>
         r <- Dynamic.root term exponent ;;
         result' <- Dynamic.multiply_with result r ;;
         loop result' l'
     end) result (before ++ term :: after)
  = Throw e.
Proof.
  intros Hroots Hthrow.
  induction Hroots as [|t r before roots Hr _ IH]; intros result result' Hm.
  - cbn [app]. rewrite Hthrow. reflexivity.
  - cbn [app]. rewrite Hr. cbn [bind].
    cbn [Dynamic.multiply_with] in Hm.
    destruct (Dynamic.multiply_with result r) as [result1| |];
      cbn [bind] in Hm |- *; try discriminate.
    apply (IH result1 result'). exact Hm.
Qed.


(** * Cancellation: static *)

Local Abbreviation spow m e := (static_pow (static_named m) e).

Lemma static_simplify_single (x : static_unit) (k : Z) :
  Static.simplify (static_product [static_pow x k]) =
  Static.simplify (static_pow x k).
Proof.
  rewrite static_simplify_product. cbn [map filter].
  destruct (Static.simplify (static_pow x k)) as [[]| |]; reflexivity.
Qed.

Lemma static_simplify_cancelled (x y : static_unit) (k : Z) :
  Static.simplify (static_product [static_pow x k; static_pow y 0]) =
  Static.simplify (static_pow x k).
Proof.
  rewrite static_simplify_product. cbn [map filter].
  change (Static.simplify (static_pow y 0)) with (static_named unitless).
  cbn [Static.kept].
  destruct (Static.simplify (static_pow x k)) as [[]| |]; reflexivity.
Qed.

Lemma static_multiply_with_simplified (L : list static_unit) (x : named)
  (k : Z) :
  k <> 0 ->
  Static.multiply_with L (Static.simplify (spow x k)) =
  Static.multiply_with_pow L (static_named x) k.
Proof.
  intros Hk. cbn [Static.simplify].
  destruct (Z.eqb_spec k 0); [contradiction|].
  destruct (Z.eqb_spec k 1) as [->|]; reflexivity.
Qed.

Lemma static_dropped_simplified (x : named) (k : Z) :
  Static.kept (Static.simplify (spow x k)) = false ->
  Static.simplify (spow x k) = static_named unitless.
Proof.
  cbn [Static.simplify].
  destruct (Z.eqb_spec k 0); [reflexivity|].
  destruct (Z.eqb_spec k 1); [|discriminate].
  destruct x; try discriminate. reflexivity.
Qed.

Lemma static_dropped_zero (x : named) (k : Z) :
  x <> unitless ->
  Static.kept (Static.simplify (spow x k)) = false -> k = 0.
Proof.
  intros Hx. cbn [Static.simplify].
  destruct (Z.eqb_spec k 0); [auto|].
  destruct (Z.eqb_spec k 1); [|discriminate].
  destruct x; try discriminate. contradiction.
Qed.

Lemma static_kept_nonzero (x : named) (k : Z) :
  Static.kept (Static.simplify (spow x k)) = true -> k <> 0.
Proof.
  intros Hk ->. discriminate.
Qed.

Section StaticCancel.

Variables (m b : named) (e f : Z).
Hypothesis He : int_range e.
Hypothesis Hf : int_range f.
Hypothesis Hnf : int_range (- f).
Hypothesis Hef : int_range (e + f).
Hypothesis Hb : b <> unitless.

Lemma b_not_unitless : named_eqb unitless b = false.
Proof.
  destruct (named_eqb unitless b) eqn:E; [|reflexivity].
  apply named_eqb_eq in E. congruence.
Qed.

Lemma exponent_arith :
  int_add e f = e + f /\ int_neg f = - f /\ int_sub (e + f) f = e /\
  int_sub f f = 0 /\ int_neg 0 = 0.
Proof.
  unfold int_add, int_neg, int_sub.
  replace (e + f - f) with e by lia. replace (f - f) with 0 by lia.
  rewrite !wrap32_small by assumption.
  repeat split; reflexivity.
Qed.

Lemma static_divide_after_multiply :
  Static.divide (Static.multiply (spow m e) (spow b f)) (spow b f) =
  Static.simplify (spow m e).
Proof.
  destruct exponent_arith as (Eadd & Eneg & Esub & Eff & Eneg0).
  unfold Static.multiply, Static.divide, Static.canonicalize.
  cbn [Static.multiply_with Static.multiply_with_pow static_unit_eqb].
  destruct (named_eqb m b) eqn:Emb.
  - (* the same class: one merged term *)
    apply named_eqb_eq in Emb. subst m.
    rewrite static_simplify_single, Eadd.
    destruct (Z.eq_dec (e + f) 0) as [E0|E0].
    + rewrite E0. change (Static.simplify (spow b 0)) with (static_named unitless).
      cbn [Static.multiply_with Static.multiply_with_pow Static.divide_by
           Static.divide_by_pow static_unit_eqb].
      rewrite b_not_unitless, Eneg.
      replace (- f) with e by lia.
      rewrite static_simplify_product. cbn [map filter].
      change (Static.simplify (spow unitless 1)) with (static_named unitless).
      cbn [Static.kept].
      destruct (Static.simplify (spow b e)) as [[]| |]; reflexivity.
    + rewrite static_multiply_with_simplified by exact E0.
      cbn [Static.multiply_with_pow Static.divide_by Static.divide_by_pow
           static_unit_eqb].
      rewrite (proj2 (named_eqb_eq b b) eq_refl), Esub.
      apply static_simplify_single.
  - (* two classes: two terms *)
    rewrite (static_simplify_product [spow m e; spow b f]). cbn [map filter].
    destruct (Static.kept (Static.simplify (spow m e))) eqn:Km;
      destruct (Static.kept (Static.simplify (spow b f))) eqn:Kb;
      cbn [Static.simplify_product].
    + (* both terms stay *)
      pose proof (static_kept_nonzero _ _ Km) as He0.
      pose proof (static_kept_nonzero _ _ Kb) as Hf0.
      cbn [Static.multiply_with].
      rewrite (static_multiply_with_simplified [] m e He0).
      cbn [Static.multiply_with_pow].
      rewrite (static_multiply_with_simplified _ b f Hf0).
      cbn [Static.multiply_with_pow Static.divide_by Static.divide_by_pow
           static_unit_eqb].
      rewrite Emb. cbn [Static.divide_by_pow static_unit_eqb].
      rewrite Emb, (proj2 (named_eqb_eq b b) eq_refl), Eff.
      apply static_simplify_cancelled.
    + (* the term of [b] went: [f = 0] *)
      pose proof (static_kept_nonzero _ _ Km) as He0.
      pose proof (static_dropped_zero _ _ Hb Kb) as Hf0. subst f.
      rewrite (static_multiply_with_simplified [] m e He0).
      cbn [Static.multiply_with_pow Static.divide_by Static.divide_by_pow
           static_unit_eqb].
      rewrite Emb. cbn [Static.divide_by_pow]. rewrite Eneg0.
      apply static_simplify_cancelled.
    + (* the term of [m] went *)
      pose proof (static_kept_nonzero _ _ Kb) as Hf0.
      rewrite (static_multiply_with_simplified [] b f Hf0).
      cbn [Static.multiply_with_pow Static.divide_by Static.divide_by_pow
           static_unit_eqb].
      rewrite (proj2 (named_eqb_eq b b) eq_refl), Eff.
      rewrite static_simplify_single.
      now rewrite (static_dropped_simplified _ _ Km).
    + (* both went *)
      pose proof (static_dropped_zero _ _ Hb Kb) as Hf0. subst f.
      cbn [Static.multiply_with Static.multiply_with_pow Static.divide_by
           Static.divide_by_pow static_unit_eqb].
      rewrite b_not_unitless. cbn [Static.divide_by_pow]. rewrite Eneg0.
      rewrite static_simplify_cancelled.
      now rewrite (static_dropped_simplified _ _ Km).
Qed.

End StaticCancel.

(** * Cancellation: dynamic *)

Local Abbreviation dexp m e := (dynamic_exp (dynamic_named m) e).

Lemma unit_eq_named (a b : named) :
  Dynamic.unit_eq (dynamic_named a) (dynamic_named b) = Ok (Dynamic.named_equal a b).
Proof.
  unfold Dynamic.unit_eq, Dynamic.named_equal. cbn.
  destruct (dimension_eqb (named_dimension a) (named_dimension b));
    reflexivity.
Qed.

Lemma named_equal_triple (a b : named) :
  Dynamic.named_equal a b = true <->
  named_dimension a = named_dimension b /\
  named_magnitude a = named_magnitude b /\
  named_origin a = named_origin b.
Proof.
  unfold Dynamic.named_equal.
  rewrite !andb_true_iff, dimension_eqb_eq, rational_eqb_eq, optional_eqb_eq.
  tauto.
Qed.

Lemma named_equal_refl (a : named) : Dynamic.named_equal a a = true.
Proof. apply named_equal_triple. auto. Qed.

Lemma named_equal_sym (a b : named) : Dynamic.named_equal a b = Dynamic.named_equal b a.
Proof.
  destruct (Dynamic.named_equal a b) eqn:E1, (Dynamic.named_equal b a) eqn:E2;
    try reflexivity.
  - apply named_equal_triple in E1. destruct E1 as (? & ? & ?).
    rewrite <- E2. symmetry. apply named_equal_triple. auto.
  - apply named_equal_triple in E2. destruct E2 as (? & ? & ?).
    rewrite <- E1. apply named_equal_triple. auto.
Qed.

Lemma dynamic_simplify_single (x : dynamic_unit) (k : Z) :
  Dynamic.simplify (dynamic_product [dynamic_exp x k]) =
  Dynamic.simplify (dynamic_exp x k).
Proof.
  rewrite dynamic_simplify_product. cbn [map filter]. unfold Dynamic.kept.
  destruct (Dynamic.simplify (dynamic_exp x k)) as [[]| |]; reflexivity.
Qed.

Lemma dynamic_simplify_cancelled (x y : dynamic_unit) (k : Z) :
  Dynamic.simplify (dynamic_product [dynamic_exp x k; dynamic_exp y 0]) =
  Dynamic.simplify (dynamic_exp x k).
Proof.
  rewrite dynamic_simplify_product. cbn [map filter].
  change (Dynamic.simplify (dynamic_exp y 0)) with (dynamic_named unitless).
  unfold Dynamic.kept. cbn [Dynamic.is_unitless negb].
  destruct (Dynamic.simplify (dynamic_exp x k)) as [[]| |]; reflexivity.
Qed.

Lemma dynamic_multiply_with_simplified (L : list dynamic_unit) (x : named)
  (k : Z) :
  k <> 0 ->
  Dynamic.multiply_with L (Dynamic.simplify (dexp x k)) =
  Dynamic.multiply_with_exp L (dynamic_named x) k.
Proof.
  intros Hk. cbn [Dynamic.simplify].
  destruct (Z.eqb_spec k 0); [contradiction|].
  destruct (Z.eqb_spec k 1) as [->|]; reflexivity.
Qed.

Lemma dynamic_dropped_simplified (x : named) (k : Z) :
  Dynamic.kept (Dynamic.simplify (dexp x k)) = false ->
  Dynamic.simplify (dexp x k) = dynamic_named unitless.
Proof.
  cbn [Dynamic.simplify]. unfold Dynamic.kept.
  destruct (Z.eqb_spec k 0); [reflexivity|].
  destruct (Z.eqb_spec k 1); [|discriminate].
  destruct x; try discriminate. reflexivity.
Qed.

Lemma dynamic_dropped_zero (x : named) (k : Z) :
  x <> unitless ->
  Dynamic.kept (Dynamic.simplify (dexp x k)) = false -> k = 0.
Proof.
  intros Hx. cbn [Dynamic.simplify]. unfold Dynamic.kept.
  destruct (Z.eqb_spec k 0); [auto|].
  destruct (Z.eqb_spec k 1); [|discriminate].
  destruct x; try discriminate. contradiction.
Qed.

Lemma dynamic_kept_nonzero (x : named) (k : Z) :
  Dynamic.kept (Dynamic.simplify (dexp x k)) = true -> k <> 0.
Proof.
  intros Hk ->. discriminate.
Qed.

Lemma multiply_with_exp_one (m b : named) (e f : Z) :
  Dynamic.multiply_with_exp [dexp m e] (dynamic_named b) f =
  Ok (if Dynamic.named_equal m b then [dexp b (int_add e f)]
      else [dexp m e; dexp b f]).
Proof.
  cbn [Dynamic.multiply_with_exp]. rewrite unit_eq_named. cbn [bind].
  destruct (Dynamic.named_equal m b); reflexivity.
Qed.

Lemma multiply_with_exp_two (m b : named) (e g f : Z) :
  Dynamic.named_equal m b = false ->
  Dynamic.multiply_with_exp [dexp m e; dexp b g] (dynamic_named b) f =
  Ok [dexp m e; dexp b (int_add g f)].
Proof.
  intros Emb. cbn [Dynamic.multiply_with_exp].
  rewrite !unit_eq_named, Emb, named_equal_refl. reflexivity.
Qed.

Section DynamicCancel.

Variables (m b : named) (e f : Z).
Hypothesis He : int_range e.
Hypothesis Hf : int_range f.
Hypothesis Hnf : int_range (- f).
Hypothesis Hef : int_range (e + f).
Hypothesis Hb : Dynamic.named_equal b unitless = false.

Lemma b_not_unitless_class : b <> unitless.
Proof. intros ->. discriminate. Qed.

Lemma dynamic_exponent_arith :
  int_add e f = e + f /\ int_neg f = - f /\ int_add (e + f) (- f) = e /\
  int_add f (- f) = 0 /\ int_neg 0 = 0.
Proof.
  unfold int_add, int_neg.
  replace (e + f + - f) with e by lia. replace (f + - f) with 0 by lia.
  rewrite !wrap32_small by assumption.
  repeat split; reflexivity.
Qed.

Lemma dynamic_divide_after_multiply :
  exists W R,
    Dynamic.mul (dexp m e) (dexp b f) = Ok W /\
    Dynamic.div W (dexp b f) = Ok R /\
    R = Dynamic.simplify (dexp (if Dynamic.named_equal m b then b else m) e).
Proof.
  destruct dynamic_exponent_arith as (Eadd & Eneg & Esub & Eff & Eneg0).
  pose proof b_not_unitless_class as Hbc.
  assert (Hub : Dynamic.named_equal unitless b = false)
    by (now rewrite named_equal_sym).
  unfold Dynamic.mul, Dynamic.div.
  cbn [Dynamic.multiply_with]. 
  change (Dynamic.multiply_with_exp [] (dynamic_named m) e)
    with (Ok [dexp m e]). cbn [bind].
  rewrite multiply_with_exp_one. cbn [bind].
  destruct (Dynamic.named_equal m b) eqn:Emb.
  - (* equal units: one merged term *)
    rewrite dynamic_simplify_single, Eadd.
    destruct (Z.eq_dec (e + f) 0) as [E0|E0];
      (eexists; eexists; split; [reflexivity|]).
    + rewrite E0.
      change (Dynamic.simplify (dexp b 0)) with (dynamic_named unitless).
      cbn [Dynamic.multiply_with Dynamic.divide_by].
      change (Dynamic.multiply_with_exp [] (dynamic_named unitless) 1)
        with (Ok [dexp unitless 1]). cbn [bind].
      unfold Dynamic.divide_by_exp. rewrite multiply_with_exp_one, Hub, Eneg.
      cbn [bind]. replace (- f) with e by lia.
      split; [reflexivity|].
      rewrite dynamic_simplify_product. cbn [map filter].
      change (Dynamic.simplify (dexp unitless 1)) with (dynamic_named unitless).
      unfold Dynamic.kept. cbn [Dynamic.is_unitless negb].
      destruct (Dynamic.simplify (dexp b e)) as [[]| |]; reflexivity.
    + rewrite dynamic_multiply_with_simplified by exact E0.
      change (Dynamic.multiply_with_exp [] (dynamic_named b) (e + f))
        with (Ok [dexp b (e + f)]). cbn [bind Dynamic.divide_by].
      unfold Dynamic.divide_by_exp.
      rewrite multiply_with_exp_one, named_equal_refl, Eneg, Esub.
      cbn [bind]. split; [reflexivity|]. apply dynamic_simplify_single.
  - (* different units: two terms *)
    rewrite (dynamic_simplify_product [dexp m e; dexp b f]). cbn [map filter].
    destruct (Dynamic.kept (Dynamic.simplify (dexp m e))) eqn:Km;
      destruct (Dynamic.kept (Dynamic.simplify (dexp b f))) eqn:Kb;
      cbn [Dynamic.collapse];
      (eexists; eexists; split; [reflexivity|]).
    + (* both terms stay *)
      pose proof (dynamic_kept_nonzero _ _ Km) as He0.
      pose proof (dynamic_kept_nonzero _ _ Kb) as Hf0.
      cbn [Dynamic.multiply_with].
      rewrite (dynamic_multiply_with_simplified [] m e He0).
      change (Dynamic.multiply_with_exp [] (dynamic_named m) e)
        with (Ok [dexp m e]). cbn [bind].
      rewrite (dynamic_multiply_with_simplified _ b f Hf0).
      rewrite multiply_with_exp_one, Emb. cbn [bind Dynamic.divide_by].
      unfold Dynamic.divide_by_exp.
      rewrite (multiply_with_exp_two m b e f (int_neg f) Emb), Eneg, Eff.
      cbn [bind]. split; [reflexivity|]. apply dynamic_simplify_cancelled.
    + (* the term of [b] went: [f = 0] *)
      pose proof (dynamic_kept_nonzero _ _ Km) as He0.
      pose proof (dynamic_dropped_zero _ _ Hbc Kb) as Hf0. subst f.
      rewrite (dynamic_multiply_with_simplified [] m e He0).
      change (Dynamic.multiply_with_exp [] (dynamic_named m) e)
        with (Ok [dexp m e]). cbn [bind Dynamic.divide_by].
      unfold Dynamic.divide_by_exp.
      rewrite multiply_with_exp_one, Emb, Eneg0. cbn [bind].
      split; [reflexivity|]. apply dynamic_simplify_cancelled.
    + (* the term of [m] went *)
      pose proof (dynamic_kept_nonzero _ _ Kb) as Hf0.
      rewrite (dynamic_multiply_with_simplified [] b f Hf0).
      change (Dynamic.multiply_with_exp [] (dynamic_named b) f)
        with (Ok [dexp b f]). cbn [bind Dynamic.divide_by].
      unfold Dynamic.divide_by_exp.
      rewrite multiply_with_exp_one, named_equal_refl, Eneg, Eff.
      cbn [bind]. split; [reflexivity|].
      rewrite dynamic_simplify_single.
      now rewrite (dynamic_dropped_simplified _ _ Km).
    + (* both went *)
      pose proof (dynamic_dropped_zero _ _ Hbc Kb) as Hf0. subst f.
      cbn [Dynamic.multiply_with].
      change (Dynamic.multiply_with_exp [] (dynamic_named unitless) 1)
        with (Ok [dexp unitless 1]). cbn [bind Dynamic.divide_by].
      unfold Dynamic.divide_by_exp.
      rewrite multiply_with_exp_one, Hub, Eneg0. cbn [bind].
      split; [reflexivity|].
      rewrite dynamic_simplify_cancelled.
      now rewrite (dynamic_dropped_simplified _ _ Km).
Qed.

End DynamicCancel.

Lemma dimension_eqb_refl (d : dimension) : dimension_eqb d d = true.
Proof. now apply dimension_eqb_eq. Qed.

Lemma rational_eqb_refl (r : rational) : rational_eqb r r = true.
Proof. now apply rational_eqb_eq. Qed.

Lemma unit_eq_simplified (x y : named) (e : Z) :
  Dynamic.named_equal x y = true ->
  Dynamic.unit_eq (Dynamic.simplify (dexp x e)) (Dynamic.simplify (dexp y e))
  = Ok true.
Proof.
  intros Exy. cbn [Dynamic.simplify].
  destruct (Z.eqb_spec e 0); [reflexivity|].
  destruct (Z.eqb_spec e 1); [now rewrite unit_eq_named, Exy|].
  apply named_equal_triple in Exy. destruct Exy as (Ed & Em & _).
  unfold Dynamic.unit_eq. cbn. rewrite Ed, Em.
  now rewrite dimension_eqb_refl, rational_eqb_refl.
Qed.

Lemma static_copy_simplified (m : named) (e : Z) :
  static_copy (Static.simplify (spow m e)) =
  Some (Dynamic.simplify (dexp m e)).
Proof.
  cbn [Static.simplify Dynamic.simplify].
  destruct (e =? 0); [reflexivity|]. destruct (e =? 1); reflexivity.
Qed.

Lemma cancellation_of_powers (m b : named) (e f : Z) :
  int_range e -> int_range f -> int_range (- f) -> int_range (e + f) ->
  Dynamic.unit_eq (dynamic_named b) (dynamic_named unitless) = Ok false ->
  Static.divide (Static.multiply (spow m e) (spow b f)) (spow b f) =
    Static.simplify (spow m e) /\
  exists W R r_s,
    Dynamic.mul (dexp m e) (dexp b f) = Ok W /\
    Dynamic.div W (dexp b f) = Ok R /\
    Dynamic.unit_eq R (Dynamic.simplify (dexp m e)) = Ok true /\
    static_copy (Static.divide (Static.multiply (spow m e) (spow b f))
                               (spow b f)) = Some r_s /\
    Dynamic.unit_eq r_s R = Ok true.
Proof.
  intros He Hf Hnf Hef Hb. rewrite unit_eq_named in Hb.
  assert (Hbu : Dynamic.named_equal b unitless = false) by congruence.
  assert (Hbc : b <> unitless) by (intros ->; discriminate).
  pose proof (static_divide_after_multiply m b e f He Hf Hnf Hef Hbc) as Es.
  split; [exact Es|].
  destruct (dynamic_divide_after_multiply m b e f He Hf Hnf Hef Hbu)
    as (W & R & EW & ER & HR).
  exists W, R, (Dynamic.simplify (dexp m e)).
  rewrite Es, static_copy_simplified, HR.
  repeat split; try assumption.
  - now rewrite <- HR.
  - apply unit_eq_simplified.
    destruct (Dynamic.named_equal m b) eqn:Emb;
      [now rewrite named_equal_sym|apply named_equal_refl].
  - apply unit_eq_simplified.
    destruct (Dynamic.named_equal m b) eqn:Emb; [exact Emb|apply named_equal_refl].
Qed.




Lemma rational_div_ok (a b : rational) :
  rational_reduced a -> rational_reduced b -> rational_in_range b ->
  numerator b <> 0 ->
  Z.abs (numerator a * denominator b) <= int64_max ->
  denominator a * Z.abs (numerator b) <= int64_max ->
  rational_reduced (rational_div a b).
Proof.
  intros [_ Ha] [_ Hb] Hr Hnz Hn Hd.
  destruct (inverse_ok b Hr Hnz) as [[_ Hid] [Bn Bd]].
  unfold rational_div.
  assert (Hnum : Z.abs (numerator a * numerator (inverse b)) <= int64_max).
  { etransitivity; [|exact Hn]. rewrite !Z.abs_mul.
    apply Z.mul_le_mono_nonneg_l; lia. }
  assert (Hden : 0 < denominator a * denominator (inverse b) <= int64_max).
  { split; [nia|]. etransitivity; [|exact Hd].
    apply Z.mul_le_mono_nonneg_l; lia. }
  apply rational_mul_ok; unfold int64_min, int64_max in *; lia.
Qed.

(** C8, as it holds on [std::int64_t].  The constructor establishes
    [gcd(|num|, den) = 1] and [den > 0] for every nonzero denominator when
    neither argument is [INT64_MIN]; [inverse] of a nonzero rational,
    multiplication and division by a nonzero rational keep it when the
    products of numerators and denominators they form fit in 64 bits; [pow]
    keeps it when the largest of [|num|] and [den], raised to [|e|], fits,
    and the base is not zero for a negative exponent. *)
Theorem rational_invariant_without_overflow :
  (forall n d,
     int64_min < n <= int64_max -> int64_min < d <= int64_max -> d <> 0 ->
     rational_reduced (rational_from n d)) /\
  (forall a,
     rational_reduced a -> rational_in_range a -> numerator a <> 0 ->
     rational_reduced (inverse a)) /\
  (forall a b,
     rational_reduced a -> rational_reduced b ->
     Z.abs (numerator a * numerator b) <= int64_max ->
     denominator a * denominator b <= int64_max ->
     rational_reduced (rational_mul a b)) /\
  (forall a b,
     rational_reduced a -> rational_reduced b -> rational_in_range b ->
     numerator b <> 0 ->
     Z.abs (numerator a * denominator b) <= int64_max ->
     denominator a * Z.abs (numerator b) <= int64_max ->
     rational_reduced (rational_div a b)) /\
  (forall b e,
     rational_reduced b -> rational_in_range b -> int_range e ->
     (0 <= e \/ numerator b <> 0) ->
     Z.max (Z.abs (numerator b)) (denominator b) ^ Z.abs e <= int64_max ->
     rational_reduced (rational_pow b e)).
Proof.
  split; [|split; [|split; [|split]]].
  - intros n d Hn Hd Hd0. now apply rational_from_ok.
  - intros a _ Hr Hnz. now apply inverse_ok.
  - intros a b [_ Ha] [_ Hb] Hn Hd.
    apply rational_mul_ok; unfold int64_min, int64_max in *; nia.
  - exact rational_div_ok.
  - exact rational_pow_ok.
Qed.

Lemma rational_invariant_witness :
  rational_reduced (rational_from 254 (-10000)) /\
  rational_reduced (inverse (rational_from 254 (-10000))) /\
  rational_reduced (rational_mul (rational_from 1 1000) (rational_from 254 10000)) /\
  rational_reduced (rational_div (rational_from 1 1000) (rational_from 254 10000)) /\
  rational_reduced (rational_pow (rational_from 254 10000) (-3)).
Proof.
  destruct rational_invariant_without_overflow as (Hc & Hi & Hm & Hd & Hp).
  assert (R1 : rational_reduced (rational_from 254 (-10000)))
    by (apply Hc; unfold int64_min, int64_max; lia).
  assert (R2 : rational_reduced (rational_from 254 10000))
    by (apply Hc; unfold int64_min, int64_max; lia).
  assert (R3 : rational_reduced (rational_from 1 1000))
    by (apply Hc; unfold int64_min, int64_max; lia).
  split; [exact R1|]. split; [|split; [|split]].
  - apply Hi; [exact R1| |]; vm_compute; intuition discriminate.
  - apply Hm; [exact R3|exact R2| |]; vm_compute; discriminate.
  - apply Hd; [exact R3|exact R2| | | |]; vm_compute; intuition discriminate.
  - apply Hp; [exact R2| | | |]; vm_compute; intuition discriminate.
Defined.

(** C8 as stated fails on [std::int64_t]: the absolute value of
    [INT64_MIN] is not representable, so the constructor leaves a negative
    denominator; the product of two denominators can wrap to zero; and
    [pow] of zero to a negative exponent divides by zero. *)
Lemma rational_invariant_counterexample :
  int64_range 1 /\ int64_range int64_min /\ int64_min <> 0 /\
  rational_from 1 int64_min = mk_rational (-1) int64_min /\
  ~ rational_reduced (rational_from 1 int64_min) /\
  rational_reduced (rational_from 1 (2 ^ 32)) /\
  rational_mul (rational_from 1 (2 ^ 32)) (rational_from 1 (2 ^ 32)) =
    mk_rational 1 0 /\
  ~ rational_reduced
      (rational_mul (rational_from 1 (2 ^ 32)) (rational_from 1 (2 ^ 32))) /\
  rational_reduced (rational_from 0 1) /\
  rational_pow (rational_from 0 1) (-1) = mk_rational 1 0 /\
  ~ rational_reduced (rational_pow (rational_from 0 1) (-1)).
Proof.
  repeat split; try (vm_compute; intuition discriminate);
    intros [_ H]; vm_compute in H; discriminate.
Qed.


(** * More on [kul::gcd] and [rational] *)



Lemma rational_eta (r : rational) :
  r = mk_rational (numerator r) (denominator r).
Proof. now destruct r. Qed.

(** A pair already in lowest terms is stored as it is. *)
Lemma rational_from_reduced (n d : Z) :
  int64_min < n <= int64_max -> d <= int64_max ->
  Z.gcd (Z.abs n) d = 1 -> d > 0 ->
  rational_from n d = mk_rational n d.
Proof.
  intros Hn Hd Hg Hpos.
  assert (Hd' : int64_min < d <= int64_max)
    by (unfold int64_min in *; lia).
  destruct (rational_from_fields n d Hn Hd' ltac:(lia)) as [En Ed].
  rewrite Z.gcd_abs_l in Hg. rewrite Hg, Z.div_1_r in En, Ed.
  rewrite (rational_eta (rational_from n d)), En, Ed. f_equal.
  - pose proof (Z.sgn_spec n). pose proof (Z.sgn_spec d). nia.
  - lia.
Qed.

(** Two rationals in lowest terms with the same value are the same. *)
Lemma reduced_unique (a b : rational) :
  rational_reduced a -> rational_reduced b ->
  numerator a * denominator b = numerator b * denominator a ->
  a = b.
Proof.
  intros [Ga Pa] [Gb Pb] E.
  rewrite (rational_eta a), (rational_eta b).
  set (na := numerator a) in *. set (da := denominator a) in *.
  set (nb := numerator b) in *. set (db := denominator b) in *.
  rewrite Z.gcd_abs_l in Ga, Gb.
  assert (Dab : (da | db)).
  { apply Z.gauss with na.
    - exists nb. exact E.
    - now rewrite Z.gcd_comm. }
  assert (Dba : (db | da)).
  { apply Z.gauss with nb.
    - exists na. symmetry. exact E.
    - now rewrite Z.gcd_comm. }
  assert (Ed : da = db).
  { apply Z.divide_antisym_nonneg; try assumption; lia. }
  f_equal; [|exact Ed]. rewrite Ed in E. nia.
Qed.

Lemma rational_from_value (n d : Z) :
  int64_min < n <= int64_max -> int64_min < d <= int64_max -> d <> 0 ->
  numerator (rational_from n d) * d = n * denominator (rational_from n d).
Proof.
  intros Hn Hd Hd0. now destruct (rational_from_ok n d Hn Hd Hd0) as (_ & _ & _ & E).
Qed.

(** X2: the [rational] constructor builds the canonical representative of
    [n / d].  For arguments other than [INT64_MIN] and a non-zero
    denominator the stored fraction has the value [n / d], and two
    constructed rationals compare equal under [operator==] exactly when
    the fractions they were built from are equal by cross-multiplication. *)
Theorem rational_construction_is_canonical (n d n' d' : Z) :
  int64_min < n <= int64_max -> int64_min < d <= int64_max -> d <> 0 ->
  int64_min < n' <= int64_max -> int64_min < d' <= int64_max -> d' <> 0 ->
  numerator (rational_from n d) * d = n * denominator (rational_from n d) /\
  (rational_eqb (rational_from n d) (rational_from n' d') = true <->
   n * d' = n' * d).
Proof.
  intros Hn Hd Hd0 Hn' Hd' Hd0'.
  destruct (rational_from_ok n d Hn Hd Hd0) as (R & _ & _ & E).
  destruct (rational_from_ok n' d' Hn' Hd' Hd0') as (R' & _ & _ & E').
  split; [exact E|].
  rewrite rational_eqb_eq.
  set (r := rational_from n d) in *. set (r' := rational_from n' d') in *.
  destruct R as [_ P]. pose proof R' as [_ P'].
  split.
  - intros Er. rewrite <- Er in E'.
    assert (H : (n * d') * denominator r = (n' * d) * denominator r) by nia.
    apply Z.mul_cancel_r in H; lia.
  - intros Ev. apply reduced_unique.
    + now destruct (rational_from_ok n d Hn Hd Hd0).
    + exact R'.
    + assert (H : (numerator r * denominator r') * (d * d') =
                  (numerator r' * denominator r) * (d * d')).
      { transitivity ((numerator r * d) * (denominator r' * d')); [ring|].
        transitivity ((numerator r' * d') * (denominator r * d)); [|ring].
        rewrite E, E'.
        transitivity ((n * d') * (denominator r * denominator r')); [ring|].
        rewrite Ev. ring. }
      apply Z.mul_cancel_r in H; [exact H|nia].
Qed.

Lemma rational_construction_is_canonical_witness :
  numerator (rational_from 2 (-4)) * (-4) = 2 * denominator (rational_from 2 (-4)) /\
  (rational_eqb (rational_from 2 (-4)) (rational_from (-1) 2) = true <->
   2 * 2 = -1 * -4).
Proof.
  apply rational_construction_is_canonical;
    unfold int64_min, int64_max; lia.
Defined.

Lemma rational_from_own_fields (r : rational) :
  rational_reduced r -> rational_in_range r ->
  rational_from (numerator r) (denominator r) = r.
Proof.
  intros [G P] [Hn Hd]. rewrite (rational_eta r) at 3.
  apply rational_from_reduced; try assumption; lia.
Qed.

(** X3: a rational in lowest terms with a positive denominator is a fixed
    point of the constructor: building a [rational] from its own
    [numerator()] and [denominator()] returns it unchanged, so the copy
    compares equal to it under [operator==]. *)
Theorem rational_rebuilt_from_its_fields (r : rational) :
  rational_reduced r -> rational_in_range r ->
  rational_from (numerator r) (denominator r) = r /\
  rational_eqb (rational_from (numerator r) (denominator r)) r = true.
Proof.
  intros R Hr. rewrite (rational_from_own_fields r R Hr).
  split; [reflexivity|now apply rational_eqb_eq].
Qed.

Lemma rational_rebuilt_from_its_fields_witness :
  rational_from (numerator (rational_from 254 10000))
                (denominator (rational_from 254 10000)) =
  rational_from 254 10000.
Proof.
  apply (rational_rebuilt_from_its_fields (rational_from 254 10000));
    vm_compute; intuition discriminate.
Defined.

(** [inverse] in terms of the fields. *)
Lemma inverse_fields (a : rational) :
  rational_reduced a -> rational_in_range a -> numerator a <> 0 ->
  inverse a =
    mk_rational (Z.sgn (numerator a) * denominator a) (Z.abs (numerator a)).
Proof.
  intros [G P] [Hn Hd] Hnz. unfold inverse.
  destruct (rational_from_fields (denominator a) (numerator a) Hd Hn Hnz)
    as [En Ed].
  rewrite Z.gcd_abs_l, Z.gcd_comm in G. rewrite G, !Z.div_1_r in En, Ed.
  rewrite (rational_eta (rational_from _ _)), En, Ed. f_equal.
  pose proof (Z.sgn_spec (denominator a)). nia.
Qed.

(** X4: [inverse] of a non-zero rational in lowest terms swaps the two
    fields and moves the sign to the numerator, and inverting twice gives
    the rational back. *)
Theorem inverse_is_an_involution (a : rational) :
  rational_reduced a -> rational_in_range a -> numerator a <> 0 ->
  inverse a =
    mk_rational (Z.sgn (numerator a) * denominator a) (Z.abs (numerator a)) /\
  inverse (inverse a) = a.
Proof.
  intros R Hr Hnz. pose proof (inverse_fields a R Hr Hnz) as Ei.
  split; [exact Ei|].
  destruct (inverse_ok a Hr Hnz) as [Ri [Bn Bd]].
  destruct R as [G P]. destruct Hr as [Hn Hd].
  assert (Hri : rational_in_range (inverse a)).
  { rewrite Ei. unfold rational_in_range, numerator, denominator,
      int64_min, int64_max in *. cbn.
    pose proof (Z.sgn_spec (m_numerator a)). nia. }
  assert (Hnzi : numerator (inverse a) <> 0).
  { rewrite Ei. unfold numerator, denominator in *. cbn.
    pose proof (Z.sgn_spec (m_numerator a)). nia. }
  rewrite (inverse_fields (inverse a) Ri Hri Hnzi), Ei.
  clear Ei Ri Bn Bd Hri Hnzi.
  destruct a as [n d]. unfold numerator, denominator in *. cbn in *.
  destruct (Z.lt_trichotomy n 0) as [Hneg|[H0|Hpos]]; [|contradiction|].
  - rewrite (Z.sgn_neg n) by lia.
    rewrite (Z.sgn_neg (-1 * d)) by lia. f_equal; lia.
  - rewrite (Z.sgn_pos n) by lia.
    rewrite (Z.sgn_pos (1 * d)) by lia. f_equal; lia.
Qed.

Lemma inverse_is_an_involution_witness :
  inverse (rational_from (-254) 10000) = mk_rational (-5000) 127 /\
  inverse (inverse (rational_from (-254) 10000)) = rational_from (-254) 10000.
Proof.
  assert (R : rational_reduced (rational_from (-254) 10000))
    by (vm_compute; intuition discriminate).
  assert (Hr : rational_in_range (rational_from (-254) 10000))
    by (vm_compute; intuition discriminate).
  assert (Hnz : numerator (rational_from (-254) 10000) <> 0)
    by (vm_compute; discriminate).
  destruct (inverse_is_an_involution _ R Hr Hnz) as [E1 E2].
  split; [rewrite E1; reflexivity|exact E2].
Defined.

Lemma rational_mul_comm (a b : rational) : rational_mul a b = rational_mul b a.
Proof.
  unfold rational_mul, mul64.
  now rewrite (Z.mul_comm (numerator a)), (Z.mul_comm (denominator a)).
Qed.

Lemma rational_mul_1_l (a : rational) :
  rational_reduced a -> rational_in_range a ->
  rational_mul (rational_of_int 1) a = a.
Proof.
  intros R Hr. unfold rational_mul. rewrite rational_of_int_1.
  unfold numerator at 1, denominator at 1. cbn [m_numerator m_denominator].
  unfold mul64. rewrite !Z.mul_1_l.
  destruct Hr as [Hn Hd].
  rewrite !wrap64_small by (unfold int64_range; lia).
  now apply rational_from_own_fields.
Qed.

Lemma rational_mul_value (a b : rational) :
  rational_reduced a -> rational_reduced b ->
  Z.abs (numerator a * numerator b) <= int64_max ->
  denominator a * denominator b <= int64_max ->
  numerator (rational_mul a b) * (denominator a * denominator b) =
  (numerator a * numerator b) * denominator (rational_mul a b).
Proof.
  intros [_ Pa] [_ Pb] Hn Hd. unfold rational_mul.
  rewrite !mul64_small by (unfold int64_min, int64_max in *; nia).
  apply rational_from_value; unfold int64_min, int64_max in *; nia.
Qed.

(** X5: [operator*] on rationals is commutative; [rational(1)] is a left
    and right identity on rationals in lowest terms; and when the products
    of the numerators and of the denominators fit in 64 bits the result has
    the value of the product of the two fractions. *)
Theorem rational_multiplication_laws (a b : rational) :
  rational_mul a b = rational_mul b a /\
  (rational_reduced a -> rational_in_range a ->
   rational_mul (rational_of_int 1) a = a /\
   rational_mul a (rational_of_int 1) = a) /\
  (rational_reduced a -> rational_reduced b ->
   Z.abs (numerator a * numerator b) <= int64_max ->
   denominator a * denominator b <= int64_max ->
   numerator (rational_mul a b) * (denominator a * denominator b) =
   (numerator a * numerator b) * denominator (rational_mul a b)).
Proof.
  split; [apply rational_mul_comm|]. split.
  - intros R Hr. split; [now apply rational_mul_1_l|].
    rewrite rational_mul_comm. now apply rational_mul_1_l.
  - apply rational_mul_value.
Qed.

Lemma rational_multiplication_laws_witness :
  rational_mul (rational_of_int 1) (rational_from 1 1000) = rational_from 1 1000 /\
  numerator (rational_mul (rational_from 1 1000) (rational_from 254 10000)) *
    (1000 * 5000) = (1 * 127) *
  denominator (rational_mul (rational_from 1 1000) (rational_from 254 10000)).
Proof.
  destruct (rational_multiplication_laws (rational_from 1 1000)
              (rational_from 254 10000)) as (_ & H1 & Hv).
  split.
  - apply H1; vm_compute; intuition discriminate.
  - apply Hv; vm_compute; intuition discriminate.
Defined.

(** X6: a non-zero rational in lowest terms divided by itself is
    [rational(1)], provided the product of its numerator and denominator
    fits in 64 bits. *)
Theorem rational_divided_by_itself (a : rational) :
  rational_reduced a -> rational_in_range a -> numerator a <> 0 ->
  Z.abs (numerator a) * denominator a <= int64_max ->
  rational_div a a = rational_of_int 1.
Proof.
  intros R Hr Hnz Hfit.
  unfold rational_div. rewrite (inverse_fields a R Hr Hnz).
  destruct R as [G P]. destruct Hr as [Hn Hd].
  destruct a as [n d]. unfold rational_mul, numerator, denominator in *.
  cbn [m_numerator m_denominator] in *.
  assert (En : n * (Z.sgn n * d) = Z.abs n * d)
    by (pose proof (Z.sgn_spec n); nia).
  rewrite !mul64_small by (unfold int64_min, int64_max in *; nia).
  rewrite En, (Z.mul_comm d (Z.abs n)).
  rewrite rational_of_int_1.
  assert (Hpos : 0 < Z.abs n * d) by nia.
  assert (Hrange : int64_min < Z.abs n * d <= int64_max)
    by (unfold int64_min, int64_max in *; lia).
  apply reduced_unique.
  - now apply rational_from_ok; try lia.
  - split; reflexivity.
  - cbn [numerator denominator m_numerator m_denominator].
    assert (E := rational_from_value (Z.abs n * d) (Z.abs n * d)
                   Hrange Hrange ltac:(lia)).
    unfold numerator, denominator in *.
    rewrite (Z.mul_comm (Z.abs n * d)) in E.
    apply Z.mul_cancel_r in E; lia.
Qed.

Lemma rational_divided_by_itself_witness :
  rational_div (rational_from (-254) 10000) (rational_from (-254) 10000) =
  rational_of_int 1.
Proof.
  apply rational_divided_by_itself; vm_compute; intuition discriminate.
Defined.

(** * Powers *)

Lemma gcd_pow_1 (n d k : Z) :
  0 <= k -> Z.gcd (Z.abs n) d = 1 -> Z.gcd (Z.abs (n ^ k)) (d ^ k) = 1.
Proof.
  intros Hk G. rewrite Z.abs_pow.
  apply Z.coprime_pow_l; [exact Hk|].
  apply Z.coprime_pow_r; [exact Hk|exact G].
Qed.

Lemma pow_loop_exact (c : rational) (M : Z) :
  rational_reduced c -> rational_in_range c ->
  M = Z.max (Z.abs (numerator c)) (denominator c) ->
  forall (k : nat) (i : Z),
    0 <= i -> M ^ (i + Z.of_nat k) <= int64_max ->
    repeat_loop k (fun r => rational_mul r c)
      (mk_rational (numerator c ^ i) (denominator c ^ i)) =
    mk_rational (numerator c ^ (i + Z.of_nat k))
                (denominator c ^ (i + Z.of_nat k)).
Proof.
  intros [G P] [Hn Hd] EM. induction k as [|k IH]; intros i Hi Hfit.
  - cbn [repeat_loop]. now rewrite Z.add_0_r.
  - cbn [repeat_loop].
    set (n := numerator c) in *. set (d := denominator c) in *.
    assert (HM : 1 <= M) by lia.
    assert (Hle : M ^ (i + 1) <= int64_max).
    { etransitivity; [|exact Hfit]. apply Z.pow_le_mono_r; lia. }
    assert (Hn1 : Z.abs (n ^ (i + 1)) <= M ^ (i + 1)).
    { rewrite Z.abs_pow. apply Z.pow_le_mono_l. lia. }
    assert (Hd1 : 0 < d ^ (i + 1) <= M ^ (i + 1)).
    { split; [apply Z.pow_pos_nonneg; lia|apply Z.pow_le_mono_l; lia]. }
    assert (Estep : rational_mul (mk_rational (n ^ i) (d ^ i)) c =
                    mk_rational (n ^ (i + 1)) (d ^ (i + 1))).
    { unfold rational_mul.
      cbn [numerator denominator m_numerator m_denominator].
      fold n d.
      assert (En1 : n ^ i * n = n ^ (i + 1))
        by (rewrite Z.pow_add_r, Z.pow_1_r by lia; reflexivity).
      assert (Ed1 : d ^ i * d = d ^ (i + 1))
        by (rewrite Z.pow_add_r, Z.pow_1_r by lia; reflexivity).
      rewrite !mul64_small
        by (rewrite ?En1, ?Ed1; unfold int64_min, int64_max in *; lia).
      rewrite En1, Ed1.
      apply rational_from_reduced;
        try (unfold int64_min, int64_max in *; lia).
      apply gcd_pow_1; [lia|exact G]. }
    rewrite Estep, (IH (i + 1)) by (try lia;
      replace (i + 1 + Z.of_nat k) with (i + Z.of_nat (S k)) by lia;
      exact Hfit).
    f_equal; f_equal; lia.
Qed.

(** X7: for a rational in lowest terms and an exponent [e >= 0],
    [pow(b, e)] is the fraction of the [e]-th powers of numerator and
    denominator, provided these powers fit in 64 bits. *)
Theorem rational_pow_of_natural_exponent (b : rational) (e : Z) :
  rational_reduced b -> rational_in_range b -> 0 <= e <= int_max ->
  Z.max (Z.abs (numerator b)) (denominator b) ^ e <= int64_max ->
  rational_pow b e = mk_rational (numerator b ^ e) (denominator b ^ e).
Proof.
  intros R Hr He Hfit. unfold rational_pow.
  assert (E : int_neg e = - e).
  { unfold int_neg. apply wrap32_small.
    unfold int_range, int_min, int_max in *. lia. }
  replace (Z.to_nat (int_neg e)) with 0%nat by (rewrite E; lia).
  cbn [repeat_loop]. rewrite rational_of_int_1.
  pose proof (pow_loop_exact b _ R Hr eq_refl (Z.to_nat e) 0 ltac:(lia)) as H.
  rewrite !Z.pow_0_r, Z.add_0_l, Z2Nat.id in H by lia.
  now apply H.
Qed.

Lemma rational_pow_of_natural_exponent_witness :
  rational_pow (rational_from (-254) 10000) 3 =
  mk_rational ((-127) ^ 3) (5000 ^ 3).
Proof.
  apply (rational_pow_of_natural_exponent (rational_from (-254) 10000) 3);
    vm_compute; intuition discriminate.
Defined.

(** X8: for a negative exponent other than [INT_MIN], [pow(b, e)] is
    [pow(inverse(b), -e)]. *)
Theorem rational_pow_of_negative_exponent (b : rational) (e : Z) :
  int_min < e < 0 ->
  rational_pow b e = rational_pow (inverse b) (- e).
Proof.
  intros He. unfold rational_pow.
  assert (E : int_neg e = - e).
  { unfold int_neg. apply wrap32_small.
    unfold int_range, int_min, int_max in *. lia. }
  assert (E' : int_neg (- e) = e).
  { unfold int_neg. rewrite Z.opp_involutive. apply wrap32_small.
    unfold int_range, int_min, int_max in *. lia. }
  rewrite E, E'.
  replace (Z.to_nat e) with 0%nat by lia. cbn [repeat_loop].
  reflexivity.
Qed.

Lemma rational_pow_of_negative_exponent_witness :
  rational_pow (rational_from 254 10000) (-2) =
  rational_pow (inverse (rational_from 254 10000)) (- (-2)).
Proof.
  apply rational_pow_of_negative_exponent. unfold int_min. lia.
Defined.

(** * Arithmetic of [int] *)

Lemma wrap32_mod (z : Z) : wrap 32 z mod 2 ^ 32 = z mod 2 ^ 32.
Proof.
  unfold wrap. change (32 - 1) with 31.
  rewrite Zminus_mod, Z.mod_mod by lia.
  rewrite <- Zminus_mod. f_equal. lia.
Qed.

Lemma wrap32_congr (x y : Z) :
  x mod 2 ^ 32 = y mod 2 ^ 32 -> wrap 32 x = wrap 32 y.
Proof.
  intros E. unfold wrap. change (32 - 1) with 31.
  rewrite (Zplus_mod x), (Zplus_mod y), E. reflexivity.
Qed.

Lemma wrap32_add_l (x y : Z) : wrap 32 (wrap 32 x + y) = wrap 32 (x + y).
Proof.
  apply wrap32_congr. now rewrite Zplus_mod, wrap32_mod, <- Zplus_mod.
Qed.

Lemma wrap32_add_r (x y : Z) : wrap 32 (x + wrap 32 y) = wrap 32 (x + y).
Proof. now rewrite Z.add_comm, wrap32_add_l, Z.add_comm. Qed.

Lemma wrap32_sub_r (x y : Z) : wrap 32 (x - wrap 32 y) = wrap 32 (x - y).
Proof.
  apply wrap32_congr. now rewrite Zminus_mod, wrap32_mod, <- Zminus_mod.
Qed.

Lemma wrap32_sub_l (x y : Z) : wrap 32 (wrap 32 x - y) = wrap 32 (x - y).
Proof.
  apply wrap32_congr. now rewrite Zminus_mod, wrap32_mod, <- Zminus_mod.
Qed.

Lemma wrap32_mul_r (x y : Z) : wrap 32 (x * wrap 32 y) = wrap 32 (x * y).
Proof.
  apply wrap32_congr. now rewrite Zmult_mod, wrap32_mod, <- Zmult_mod.
Qed.

Lemma wrap32_mul_l (x y : Z) : wrap 32 (wrap 32 x * y) = wrap 32 (x * y).
Proof. now rewrite Z.mul_comm, wrap32_mul_r, Z.mul_comm. Qed.

Lemma int_add_comm (a b : Z) : int_add a b = int_add b a.
Proof. unfold int_add. now rewrite Z.add_comm. Qed.

Lemma int_add_assoc (a b c : Z) :
  int_add a (int_add b c) = int_add (int_add a b) c.
Proof.
  unfold int_add. rewrite wrap32_add_r, wrap32_add_l. f_equal. lia.
Qed.

Lemma int_add_0_r (a : Z) : int_range a -> int_add a 0 = a.
Proof. intros Ha. unfold int_add. rewrite Z.add_0_r. now apply wrap32_small. Qed.

Lemma int_add_0_l (a : Z) : int_range a -> int_add 0 a = a.
Proof. intros Ha. rewrite int_add_comm. now apply int_add_0_r. Qed.

Lemma int_mul_0_r (a : Z) : int_mul a 0 = 0.
Proof. unfold int_mul. now rewrite Z.mul_0_r. Qed.

Lemma int_mul_1_r (a : Z) : int_range a -> int_mul a 1 = a.
Proof. intros Ha. unfold int_mul. rewrite Z.mul_1_r. now apply wrap32_small. Qed.

Lemma int_mul_add_distr (d a b : Z) :
  int_mul d (int_add a b) = int_add (int_mul d a) (int_mul d b).
Proof.
  unfold int_mul, int_add.
  rewrite wrap32_mul_r, wrap32_add_l, wrap32_add_r. f_equal. lia.
Qed.

Lemma int_sub_as_add (a b : Z) : int_sub a b = int_add a (int_mul b (-1)).
Proof.
  unfold int_sub, int_add, int_mul. rewrite wrap32_add_r. f_equal. lia.
Qed.

Lemma int_mul_neg (d e : Z) : int_mul d (int_neg e) = int_mul (int_mul d e) (-1).
Proof.
  unfold int_mul, int_neg. rewrite wrap32_mul_r, wrap32_mul_l. f_equal. lia.
Qed.

Lemma int_add_inverse (a : Z) : int_add a (int_mul a (-1)) = 0.
Proof.
  unfold int_add, int_mul. rewrite wrap32_add_r.
  replace (a + a * -1) with 0 by lia. reflexivity.
Qed.

Lemma int_mul_add_l (a b e : Z) :
  int_mul (int_add a b) e = int_add (int_mul a e) (int_mul b e).
Proof.
  unfold int_mul, int_add.
  rewrite wrap32_mul_l, wrap32_add_l, wrap32_add_r. f_equal. lia.
Qed.

Lemma int_mul_mul (d a b : Z) :
  int_mul (int_mul d a) b = int_mul d (int_mul a b).
Proof.
  unfold int_mul. rewrite wrap32_mul_l, wrap32_mul_r. f_equal. lia.
Qed.

(** * Laws of [dimension] *)

Ltac dimension_law lemma :=
  unfold dimension_mul, dimension_div, dimension_pow, dimensionless;
  cbn [time_exponent length_exponent mass_exponent electric_current_exponent
       temperature_exponent amount_of_substance_exponent
       luminous_intensity_exponent];
  f_equal; apply lemma.

Lemma dimension_mul_comm (a b : dimension) :
  dimension_mul a b = dimension_mul b a.
Proof. dimension_law int_add_comm. Qed.

Lemma dimension_mul_assoc (a b c : dimension) :
  dimension_mul a (dimension_mul b c) = dimension_mul (dimension_mul a b) c.
Proof. dimension_law int_add_assoc. Qed.

Lemma dimension_mul_1_r (d : dimension) :
  dimension_in_range d -> dimension_mul d dimensionless = d.
Proof.
  intros (H1 & H2 & H3 & H4 & H5 & H6 & H7). destruct d.
  unfold dimension_mul, dimensionless. cbn in *.
  now rewrite !int_add_0_r.
Qed.

Lemma dimension_mul_1_l (d : dimension) :
  dimension_in_range d -> dimension_mul dimensionless d = d.
Proof. intros Hd. rewrite dimension_mul_comm. now apply dimension_mul_1_r. Qed.

Lemma dimension_pow_0 (d : dimension) : dimension_pow d 0 = dimensionless.
Proof. dimension_law int_mul_0_r. Qed.

Lemma dimension_pow_1 (d : dimension) :
  dimension_in_range d -> dimension_pow d 1 = d.
Proof.
  intros (H1 & H2 & H3 & H4 & H5 & H6 & H7). destruct d.
  unfold dimension_pow. cbn in *. now rewrite !int_mul_1_r.
Qed.

Lemma dimension_pow_add (d : dimension) (a b : Z) :
  dimension_pow d (int_add a b) =
  dimension_mul (dimension_pow d a) (dimension_pow d b).
Proof. dimension_law int_mul_add_distr. Qed.

Lemma dimension_div_as_mul (a b : dimension) :
  dimension_div a b = dimension_mul a (dimension_pow b (-1)).
Proof. dimension_law int_sub_as_add. Qed.

Lemma dimension_pow_neg (d : dimension) (e : Z) :
  dimension_pow d (int_neg e) = dimension_pow (dimension_pow d e) (-1).
Proof. dimension_law int_mul_neg. Qed.

Lemma dimension_mul_inverse (d : dimension) :
  dimension_mul d (dimension_pow d (-1)) = dimensionless.
Proof. dimension_law int_add_inverse. Qed.

Lemma dimension_pow_mul (a b : dimension) (e : Z) :
  dimension_pow (dimension_mul a b) e =
  dimension_mul (dimension_pow a e) (dimension_pow b e).
Proof. dimension_law int_mul_add_l. Qed.

Lemma dimension_pow_pow (d : dimension) (a b : Z) :
  dimension_pow (dimension_pow d a) b = dimension_pow d (int_mul a b).
Proof. dimension_law int_mul_mul. Qed.

Lemma dimension_mul_in_range (a b : dimension) :
  dimension_in_range (dimension_mul a b).
Proof. repeat split; apply wrap32_range. Qed.

Lemma dimension_pow_in_range (d : dimension) (e : Z) :
  dimension_in_range (dimension_pow d e).
Proof. repeat split; apply wrap32_range. Qed.

Lemma dimensionless_in_range : dimension_in_range dimensionless.
Proof. repeat split; unfold int_min, int_max; cbn; lia. Qed.

(** X9: [dimension] under [operator*] is an abelian group on the model of
    [int] used here: the product is commutative and associative,
    [pow(a, -1)] is the inverse of [a], [a / a] is [dimensionless], [a / b]
    is [a * pow(b, -1)], and for a dimension whose exponents are [int]
    values [dimensionless] is the identity and dividing a product by one
    factor gives the other. *)
Theorem dimension_is_an_abelian_group (a b c : dimension) :
  dimension_mul a b = dimension_mul b a /\
  dimension_mul a (dimension_mul b c) = dimension_mul (dimension_mul a b) c /\
  dimension_mul a (dimension_pow a (-1)) = dimensionless /\
  dimension_div a a = dimensionless /\
  dimension_div a b = dimension_mul a (dimension_pow b (-1)) /\
  (dimension_in_range a ->
   dimension_mul a dimensionless = a /\ dimension_mul dimensionless a = a /\
   dimension_div (dimension_mul a b) b = a).
Proof.
  split; [apply dimension_mul_comm|].
  split; [apply dimension_mul_assoc|].
  split; [apply dimension_mul_inverse|].
  split; [rewrite dimension_div_as_mul; apply dimension_mul_inverse|].
  split; [apply dimension_div_as_mul|].
  intros Ha.
  split; [now apply dimension_mul_1_r|].
  split; [now apply dimension_mul_1_l|].
  rewrite dimension_div_as_mul, <- dimension_mul_assoc, dimension_mul_inverse.
  now apply dimension_mul_1_r.
Qed.

Lemma dimension_is_an_abelian_group_witness :
  dimension_mul dimension_length dimensionless = dimension_length /\
  dimension_div (dimension_mul dimension_length dimension_time) dimension_time
    = dimension_length.
Proof.
  destruct (dimension_is_an_abelian_group dimension_length dimension_time
              dimensionless) as (_ & _ & _ & _ & _ & H).
  destruct H as (H1 & _ & H3).
  - repeat split; unfold int_min, int_max; cbn; lia.
  - split; assumption.
Defined.

(** X10: the laws of [pow] on dimensions: exponent [0] gives
    [dimensionless], exponents add over a product of powers, [pow]
    distributes over a product of dimensions, a power of a power multiplies
    the exponents, a power times the power of the negated exponent is
    [dimensionless], and exponent [1] gives back a dimension whose
    exponents are [int] values. *)
Theorem dimension_power_laws (d d' : dimension) (a b : Z) :
  dimension_pow d 0 = dimensionless /\
  dimension_pow d (int_add a b) =
    dimension_mul (dimension_pow d a) (dimension_pow d b) /\
  dimension_pow (dimension_mul d d') a =
    dimension_mul (dimension_pow d a) (dimension_pow d' a) /\
  dimension_pow (dimension_pow d a) b = dimension_pow d (int_mul a b) /\
  dimension_mul (dimension_pow d a) (dimension_pow d (int_neg a)) =
    dimensionless /\
  (dimension_in_range d -> dimension_pow d 1 = d).
Proof.
  split; [apply dimension_pow_0|].
  split; [apply dimension_pow_add|].
  split; [apply dimension_pow_mul|].
  split; [apply dimension_pow_pow|].
  split; [|apply dimension_pow_1].
  rewrite dimension_pow_neg. apply dimension_mul_inverse.
Qed.

Lemma dimension_power_laws_witness :
  dimension_pow dimension_length 1 = dimension_length.
Proof.
  destruct (dimension_power_laws dimension_length dimensionless 0 0)
    as (_ & _ & _ & _ & _ & H).
  apply H. repeat split; unfold int_min, int_max; cbn; lia.
Defined.

(** * Defined properties of run-time units *)

Lemma no_empty_product_product (ts : list dynamic_unit) :
  no_empty_product (dynamic_product ts) <->
  ts <> [] /\ Forall no_empty_product ts.
Proof.
  cbn [no_empty_product].
  assert (H : forall l,
            (fix all (l : list dynamic_unit) : Prop :=
               match l with
               | [] => True
               | t :: l' => no_empty_product t /\ all l'
               end) l <-> Forall no_empty_product l).
  { induction l as [|t l IH].
    - split; [constructor|intros _; exact I].
    - rewrite IH. split.
      + intros [Ht Hl]. now constructor.
      + intros Hf. inversion Hf. now split. }
  now rewrite H.
Qed.

Lemma dimension_loop_defined (l : list dynamic_unit) :
  Forall (fun t => exists d, Dynamic.dimension_of t = Ok d) l ->
  forall result, exists d,
  (fix loop (result : dimension) (l : list dynamic_unit)
     : outcome dimension :=
     match l with
     | [] => Ok result
     | it :: l' =>
         d <- Dynamic.dimension_of it ;; loop (dimension_mul result d) l'
     end) result l = Ok d.
Proof.
  induction 1 as [|t l [d Ht] _ IH]; intros result.
  - now exists result.
  - rewrite Ht. cbn [bind]. apply IH.
Qed.

Lemma magnitude_loop_defined (l : list dynamic_unit) :
  Forall (fun t => exists m, Dynamic.magnitude t = Ok m) l ->
  forall result, exists m,
  (fix loop (result : rational) (l : list dynamic_unit)
     : outcome rational :=
     match l with
     | [] => Ok result
     | it :: l' =>
         m <- Dynamic.magnitude it ;; loop (rational_mul result m) l'
     end) result l = Ok m.
Proof.
  induction 1 as [|t l [m Ht] _ IH]; intros result.
  - now exists result.
  - rewrite Ht. cbn [bind]. apply IH.
Qed.

Lemma dimension_of_defined (u : dynamic_unit) :
  no_empty_product u -> exists d, Dynamic.dimension_of u = Ok d.
Proof.
  induction u as [n|b e IH|ts IH] using dynamic_unit_ind; intros Hu.
  - now eexists.
  - destruct (IH Hu) as [d Ed]. cbn [Dynamic.dimension_of]. rewrite Ed.
    now eexists.
  - apply no_empty_product_product in Hu. destruct Hu as [Hne Hall].
    assert (Hd : Forall (fun t => exists d, Dynamic.dimension_of t = Ok d) ts).
    { rewrite Forall_forall in *. intros t Ht. apply IH; auto. }
    destruct ts as [|t l]; [contradiction|].
    cbn [Dynamic.dimension_of]. inversion Hd as [|? ? [d Ed] Hl]; subst.
    rewrite Ed. cbn [bind]. now apply dimension_loop_defined.
Qed.

Lemma magnitude_defined (u : dynamic_unit) :
  no_empty_product u -> exists m, Dynamic.magnitude u = Ok m.
Proof.
  induction u as [n|b e IH|ts IH] using dynamic_unit_ind; intros Hu.
  - now eexists.
  - destruct (IH Hu) as [m Em]. cbn [Dynamic.magnitude]. rewrite Em.
    now eexists.
  - apply no_empty_product_product in Hu. destruct Hu as [Hne Hall].
    assert (Hd : Forall (fun t => exists m, Dynamic.magnitude t = Ok m) ts).
    { rewrite Forall_forall in *. intros t Ht. apply IH; auto. }
    destruct ts as [|t l]; [contradiction|].
    cbn [Dynamic.magnitude]. inversion Hd as [|? ? [m Em] Hl]; subst.
    rewrite Em. cbn [bind]. now apply magnitude_loop_defined.
Qed.

Lemma dimension_loop_undefined (l : list dynamic_unit) :
  Forall (fun t => Dynamic.dimension_of t = Undefined \/
                   exists d, Dynamic.dimension_of t = Ok d) l ->
  forall result,
  let r :=
    (fix loop (result : dimension) (l : list dynamic_unit)
       : outcome dimension :=
       match l with
       | [] => Ok result
       | it :: l' =>
           d <- Dynamic.dimension_of it ;; loop (dimension_mul result d) l'
       end) result l in
  (r = Undefined \/ exists d, r = Ok d) /\
  ((exists d, r = Ok d) ->
   Forall (fun t => exists d, Dynamic.dimension_of t = Ok d) l).
Proof.
  induction 1 as [|t l Ht _ IH]; intros result; cbv zeta.
  - split; [right; now eexists|constructor].
  - destruct Ht as [Et|[d Et]]; rewrite Et; cbn [bind].
    + split; [now left|]. intros [d Ed]. discriminate.
    + destruct (IH (dimension_mul result d)) as [H1 H2].
      split; [exact H1|]. intros Hd. constructor; [exists d; exact Et|auto].
Qed.

Lemma magnitude_loop_undefined (l : list dynamic_unit) :
  Forall (fun t => Dynamic.magnitude t = Undefined \/
                   exists m, Dynamic.magnitude t = Ok m) l ->
  forall result,
  let r :=
    (fix loop (result : rational) (l : list dynamic_unit)
       : outcome rational :=
       match l with
       | [] => Ok result
       | it :: l' =>
           m <- Dynamic.magnitude it ;; loop (rational_mul result m) l'
       end) result l in
  r = Undefined \/ exists m, r = Ok m.
Proof.
  induction 1 as [|t l Ht _ IH]; intros result; cbv zeta.
  - right; now eexists.
  - destruct Ht as [Et|[m Et]]; rewrite Et; cbn [bind]; [now left|apply IH].
Qed.

(** [dimension()] returns or is undefined, and it returns only when no
    product is empty. *)
Lemma dimension_of_cases (u : dynamic_unit) :
  (Dynamic.dimension_of u = Undefined \/
   exists d, Dynamic.dimension_of u = Ok d) /\
  ((exists d, Dynamic.dimension_of u = Ok d) -> no_empty_product u).
Proof.
  induction u as [n|b e IH|ts IH] using dynamic_unit_ind.
  - split; [right; now eexists|intros _; exact I].
  - cbn [Dynamic.dimension_of no_empty_product].
    destruct IH as [[E|[d E]] H2]; rewrite E in *; cbn [bind].
    + split; [now left|]. intros [d Ed]. discriminate.
    + split; [right; now eexists|]. intros _. apply H2. now eexists.
  - assert (H1 : Forall (fun t => Dynamic.dimension_of t = Undefined \/
                                  exists d, Dynamic.dimension_of t = Ok d) ts).
    { rewrite Forall_forall in *. intros t Ht. now apply IH. }
    destruct ts as [|t l].
    + split; [now left|]. intros [d Ed]. discriminate.
    + inversion H1 as [|? ? Ht Hl]; subst. inversion IH as [|? ? IHt IHl]; subst.
      rewrite no_empty_product_product. cbn [Dynamic.dimension_of].
      destruct Ht as [Et|[d Et]]; rewrite Et; cbn [bind].
      * split; [now left|]. intros [d Ed]. discriminate.
      * destruct (dimension_loop_undefined l Hl d) as [Hc Hd].
        split; [exact Hc|]. intros Hok. split; [discriminate|].
        constructor.
        -- apply IHt. exists d. exact Et.
        -- specialize (Hd Hok). rewrite Forall_forall in *.
           intros x Hx. apply IHl; auto.
Qed.

Lemma magnitude_cases (u : dynamic_unit) :
  Dynamic.magnitude u = Undefined \/ exists m, Dynamic.magnitude u = Ok m.
Proof.
  induction u as [n|b e IH|ts IH] using dynamic_unit_ind.
  - right; now eexists.
  - cbn [Dynamic.magnitude]. destruct IH as [E|[m E]]; rewrite E; cbn [bind];
      [now left|right; now eexists].
  - destruct ts as [|t l]; [now left|].
    inversion IH as [|? ? IHt IHl]; subst. cbn [Dynamic.magnitude].
    destruct IHt as [Et|[m Et]]; rewrite Et; cbn [bind]; [now left|].
    now apply magnitude_loop_undefined.
Qed.

Lemma unit_eq_cases (a b : dynamic_unit) :
  Dynamic.unit_eq a b = Undefined \/ exists r, Dynamic.unit_eq a b = Ok r.
Proof.
  unfold Dynamic.unit_eq.
  destruct (dimension_of_cases a) as [[Ea|[da Ea]] _]; rewrite Ea; cbn [bind];
    [now left|].
  destruct (dimension_of_cases b) as [[Eb|[db Eb]] _]; rewrite Eb; cbn [bind];
    [now left|].
  destruct (dimension_eqb da db); [|right; now eexists].
  destruct (magnitude_cases a) as [Ma|[ma Ma]]; rewrite Ma; cbn [bind];
    [now left|].
  destruct (magnitude_cases b) as [Mb|[mb Mb]]; rewrite Mb; cbn [bind];
    [now left|right; now eexists].
Qed.

Lemma unit_eq_defined (a b : dynamic_unit) :
  no_empty_product a -> no_empty_product b ->
  exists r, Dynamic.unit_eq a b = Ok r.
Proof.
  intros Ha Hb. unfold Dynamic.unit_eq.
  destruct (dimension_of_defined a Ha) as [da Ea].
  destruct (dimension_of_defined b Hb) as [db Eb].
  destruct (magnitude_defined a Ha) as [ma Ma].
  destruct (magnitude_defined b Hb) as [mb Mb].
  rewrite Ea, Eb. cbn [bind]. destruct (dimension_eqb da db);
    [rewrite Ma, Mb|]; now eexists.
Qed.

Lemma unit_eq_true (a b : dynamic_unit) :
  Dynamic.unit_eq a b = Ok true <->
  exists d m,
    Dynamic.dimension_of a = Ok d /\ Dynamic.dimension_of b = Ok d /\
    Dynamic.magnitude a = Ok m /\ Dynamic.magnitude b = Ok m /\
    Dynamic.origin a = Dynamic.origin b.
Proof.
  unfold Dynamic.unit_eq. split.
  - destruct (Dynamic.dimension_of a) as [da| |]; cbn [bind]; try discriminate.
    destruct (Dynamic.dimension_of b) as [db| |]; cbn [bind]; try discriminate.
    destruct (dimension_eqb da db) eqn:Ed; [|discriminate].
    apply dimension_eqb_eq in Ed. subst db.
    destruct (Dynamic.magnitude a) as [ma| |]; cbn [bind]; try discriminate.
    destruct (Dynamic.magnitude b) as [mb| |]; cbn [bind]; try discriminate.
    intros E. injection E as E. apply andb_true_iff in E. destruct E as [Em Eo].
    apply rational_eqb_eq in Em. apply optional_eqb_eq in Eo. subst mb.
    now exists da, ma.
  - intros (d & m & -> & -> & -> & -> & Eo). cbn [bind].
    rewrite (proj2 (dimension_eqb_eq d d) eq_refl).
    rewrite (proj2 (rational_eqb_eq m m) eq_refl).
    now rewrite (proj2 (optional_eqb_eq _ _) Eo).
Qed.

Lemma unit_eq_sym (a b : dynamic_unit) :
  Dynamic.unit_eq a b = Dynamic.unit_eq b a.
Proof.
  unfold Dynamic.unit_eq.
  destruct (dimension_of_cases a) as [[Ea|[da Ea]] _];
    destruct (dimension_of_cases b) as [[Eb|[db Eb]] _];
    rewrite Ea, Eb; cbn [bind]; try reflexivity.
  assert (Ed : dimension_eqb da db = dimension_eqb db da).
  { destruct (dimension_eqb da db) eqn:E1, (dimension_eqb db da) eqn:E2;
      try reflexivity.
    - apply dimension_eqb_eq in E1. subst.
      now rewrite (proj2 (dimension_eqb_eq db db) eq_refl) in E2.
    - apply dimension_eqb_eq in E2. subst.
      now rewrite (proj2 (dimension_eqb_eq da da) eq_refl) in E1. }
  rewrite <- Ed. destruct (dimension_eqb da db); [|reflexivity].
  destruct (magnitude_cases a) as [Ma|[ma Ma]];
    destruct (magnitude_cases b) as [Mb|[mb Mb]];
    rewrite Ma, Mb; cbn [bind]; try reflexivity.
  f_equal.
  destruct (rational_eqb ma mb && optional_eqb (Dynamic.origin a) (Dynamic.origin b)) eqn:E1,
           (rational_eqb mb ma && optional_eqb (Dynamic.origin b) (Dynamic.origin a)) eqn:E2;
    try reflexivity.
  - apply andb_true_iff in E1. destruct E1 as [Em Eo].
    apply rational_eqb_eq in Em. apply optional_eqb_eq in Eo.
    rewrite Em, Eo in E2.
    rewrite (proj2 (rational_eqb_eq mb mb) eq_refl) in E2.
    now rewrite (proj2 (optional_eqb_eq _ _) eq_refl) in E2.
  - apply andb_true_iff in E2. destruct E2 as [Em Eo].
    apply rational_eqb_eq in Em. apply optional_eqb_eq in Eo.
    rewrite Em, Eo in E1.
    rewrite (proj2 (rational_eqb_eq ma ma) eq_refl) in E1.
    now rewrite (proj2 (optional_eqb_eq _ _) eq_refl) in E1.
Qed.

Lemma unit_eq_refl (a : dynamic_unit) :
  no_empty_product a -> Dynamic.unit_eq a a = Ok true.
Proof.
  intros Ha. apply unit_eq_true.
  destruct (dimension_of_defined a Ha) as [d Ed].
  destruct (magnitude_defined a Ha) as [m Em].
  now exists d, m.
Qed.

Lemma unit_eq_trans (a b c : dynamic_unit) :
  Dynamic.unit_eq a b = Ok true -> Dynamic.unit_eq b c = Ok true ->
  Dynamic.unit_eq a c = Ok true.
Proof.
  rewrite !unit_eq_true.
  intros (d & m & Ea & Eb & Ma & Mb & Eo) (d' & m' & Eb' & Ec & Mb' & Mc & Eo').
  rewrite Eb in Eb'. injection Eb' as <-. rewrite Mb in Mb'. injection Mb' as <-.
  exists d, m. repeat split; try assumption. congruence.
Qed.

Lemma are_equal_true (A B : static_unit) :
  Static.are_equal A B = true <->
  Static.static_dimension A = Static.static_dimension B /\
  Static.static_magnitude A = Static.static_magnitude B /\
  Static.static_origin A = Static.static_origin B.
Proof.
  unfold Static.are_equal.
  rewrite !andb_true_iff, dimension_eqb_eq, rational_eqb_eq, optional_eqb_eq.
  tauto.
Qed.



(** * The dynamic algebra never throws *)

Lemma multiply_with_exp_all_exp (p : list dynamic_unit) (b : dynamic_unit)
  (e : Z) :
  Forall is_dynamic_exp p ->
  match Dynamic.multiply_with_exp p b e with
  | Ok p' => Forall is_dynamic_exp p'
  | Throw _ => False
  | Undefined => True
  end.
Proof.
  induction 1 as [|t l Ht Hl IH].
  - cbn. repeat constructor.
  - destruct t as [n|b0 e0|ts]; try contradiction.
    cbn [Dynamic.multiply_with_exp].
    destruct (unit_eq_cases b0 b) as [E|[r E]]; rewrite E; cbn [bind];
      [exact I|].
    destruct r.
    + constructor; [exact I|exact Hl].
    + destruct (Dynamic.multiply_with_exp l b e) as [l'| |]; cbn [bind];
        try assumption.
      constructor; [exact I|exact IH].
Qed.

Lemma multiply_with_all_exp (u : dynamic_unit) : forall p,
  Forall is_dynamic_exp p ->
  match Dynamic.multiply_with p u with
  | Ok p' => Forall is_dynamic_exp p'
  | Throw _ => False
  | Undefined => True
  end.
Proof.
  induction u as [n|b e _|ts IH] using dynamic_unit_ind; intros p Hp.
  - now apply multiply_with_exp_all_exp.
  - now apply multiply_with_exp_all_exp.
  - cbn [Dynamic.multiply_with]. revert p Hp.
    induction IH as [|t l IHt _ IHl]; intros p Hp; [exact Hp|].
    specialize (IHt p Hp).
    destruct (Dynamic.multiply_with p t) as [p'| |]; cbn [bind];
      try assumption.
    now apply IHl.
Qed.

Lemma divide_by_all_exp (u : dynamic_unit) : forall p,
  Forall is_dynamic_exp p ->
  match Dynamic.divide_by p u with
  | Ok p' => Forall is_dynamic_exp p'
  | Throw _ => False
  | Undefined => True
  end.
Proof.
  induction u as [n|b e _|ts IH] using dynamic_unit_ind; intros p Hp.
  - now apply multiply_with_exp_all_exp.
  - now apply multiply_with_exp_all_exp.
  - cbn [Dynamic.divide_by]. revert p Hp.
    induction IH as [|t l IHt _ IHl]; intros p Hp; [exact Hp|].
    specialize (IHt p Hp).
    destruct (Dynamic.divide_by p t) as [p'| |]; cbn [bind];
      try assumption.
    now apply IHl.
Qed.

Lemma mul_never_throws (a b : dynamic_unit) (e : exception) :
  Dynamic.mul a b <> Throw e.
Proof.
  unfold Dynamic.mul.
  pose proof (multiply_with_all_exp a [] (Forall_nil _)) as Ha.
  destruct (Dynamic.multiply_with [] a) as [p| |]; cbn [bind];
    try discriminate; [|contradiction].
  pose proof (multiply_with_all_exp b p Ha) as Hb.
  destruct (Dynamic.multiply_with p b) as [p'| |]; cbn [bind];
    try discriminate. contradiction.
Qed.

Lemma div_never_throws (a b : dynamic_unit) (e : exception) :
  Dynamic.div a b <> Throw e.
Proof.
  unfold Dynamic.div.
  pose proof (multiply_with_all_exp a [] (Forall_nil _)) as Ha.
  destruct (Dynamic.multiply_with [] a) as [p| |]; cbn [bind];
    try discriminate; [|contradiction].
  pose proof (divide_by_all_exp b p Ha) as Hb.
  destruct (Dynamic.divide_by p b) as [p'| |]; cbn [bind];
    try discriminate. contradiction.
Qed.

(** * The dynamic algebra on well-formed units *)


Lemma multiply_with_exp_defined (p : list dynamic_unit) (b : dynamic_unit)
  (e : Z) :
  exp_terms p -> no_empty_product b ->
  exists p', Dynamic.multiply_with_exp p b e = Ok p' /\ exp_terms p'.
Proof.
  intros Hp Hb. induction Hp as [|t l [Ht Hw] Hl IH].
  - eexists. split; [reflexivity|]. repeat constructor. exact Hb.
  - destruct t as [n|b0 e0|ts]; try contradiction.
    cbn [Dynamic.multiply_with_exp].
    destruct (unit_eq_defined b0 b Hw Hb) as [r E]. rewrite E. cbn [bind].
    destruct r.
    + eexists. split; [reflexivity|]. constructor; [|exact Hl].
      split; [exact I|exact Hb].
    + destruct IH as [l' [El Hl']]. rewrite El. cbn [bind].
      eexists. split; [reflexivity|]. constructor; [|exact Hl'].
      split; [exact I|exact Hw].
Qed.

Lemma multiply_with_defined (u : dynamic_unit) : forall p,
  exp_terms p -> no_empty_product u ->
  exists p', Dynamic.multiply_with p u = Ok p' /\ exp_terms p'.
Proof.
  induction u as [n|b e _|ts IH] using dynamic_unit_ind; intros p Hp Hu.
  - now apply multiply_with_exp_defined.
  - now apply multiply_with_exp_defined.
  - apply no_empty_product_product in Hu. destruct Hu as [_ Hall].
    cbn [Dynamic.multiply_with]. revert p Hp.
    induction IH as [|t l IHt _ IHl]; intros p Hp.
    + now exists p.
    + inversion Hall; subst.
      destruct (IHt p Hp) as [p' [E Hp']]; [assumption|].
      rewrite E. cbn [bind]. now apply IHl.
Qed.

Lemma divide_by_defined (u : dynamic_unit) : forall p,
  exp_terms p -> no_empty_product u ->
  exists p', Dynamic.divide_by p u = Ok p' /\ exp_terms p'.
Proof.
  induction u as [n|b e _|ts IH] using dynamic_unit_ind; intros p Hp Hu.
  - now apply multiply_with_exp_defined.
  - now apply multiply_with_exp_defined.
  - apply no_empty_product_product in Hu. destruct Hu as [_ Hall].
    cbn [Dynamic.divide_by]. revert p Hp.
    induction IH as [|t l IHt _ IHl]; intros p Hp.
    + now exists p.
    + inversion Hall; subst.
      destruct (IHt p Hp) as [p' [E Hp']]; [assumption|].
      rewrite E. cbn [bind]. now apply IHl.
Qed.

Lemma collapse_no_empty_product (l : list dynamic_unit) :
  Forall no_empty_product l -> no_empty_product (Dynamic.collapse l).
Proof.
  intros Hl. destruct l as [|t [|t2 l]].
  - exact I.
  - now inversion Hl.
  - cbn [Dynamic.collapse]. apply no_empty_product_product.
    split; [discriminate|exact Hl].
Qed.

Lemma simplify_no_empty_product (u : dynamic_unit) :
  no_empty_product u -> no_empty_product (Dynamic.simplify u).
Proof.
  induction u as [n|b e _|ts IH] using dynamic_unit_ind; intros Hu.
  - exact Hu.
  - cbn [Dynamic.simplify]. destruct (e =? 0); [exact I|].
    destruct (e =? 1); exact Hu.
  - rewrite dynamic_simplify_product. apply collapse_no_empty_product.
    apply no_empty_product_product in Hu. destruct Hu as [_ Hall].
    rewrite Forall_forall in *. intros t Ht.
    apply filter_In in Ht. destruct Ht as [Ht _].
    apply in_map_iff in Ht. destruct Ht as [t0 [<- Ht0]]. auto.
Qed.

Lemma simplify_terms_no_empty_product (p : list dynamic_unit) :
  Forall no_empty_product p ->
  no_empty_product (Dynamic.simplify (dynamic_product p)).
Proof.
  intros Hp. rewrite dynamic_simplify_product.
  apply collapse_no_empty_product.
  rewrite Forall_forall in *. intros t Ht.
  apply filter_In in Ht. destruct Ht as [Ht _].
  apply in_map_iff in Ht. destruct Ht as [t0 [<- Ht0]].
  apply simplify_no_empty_product. auto.
Qed.

Lemma exp_terms_no_empty_product (p : list dynamic_unit) :
  exp_terms p -> Forall no_empty_product p.
Proof. apply Forall_impl. now intros t [_ H]. Qed.



(** * Dimensions in the dynamic algebra *)

Local Abbreviation has_dimension := (fun t d => Dynamic.dimension_of t = Ok d).

Lemma dimension_product_in_range (ds : list dimension) :
  dimension_in_range (dimension_product ds).
Proof.
  destruct ds; [apply dimensionless_in_range|apply dimension_mul_in_range].
Qed.

Lemma fold_left_dimension_product (ds : list dimension) : forall a,
  dimension_in_range a ->
  fold_left dimension_mul ds a = dimension_mul a (dimension_product ds).
Proof.
  induction ds as [|d ds IH]; intros a Ha; cbn [fold_left dimension_product fold_right].
  - symmetry. now apply dimension_mul_1_r.
  - rewrite IH by apply dimension_mul_in_range.
    now rewrite dimension_mul_assoc.
Qed.

Lemma dimension_loop_spec (l : list dynamic_unit) : forall result d,
  (fix loop (result : dimension) (l : list dynamic_unit)
     : outcome dimension :=
     match l with
     | [] => Ok result
     | it :: l' =>
         d <- Dynamic.dimension_of it ;; loop (dimension_mul result d) l'
     end) result l = Ok d <->
  exists ds, Forall2 has_dimension l ds /\
             d = fold_left dimension_mul ds result.
Proof.
  induction l as [|t l IH]; intros result d.
  - split.
    + intros E. injection E as <-. exists []. split; [constructor|reflexivity].
    + intros (ds & H & ->). inversion H. reflexivity.
  - split.
    + destruct (Dynamic.dimension_of t) as [dt| |] eqn:Et; cbn [bind];
        try discriminate.
      intros E. apply IH in E. destruct E as (ds & H & ->).
      exists (dt :: ds). split; [now constructor|reflexivity].
    + intros (ds & H & ->). inversion H as [|? dt ? ds' Et Hl]; subst.
      rewrite Et. cbn [bind fold_left]. apply IH. now exists ds'.
Qed.

Lemma dimension_of_product (ts : list dynamic_unit) (d : dimension) :
  Dynamic.dimension_of (dynamic_product ts) = Ok d <->
  exists t l dt dl,
    ts = t :: l /\ Dynamic.dimension_of t = Ok dt /\
    Forall2 has_dimension l dl /\ d = fold_left dimension_mul dl dt.
Proof.
  destruct ts as [|t l]; cbn [Dynamic.dimension_of].
  - split; [discriminate|]. intros (? & ? & ? & ? & E & _). discriminate.
  - split.
    + destruct (Dynamic.dimension_of t) as [dt| |] eqn:Et; cbn [bind];
        try discriminate.
      intros E. apply dimension_loop_spec in E. destruct E as (dl & H & ->).
      now exists t, l, dt, dl.
    + intros (t' & l' & dt & dl & E & Et & H & ->). injection E as <- <-.
      rewrite Et. cbn [bind]. apply dimension_loop_spec. now exists dl.
Qed.

Lemma dimensions_in_range_product (ts : list dynamic_unit) :
  dimensions_in_range (dynamic_product ts) <-> Forall dimensions_in_range ts.
Proof.
  cbn [dimensions_in_range]. induction ts as [|t l IH].
  - split; [constructor|intros _; exact I].
  - rewrite IH. split.
    + intros [Ht Hl]. now constructor.
    + intros Hf. inversion Hf. now split.
Qed.

Lemma dimension_of_in_range (u : dynamic_unit) (d : dimension) :
  dimensions_in_range u -> Dynamic.dimension_of u = Ok d ->
  dimension_in_range d.
Proof.
  revert d. induction u as [n|b e IH|ts IH] using dynamic_unit_ind;
    intros d Hu Ed.
  - injection Ed as <-. exact Hu.
  - cbn [Dynamic.dimension_of] in Ed.
    destruct (Dynamic.dimension_of b); cbn [bind] in Ed; try discriminate.
    injection Ed as <-. apply dimension_pow_in_range.
  - apply dimension_of_product in Ed.
    destruct Ed as (t & l & dt & dl & -> & Et & Hl & ->).
    apply dimensions_in_range_product in Hu.
    inversion Hu; subst. inversion IH; subst.
    destruct dl as [|d1 dl].
    + cbn. eauto.
    + rewrite fold_left_dimension_product by eauto.
      apply dimension_mul_in_range.
Qed.

Lemma has_dimension_in_range (l : list dynamic_unit) (ds : list dimension) :
  Forall dimensions_in_range l -> Forall2 has_dimension l ds ->
  Forall dimension_in_range ds.
Proof.
  intros Hl H. induction H as [|t d l ds Et _ IH]; [constructor|].
  inversion Hl; subst. constructor; [|auto].
  eapply dimension_of_in_range; eassumption.
Qed.

(** The dimension of a product with at least one term is the product of
    the dimensions of the terms. *)
Lemma dimension_of_product_terms (ts : list dynamic_unit) (ds : list dimension) :
  ts <> [] -> Forall dimensions_in_range ts -> Forall2 has_dimension ts ds ->
  Dynamic.dimension_of (dynamic_product ts) = Ok (dimension_product ds).
Proof.
  intros Hne Hr H. destruct H as [|t dt l dl Et Hl]; [contradiction|].
  apply dimension_of_product. exists t, l, dt, dl.
  repeat split; try assumption.
  inversion Hr; subst.
  rewrite fold_left_dimension_product; [reflexivity|].
  eapply dimension_of_in_range; eassumption.
Qed.

(** ** [simplify] keeps the dimension *)

Lemma is_unitless_dimension (t : dynamic_unit) (d : dimension) :
  Dynamic.is_unitless t = true -> Dynamic.dimension_of t = Ok d ->
  d = dimensionless.
Proof.
  intros Hu E. apply is_unitless_iff in Hu. subst t. now injection E as <-.
Qed.

Lemma filter_kept_dimensions (l : list dynamic_unit) (ds : list dimension) :
  Forall2 has_dimension l ds -> Forall dimension_in_range ds ->
  exists ds',
    Forall2 has_dimension (filter Dynamic.kept l) ds' /\
    Forall dimension_in_range ds' /\
    dimension_product ds' = dimension_product ds.
Proof.
  induction 1 as [|t d l ds Et _ IH]; intros Hr.
  - exists []. repeat split; constructor.
  - inversion Hr as [|? ? Hd Hds]; subst.
    destruct (IH Hds) as (ds' & H' & Hr' & E').
    cbn [filter]. unfold Dynamic.kept at 1.
    destruct (Dynamic.is_unitless t) eqn:Eu; cbn [negb].
    + exists ds'. repeat split; try assumption.
      rewrite (is_unitless_dimension t d Eu Et).
      cbn [dimension_product fold_right]. fold (dimension_product ds).
      rewrite dimension_mul_1_l by apply dimension_product_in_range.
      exact E'.
    + exists (d :: ds'). repeat split.
      * now constructor.
      * now constructor.
      * cbn [dimension_product fold_right].
        fold (dimension_product ds') (dimension_product ds). now rewrite E'.
Qed.

Lemma collapse_dimension (l : list dynamic_unit) (ds : list dimension) :
  Forall2 has_dimension l ds -> Forall dimension_in_range ds ->
  Dynamic.dimension_of (Dynamic.collapse l) = Ok (dimension_product ds).
Proof.
  intros H Hr. destruct H as [|t d l ds Et Hl]; [reflexivity|].
  inversion Hr as [|? ? Hd Hds]; subst.
  destruct Hl as [|t2 d2 l ds Et2 Hl].
  - cbn [Dynamic.collapse dimension_product fold_right].
    now rewrite dimension_mul_1_r.
  - cbn [Dynamic.collapse]. apply dimension_of_product.
    exists t, (t2 :: l), d, (d2 :: ds).
    repeat split; try assumption; [now constructor|].
    now rewrite fold_left_dimension_product.
Qed.

Lemma simplify_terms_dimension (ts : list dynamic_unit) (ds : list dimension) :
  Forall (fun t => forall d, dimensions_in_range t ->
                             Dynamic.dimension_of t = Ok d ->
                             Dynamic.dimension_of (Dynamic.simplify t) = Ok d)
         ts ->
  Forall dimensions_in_range ts -> Forall2 has_dimension ts ds ->
  Dynamic.dimension_of (Dynamic.simplify (dynamic_product ts)) =
    Ok (dimension_product ds).
Proof.
  intros IH Hr H. rewrite dynamic_simplify_product.
  pose proof (has_dimension_in_range ts ds Hr H) as Hds.
  assert (Hs : Forall2 has_dimension (map Dynamic.simplify ts) ds).
  { clear Hds. revert IH Hr.
    induction H as [|t d l ds Et _ IHl]; intros IH Hr; cbn [map];
      [constructor|].
    inversion IH; subst. inversion Hr; subst. constructor; auto. }
  destruct (filter_kept_dimensions _ _ Hs Hds) as (ds' & H' & Hr' & E').
  rewrite <- E'. now apply collapse_dimension.
Qed.

Lemma simplify_dimension (u : dynamic_unit) : forall d,
  dimensions_in_range u -> Dynamic.dimension_of u = Ok d ->
  Dynamic.dimension_of (Dynamic.simplify u) = Ok d.
Proof.
  induction u as [n|b e _|ts IH] using dynamic_unit_ind; intros d Hu Ed.
  - exact Ed.
  - cbn [Dynamic.simplify]. cbn [Dynamic.dimension_of] in Ed.
    destruct (Dynamic.dimension_of b) as [db| |] eqn:Eb; cbn [bind] in Ed;
      try discriminate.
    injection Ed as <-.
    destruct (Z.eqb_spec e 0) as [->|_];
      [now rewrite dimension_pow_0|].
    destruct (Z.eqb_spec e 1) as [->|_].
    + rewrite dimension_pow_1; [exact Eb|].
      exact (dimension_of_in_range b db Hu Eb).
    + cbn [Dynamic.dimension_of]. now rewrite Eb.
  - apply dimensions_in_range_product in Hu.
    pose proof Ed as Ed'. apply dimension_of_product in Ed'.
    destruct Ed' as (t & l & dt & dl & -> & Et & Hl & ->).
    rewrite (simplify_terms_dimension (t :: l) (dt :: dl) IH Hu)
      by now constructor.
    inversion Hu; subst.
    rewrite fold_left_dimension_product; [reflexivity|].
    eapply dimension_of_in_range; eassumption.
Qed.

Lemma simplify_dimensions_in_range (u : dynamic_unit) :
  dimensions_in_range u -> dimensions_in_range (Dynamic.simplify u).
Proof.
  induction u as [n|b e _|ts IH] using dynamic_unit_ind; intros Hu.
  - exact Hu.
  - cbn [Dynamic.simplify]. destruct (e =? 0); [apply dimensionless_in_range|].
    destruct (e =? 1); exact Hu.
  - rewrite dynamic_simplify_product.
    apply dimensions_in_range_product in Hu.
    assert (Hk : Forall dimensions_in_range
                   (filter Dynamic.kept (map Dynamic.simplify ts))).
    { rewrite Forall_forall in *. intros t Ht.
      apply filter_In in Ht. destruct Ht as [Ht _].
      apply in_map_iff in Ht. destruct Ht as [t0 [<- Ht0]]. auto. }
    destruct (filter Dynamic.kept (map Dynamic.simplify ts)) as [|t [|t2 l]].
    + apply dimensionless_in_range.
    + now inversion Hk.
    + cbn [Dynamic.collapse]. now apply dimensions_in_range_product.
Qed.

(** X13: [simplify] of a run-time unit keeps its dimension: when the
    dimensions of the named objects are [int] vectors and [dimension()] of
    the unit is defined, [dimension()] of the simplified unit is defined
    and equal to it. *)
Theorem dynamic_simplify_keeps_the_dimension (u : dynamic_unit)
  (d : dimension) :
  dimensions_in_range u -> Dynamic.dimension_of u = Ok d ->
  Dynamic.dimension_of (Dynamic.simplify u) = Ok d /\
  dimensions_in_range (Dynamic.simplify u).
Proof.
  intros Hu Ed. split; [now apply simplify_dimension|].
  now apply simplify_dimensions_in_range.
Qed.

Lemma dynamic_simplify_keeps_the_dimension_witness :
  let u := dynamic_product [dynamic_exp (dynamic_named meter) 1;
                            dynamic_exp (dynamic_named second) 0;
                            dynamic_named unitless] in
  Dynamic.dimension_of (Dynamic.simplify u) = Ok dimension_length.
Proof.
  cbv zeta. apply dynamic_simplify_keeps_the_dimension.
  - cbn. repeat split; unfold int_min, int_max; cbn; lia.
  - reflexivity.
Defined.

(** ** [multiply_with] and [divide_by] on dimensions *)

Lemma dimension_mul_swap (a b c : dimension) :
  dimension_mul (dimension_mul a b) c = dimension_mul (dimension_mul a c) b.
Proof.
  now rewrite <- !dimension_mul_assoc, (dimension_mul_comm b c).
Qed.

Lemma dimension_pow_dimensionless (e : Z) :
  dimension_pow dimensionless e = dimensionless.
Proof. reflexivity. Qed.

Lemma multiply_with_exp_dimension (p : list dynamic_unit)
  (ds : list dimension) (b : dynamic_unit) (e : Z) (db : dimension) :
  Forall2 has_dimension p ds -> Dynamic.dimension_of b = Ok db ->
  forall p', Dynamic.multiply_with_exp p b e = Ok p' ->
  exists ds',
    Forall2 has_dimension p' ds' /\
    dimension_product ds' =
      dimension_mul (dimension_product ds) (dimension_pow db e).
Proof.
  intros H Eb. induction H as [|t d l ds Et Hl IH]; intros p' Ep.
  - injection Ep as <-. exists [dimension_pow db e]. split.
    + constructor; [|constructor]. cbn [Dynamic.dimension_of]. now rewrite Eb.
    + cbn [dimension_product fold_right].
      rewrite dimension_mul_1_r, dimension_mul_1_l
        by apply dimension_pow_in_range.
      reflexivity.
  - destruct t as [n|b0 e0|ts]; cbn [Dynamic.multiply_with_exp] in Ep;
      try discriminate.
    destruct (Dynamic.unit_eq b0 b) as [same| |] eqn:Eq; cbn [bind] in Ep;
      try discriminate.
    destruct same.
    + injection Ep as <-.
      apply unit_eq_true in Eq.
      destruct Eq as (d0 & m0 & Eb0 & Eb' & _).
      rewrite Eb in Eb'. injection Eb' as <-.
      cbn [Dynamic.dimension_of] in Et. rewrite Eb0 in Et. cbn [bind] in Et.
      injection Et as <-.
      exists (dimension_pow db (int_add e0 e) :: ds). split.
      * constructor; [|exact Hl]. cbn [Dynamic.dimension_of]. now rewrite Eb.
      * cbn [dimension_product fold_right]. fold (dimension_product ds).
        rewrite dimension_pow_add. apply dimension_mul_swap.
    + destruct (Dynamic.multiply_with_exp l b e) as [l'| |] eqn:El;
        cbn [bind] in Ep; try discriminate.
      injection Ep as <-.
      destruct (IH l' eq_refl) as (ds' & H' & E').
      exists (d :: ds'). split; [now constructor|].
      cbn [dimension_product fold_right].
      fold (dimension_product ds') (dimension_product ds).
      now rewrite E', dimension_mul_assoc.
Qed.

Lemma multiply_with_exp_in_range (p : list dynamic_unit) (b : dynamic_unit)
  (e : Z) :
  Forall dimensions_in_range p -> dimensions_in_range b ->
  forall p', Dynamic.multiply_with_exp p b e = Ok p' ->
  Forall dimensions_in_range p'.
Proof.
  intros Hp Hb. induction Hp as [|t l Ht Hl IH]; intros p' Ep.
  - injection Ep as <-. repeat constructor. exact Hb.
  - destruct t as [n|b0 e0|ts]; cbn [Dynamic.multiply_with_exp] in Ep;
      try discriminate.
    destruct (Dynamic.unit_eq b0 b) as [same| |]; cbn [bind] in Ep;
      try discriminate.
    destruct same.
    + injection Ep as <-. constructor; [exact Hb|exact Hl].
    + destruct (Dynamic.multiply_with_exp l b e) as [l'| |];
        cbn [bind] in Ep; try discriminate.
      injection Ep as <-. constructor; [exact Ht|now apply IH].
Qed.

Lemma multiply_with_in_range (u : dynamic_unit) : forall p p',
  Forall dimensions_in_range p -> dimensions_in_range u ->
  Dynamic.multiply_with p u = Ok p' -> Forall dimensions_in_range p'.
Proof.
  induction u as [n|b e _|ts IH] using dynamic_unit_ind; intros p p' Hp Hu Ep.
  - exact (multiply_with_exp_in_range p (dynamic_named n) 1 Hp Hu p' Ep).
  - exact (multiply_with_exp_in_range p b e Hp Hu p' Ep).
  - apply dimensions_in_range_product in Hu.
    cbn [Dynamic.multiply_with] in Ep. revert p Hp Ep.
    induction IH as [|t l IHt _ IHl]; intros p Hp Ep.
    + now injection Ep as <-.
    + inversion Hu; subst.
      destruct (Dynamic.multiply_with p t) as [p1| |] eqn:E1;
        cbn [bind] in Ep; try discriminate.
      apply (IHl ltac:(assumption) p1); [|exact Ep].
      exact (IHt p p1 Hp ltac:(assumption) E1).
Qed.

Lemma divide_by_in_range (u : dynamic_unit) : forall p p',
  Forall dimensions_in_range p -> dimensions_in_range u ->
  Dynamic.divide_by p u = Ok p' -> Forall dimensions_in_range p'.
Proof.
  induction u as [n|b e _|ts IH] using dynamic_unit_ind; intros p p' Hp Hu Ep.
  - exact (multiply_with_exp_in_range p (dynamic_named n) _ Hp Hu p' Ep).
  - exact (multiply_with_exp_in_range p b _ Hp Hu p' Ep).
  - apply dimensions_in_range_product in Hu.
    cbn [Dynamic.divide_by] in Ep. revert p Hp Ep.
    induction IH as [|t l IHt _ IHl]; intros p Hp Ep.
    + now injection Ep as <-.
    + inversion Hu; subst.
      destruct (Dynamic.divide_by p t) as [p1| |] eqn:E1;
        cbn [bind] in Ep; try discriminate.
      apply (IHl ltac:(assumption) p1); [|exact Ep].
      exact (IHt p p1 Hp ltac:(assumption) E1).
Qed.

Lemma multiply_with_cons (p : list dynamic_unit) (t : dynamic_unit)
  (l : list dynamic_unit) :
  Dynamic.multiply_with p (dynamic_product (t :: l)) =
  (p1 <- Dynamic.multiply_with p t ;;
   Dynamic.multiply_with p1 (dynamic_product l)).
Proof. reflexivity. Qed.

Lemma divide_by_cons (p : list dynamic_unit) (t : dynamic_unit)
  (l : list dynamic_unit) :
  Dynamic.divide_by p (dynamic_product (t :: l)) =
  (p1 <- Dynamic.divide_by p t ;;
   Dynamic.divide_by p1 (dynamic_product l)).
Proof. reflexivity. Qed.

Lemma multiply_with_terms_dimension (ts : list dynamic_unit)
  (dts : list dimension) :
  Forall (fun t => forall p ds du p',
            Forall2 has_dimension p ds -> dimensions_in_range t ->
            Dynamic.dimension_of t = Ok du ->
            Dynamic.multiply_with p t = Ok p' ->
            exists ds',
              Forall2 has_dimension p' ds' /\
              dimension_product ds' = dimension_mul (dimension_product ds) du)
         ts ->
  Forall dimensions_in_range ts -> Forall2 has_dimension ts dts ->
  forall p ds p',
  Forall2 has_dimension p ds ->
  Dynamic.multiply_with p (dynamic_product ts) = Ok p' ->
  exists ds',
    Forall2 has_dimension p' ds' /\
    dimension_product ds' =
      dimension_mul (dimension_product ds) (dimension_product dts).
Proof.
  intros IH Hu Hts. revert IH Hu.
  induction Hts as [|t dt l dl Et _ IHl]; intros IH Hu p ds p' Hp Ep.
  - injection Ep as <-. exists ds. split; [exact Hp|].
    cbn [dimension_product fold_right]. symmetry.
    apply dimension_mul_1_r, dimension_product_in_range.
  - inversion IH as [|? ? IHt IHl']; subst.
    inversion Hu as [|? ? Ht Hl]; subst.
    rewrite multiply_with_cons in Ep.
    destruct (Dynamic.multiply_with p t) as [p1| |] eqn:E1;
      cbn [bind] in Ep; try discriminate.
    destruct (IHt p ds dt p1 Hp Ht Et E1) as (ds1 & H1 & P1).
    destruct (IHl IHl' Hl p1 ds1 p' H1 Ep) as (ds' & H' & P').
    exists ds'. split; [exact H'|].
    rewrite P', P1. cbn [dimension_product fold_right].
    fold (dimension_product dl). now rewrite dimension_mul_assoc.
Qed.

Lemma divide_by_terms_dimension (ts : list dynamic_unit)
  (dts : list dimension) :
  Forall (fun t => forall p ds du p',
            Forall2 has_dimension p ds -> dimensions_in_range t ->
            Dynamic.dimension_of t = Ok du ->
            Dynamic.divide_by p t = Ok p' ->
            exists ds',
              Forall2 has_dimension p' ds' /\
              dimension_product ds' =
                dimension_mul (dimension_product ds) (dimension_pow du (-1)))
         ts ->
  Forall dimensions_in_range ts -> Forall2 has_dimension ts dts ->
  forall p ds p',
  Forall2 has_dimension p ds ->
  Dynamic.divide_by p (dynamic_product ts) = Ok p' ->
  exists ds',
    Forall2 has_dimension p' ds' /\
    dimension_product ds' =
      dimension_mul (dimension_product ds)
                    (dimension_pow (dimension_product dts) (-1)).
Proof.
  intros IH Hu Hts. revert IH Hu.
  induction Hts as [|t dt l dl Et _ IHl]; intros IH Hu p ds p' Hp Ep.
  - injection Ep as <-. exists ds. split; [exact Hp|].
    cbn [dimension_product fold_right].
    rewrite dimension_pow_dimensionless. symmetry.
    apply dimension_mul_1_r, dimension_product_in_range.
  - inversion IH as [|? ? IHt IHl']; subst.
    inversion Hu as [|? ? Ht Hl]; subst.
    rewrite divide_by_cons in Ep.
    destruct (Dynamic.divide_by p t) as [p1| |] eqn:E1;
      cbn [bind] in Ep; try discriminate.
    destruct (IHt p ds dt p1 Hp Ht Et E1) as (ds1 & H1 & P1).
    destruct (IHl IHl' Hl p1 ds1 p' H1 Ep) as (ds' & H' & P').
    exists ds'. split; [exact H'|].
    rewrite P', P1. cbn [dimension_product fold_right].
    fold (dimension_product dl).
    now rewrite dimension_pow_mul, dimension_mul_assoc.
Qed.

Lemma product_dimension_terms (ts : list dynamic_unit) (du : dimension) :
  Forall dimensions_in_range ts ->
  Dynamic.dimension_of (dynamic_product ts) = Ok du ->
  exists dts, Forall2 has_dimension ts dts /\ du = dimension_product dts.
Proof.
  intros Hu Eu. apply dimension_of_product in Eu.
  destruct Eu as (t & l & dt & dl & -> & Et & Hl & ->).
  exists (dt :: dl). split; [now constructor|].
  inversion Hu; subst. rewrite fold_left_dimension_product; [reflexivity|].
  eapply dimension_of_in_range; eassumption.
Qed.

Lemma multiply_with_dimension (u : dynamic_unit) :
  forall p ds du p',
  Forall2 has_dimension p ds -> dimensions_in_range u ->
  Dynamic.dimension_of u = Ok du -> Dynamic.multiply_with p u = Ok p' ->
  exists ds',
    Forall2 has_dimension p' ds' /\
    dimension_product ds' = dimension_mul (dimension_product ds) du.
Proof.
  induction u as [n|b e _|ts IH] using dynamic_unit_ind;
    intros p ds du p' Hp Hu Eu Ep.
  - destruct (multiply_with_exp_dimension p ds _ 1 du Hp Eu p' Ep)
      as (ds' & H' & E').
    exists ds'. split; [exact H'|].
    rewrite E', dimension_pow_1; [reflexivity|].
    injection Eu as <-. exact Hu.
  - cbn [Dynamic.dimension_of] in Eu.
    destruct (Dynamic.dimension_of b) as [db| |] eqn:Eb; cbn [bind] in Eu;
      try discriminate.
    injection Eu as <-.
    exact (multiply_with_exp_dimension p ds b e db Hp Eb p' Ep).
  - apply dimensions_in_range_product in Hu.
    destruct (product_dimension_terms ts du Hu Eu) as (dts & Hts & ->).
    exact (multiply_with_terms_dimension ts dts IH Hu Hts p ds p' Hp Ep).
Qed.

Lemma divide_by_dimension (u : dynamic_unit) :
  forall p ds du p',
  Forall2 has_dimension p ds -> dimensions_in_range u ->
  Dynamic.dimension_of u = Ok du -> Dynamic.divide_by p u = Ok p' ->
  exists ds',
    Forall2 has_dimension p' ds' /\
    dimension_product ds' =
      dimension_mul (dimension_product ds) (dimension_pow du (-1)).
Proof.
  induction u as [n|b e _|ts IH] using dynamic_unit_ind;
    intros p ds du p' Hp Hu Eu Ep.
  - exact (multiply_with_exp_dimension p ds _ (int_neg 1) du Hp Eu p' Ep).
  - cbn [Dynamic.dimension_of] in Eu.
    destruct (Dynamic.dimension_of b) as [db| |] eqn:Eb; cbn [bind] in Eu;
      try discriminate.
    injection Eu as <-.
    destruct (multiply_with_exp_dimension p ds b (int_neg e) db Hp Eb p' Ep)
      as (ds' & H' & E').
    exists ds'. split; [exact H'|]. now rewrite E', dimension_pow_neg.
  - apply dimensions_in_range_product in Hu.
    destruct (product_dimension_terms ts du Hu Eu) as (dts & Hts & ->).
    exact (divide_by_terms_dimension ts dts IH Hu Hts p ds p' Hp Ep).
Qed.

Lemma simplify_built_product_dimension (p : list dynamic_unit)
  (ds : list dimension) :
  Forall dimensions_in_range p -> Forall2 has_dimension p ds ->
  Dynamic.dimension_of (Dynamic.simplify (dynamic_product p)) =
    Ok (dimension_product ds).
Proof.
  intros Hr H. apply simplify_terms_dimension; try assumption.
  apply Forall_forall. intros t _ d. apply simplify_dimension.
Qed.



(** * Canonical products of the static algebra *)

Lemma static_unit_eqb_neq (A B : static_unit) :
  static_unit_eqb A B = false <-> A <> B.
Proof.
  split.
  - intros E ->. now rewrite static_unit_eqb_refl in E.
  - intros Hne. destruct (static_unit_eqb A B) eqn:E; [|reflexivity].
    apply static_unit_eqb_eq in E. contradiction.
Qed.

Lemma multiply_with_pow_bases (L : list static_unit) (B : static_unit)
  (E : Z) :
  Forall is_static_pow L ->
  Forall is_static_pow (Static.multiply_with_pow L B E) /\
  (In B (map term_base L) ->
   map term_base (Static.multiply_with_pow L B E) = map term_base L) /\
  (~ In B (map term_base L) ->
   map term_base (Static.multiply_with_pow L B E) = map term_base L ++ [B]).
Proof.
  induction 1 as [|t l Ht Hl IH].
  - cbn. split; [repeat constructor|].
    split; [intros []|reflexivity].
  - destruct t as [n|B1 E1|Us]; try contradiction.
    cbn [Static.multiply_with_pow map term_base].
    destruct IH as (IH1 & IH2 & IH3).
    destruct (static_unit_eqb B1 B) eqn:Eq.
    + apply static_unit_eqb_eq in Eq. subst B1.
      split; [constructor; [exact I|exact Hl]|].
      split; [reflexivity|].
      intros Hin. exfalso. apply Hin. now left.
    + apply static_unit_eqb_neq in Eq.
      cbn [map term_base].
      split; [constructor; [exact I|exact IH1]|].
      split.
      * intros [Hin|Hin]; [contradiction|]. now rewrite IH2.
      * intros Hnin. rewrite IH3; [reflexivity|].
        intros Hin. apply Hnin. now right.
Qed.

Lemma divide_by_pow_bases (L : list static_unit) (B : static_unit) (E : Z) :
  Forall is_static_pow L ->
  Forall is_static_pow (Static.divide_by_pow L B E) /\
  (In B (map term_base L) ->
   map term_base (Static.divide_by_pow L B E) = map term_base L) /\
  (~ In B (map term_base L) ->
   map term_base (Static.divide_by_pow L B E) = map term_base L ++ [B]).
Proof.
  induction 1 as [|t l Ht Hl IH].
  - cbn. split; [repeat constructor|].
    split; [intros []|reflexivity].
  - destruct t as [n|B1 E1|Us]; try contradiction.
    cbn [Static.divide_by_pow map term_base].
    destruct IH as (IH1 & IH2 & IH3).
    destruct (static_unit_eqb B1 B) eqn:Eq.
    + apply static_unit_eqb_eq in Eq. subst B1.
      split; [constructor; [exact I|exact Hl]|].
      split; [reflexivity|].
      intros Hin. exfalso. apply Hin. now left.
    + apply static_unit_eqb_neq in Eq.
      cbn [map term_base].
      split; [constructor; [exact I|exact IH1]|].
      split.
      * intros [Hin|Hin]; [contradiction|]. now rewrite IH2.
      * intros Hnin. rewrite IH3; [reflexivity|].
        intros Hin. apply Hnin. now right.
Qed.

Lemma NoDup_snoc {A : Type} (l : list A) (x : A) :
  NoDup l -> ~ In x l -> NoDup (l ++ [x]).
Proof.
  intros Hl Hx. induction Hl as [|y l Hy Hl IH]; cbn.
  - constructor; [intros []|constructor].
  - constructor.
    + rewrite in_app_iff. intros [Hin|[->|[]]]; [contradiction|].
      apply Hx. now left.
    + apply IH. intros Hin. apply Hx. now right.
Qed.

Lemma bases_canonical (L L' : list static_unit) (B : static_unit) :
  canonical L -> Forall is_static_pow L' ->
  (In B (map term_base L) -> map term_base L' = map term_base L) ->
  (~ In B (map term_base L) -> map term_base L' = map term_base L ++ [B]) ->
  canonical L'.
Proof.
  intros [Hp Hn] Hp' Hin Hnin. split; [exact Hp'|].
  destruct (in_dec (fun x y =>
              match static_unit_eqb x y as r
                return static_unit_eqb x y = r -> {x = y} + {x <> y} with
              | true => fun E => left (proj1 (static_unit_eqb_eq x y) E)
              | false => fun E => right (proj1 (static_unit_eqb_neq x y) E)
              end eq_refl) B (map term_base L)) as [H|H].
  - now rewrite Hin.
  - rewrite Hnin by exact H. now apply NoDup_snoc.
Qed.

Lemma multiply_with_pow_canonical (L : list static_unit) (B : static_unit)
  (E : Z) :
  canonical L -> canonical (Static.multiply_with_pow L B E).
Proof.
  intros HL. destruct (multiply_with_pow_bases L B E (proj1 HL))
    as (H1 & H2 & H3).
  exact (bases_canonical L _ B HL H1 H2 H3).
Qed.

Lemma divide_by_pow_canonical (L : list static_unit) (B : static_unit)
  (E : Z) :
  canonical L -> canonical (Static.divide_by_pow L B E).
Proof.
  intros HL. destruct (divide_by_pow_bases L B E (proj1 HL))
    as (H1 & H2 & H3).
  exact (bases_canonical L _ B HL H1 H2 H3).
Qed.

Lemma static_multiply_with_cons (L : list static_unit) (F : static_unit)
  (N : list static_unit) :
  Static.multiply_with L (static_product (F :: N)) =
  Static.multiply_with (Static.multiply_with L F) (static_product N).
Proof. reflexivity. Qed.

Lemma static_divide_by_cons (L : list static_unit) (F : static_unit)
  (N : list static_unit) :
  Static.divide_by L (static_product (F :: N)) =
  Static.divide_by (Static.divide_by L F) (static_product N).
Proof. reflexivity. Qed.

Lemma multiply_with_canonical (B : static_unit) : forall L,
  canonical L -> canonical (Static.multiply_with L B).
Proof.
  induction B as [n|Base E _|Us IH] using static_unit_ind; intros L HL.
  - now apply multiply_with_pow_canonical.
  - now apply multiply_with_pow_canonical.
  - revert L HL. induction IH as [|F N IHF _ IHN]; intros L HL.
    + exact HL.
    + rewrite static_multiply_with_cons. apply IHN, IHF, HL.
Qed.

Lemma divide_by_canonical (B : static_unit) : forall L,
  canonical L -> canonical (Static.divide_by L B).
Proof.
  induction B as [n|Base E _|Us IH] using static_unit_ind; intros L HL.
  - now apply divide_by_pow_canonical.
  - now apply divide_by_pow_canonical.
  - revert L HL. induction IH as [|F N IHF _ IHN]; intros L HL.
    + exact HL.
    + rewrite static_divide_by_cons. apply IHN, IHF, HL.
Qed.

(** X15: the compile-time products are canonical.  [canonicalize_t] yields
    a product all of whose terms are [static_pow] with pairwise different
    bases; [multiply_with] and [divide_by] keep such a product canonical;
    and multiplying with a power either changes the exponent of the term
    with the same base in place or appends the new base at the end, the
    other bases keeping their order. *)
Theorem static_products_stay_canonical :
  (forall T, canonical (Static.canonicalize T)) /\
  (forall L B, canonical L ->
     canonical (Static.multiply_with L B) /\
     canonical (Static.divide_by L B)) /\
  (forall L B E, canonical L ->
     (In B (map term_base L) ->
      map term_base (Static.multiply_with_pow L B E) = map term_base L) /\
     (~ In B (map term_base L) ->
      map term_base (Static.multiply_with_pow L B E) =
        map term_base L ++ [B])).
Proof.
  assert (Hnil : canonical []) by (split; constructor).
  split; [|split].
  - intros T. now apply multiply_with_canonical.
  - intros L B HL. split;
      [now apply multiply_with_canonical|now apply divide_by_canonical].
  - intros L B E [HL _]. now destruct (multiply_with_pow_bases L B E HL).
Qed.

Lemma static_products_stay_canonical_witness :
  canonical
    (Static.divide_by
       (Static.canonicalize
          (static_product [static_named meter; static_named second;
                           static_named meter]))
       (static_named second)).
Proof.
  destruct static_products_stay_canonical as (Hc & Hm & _).
  apply Hm, Hc.
Defined.

(** * Dimensions of the static algebra *)

Local Abbreviation sdim := Static.static_dimension.

Lemma static_dimensions_in_range_product (Us : list static_unit) :
  static_dimensions_in_range (static_product Us) <->
  Forall static_dimensions_in_range Us.
Proof.
  induction Us as [|t l IH].
  - split; [constructor|intros _; exact I].
  - change (static_dimensions_in_range (static_product (t :: l)))
      with (static_dimensions_in_range t /\
            static_dimensions_in_range (static_product l)).
    rewrite IH. split.
    + intros [Ht Hl]. now constructor.
    + intros H. inversion H; subst. now split.
Qed.

Lemma static_dimension_cons (F G : static_unit) (l : list static_unit) :
  sdim (static_product (F :: G :: l)) =
  dimension_mul (sdim F) (sdim (static_product (G :: l))).
Proof. reflexivity. Qed.

Lemma static_dimension_in_range (U : static_unit) :
  static_dimensions_in_range U -> dimension_in_range (sdim U).
Proof.
  induction U as [n|B E _|Us IH] using static_unit_ind; intros HU.
  - exact HU.
  - apply dimension_pow_in_range.
  - apply static_dimensions_in_range_product in HU.
    destruct Us as [|F [|G l]].
    + apply dimensionless_in_range.
    + inversion IH; subst. inversion HU; subst. auto.
    + rewrite static_dimension_cons. apply dimension_mul_in_range.
Qed.

Lemma static_dimension_product (Us : list static_unit) :
  Forall static_dimensions_in_range Us ->
  sdim (static_product Us) = dimension_product (map sdim Us).
Proof.
  induction 1 as [|F l HF Hl IH]; [reflexivity|].
  destruct l as [|G l].
  - cbn [map dimension_product fold_right].
    rewrite dimension_mul_1_r by now apply static_dimension_in_range.
    reflexivity.
  - rewrite static_dimension_cons, IH. reflexivity.
Qed.

Lemma dimension_product_cons (d : dimension) (ds : list dimension) :
  dimension_product (d :: ds) = dimension_mul d (dimension_product ds).
Proof. reflexivity. Qed.

Lemma dimension_pow_sub (d : dimension) (a b : Z) :
  dimension_pow d (int_sub a b) =
  dimension_mul (dimension_pow d a) (dimension_pow (dimension_pow d b) (-1)).
Proof.
  rewrite int_sub_as_add, dimension_pow_add, dimension_pow_pow.
  reflexivity.
Qed.

Lemma static_multiply_with_pow_dimension (L : list static_unit)
  (B : static_unit) (E : Z) :
  dimension_product (map sdim (Static.multiply_with_pow L B E)) =
  dimension_mul (dimension_product (map sdim L)) (dimension_pow (sdim B) E).
Proof.
  induction L as [|t l IH].
  - cbn [Static.multiply_with_pow map]. rewrite dimension_product_cons.
    change (dimension_product []) with dimensionless.
    change (sdim (static_pow B E)) with (dimension_pow (sdim B) E).
    rewrite dimension_mul_1_r, dimension_mul_1_l
      by apply dimension_pow_in_range.
    reflexivity.
  - assert (Hskip :
      dimension_product (map sdim (t :: Static.multiply_with_pow l B E)) =
      dimension_mul (dimension_product (map sdim (t :: l)))
                    (dimension_pow (sdim B) E)).
    { cbn [map]. rewrite !dimension_product_cons, IH.
      apply dimension_mul_assoc. }
    destruct t as [n|B1 E1|Us]; cbn [Static.multiply_with_pow];
      try exact Hskip.
    destruct (static_unit_eqb B1 B) eqn:Eq; [|exact Hskip].
    apply static_unit_eqb_eq in Eq. subst B1.
    cbn [map]. rewrite !dimension_product_cons.
    change (sdim (static_pow B (int_add E1 E)))
      with (dimension_pow (sdim B) (int_add E1 E)).
    change (sdim (static_pow B E1)) with (dimension_pow (sdim B) E1).
    rewrite dimension_pow_add. apply dimension_mul_swap.
Qed.

Lemma static_divide_by_pow_dimension (L : list static_unit)
  (B : static_unit) (E : Z) :
  dimension_product (map sdim (Static.divide_by_pow L B E)) =
  dimension_mul (dimension_product (map sdim L))
                (dimension_pow (dimension_pow (sdim B) E) (-1)).
Proof.
  induction L as [|t l IH].
  - cbn [Static.divide_by_pow map]. rewrite dimension_product_cons.
    change (dimension_product []) with dimensionless.
    change (sdim (static_pow B (int_neg E)))
      with (dimension_pow (sdim B) (int_neg E)).
    rewrite dimension_pow_neg.
    rewrite dimension_mul_1_r, dimension_mul_1_l
      by apply dimension_pow_in_range.
    reflexivity.
  - assert (Hskip :
      dimension_product (map sdim (t :: Static.divide_by_pow l B E)) =
      dimension_mul (dimension_product (map sdim (t :: l)))
                    (dimension_pow (dimension_pow (sdim B) E) (-1))).
    { cbn [map]. rewrite !dimension_product_cons, IH.
      apply dimension_mul_assoc. }
    destruct t as [n|B1 E1|Us]; cbn [Static.divide_by_pow];
      try exact Hskip.
    destruct (static_unit_eqb B1 B) eqn:Eq; [|exact Hskip].
    apply static_unit_eqb_eq in Eq. subst B1.
    cbn [map]. rewrite !dimension_product_cons.
    change (sdim (static_pow B (int_sub E1 E)))
      with (dimension_pow (sdim B) (int_sub E1 E)).
    change (sdim (static_pow B E1)) with (dimension_pow (sdim B) E1).
    rewrite dimension_pow_sub. apply dimension_mul_swap.
Qed.

Lemma static_multiply_with_pow_in_range (L : list static_unit)
  (B : static_unit) (E : Z) :
  Forall static_dimensions_in_range L -> static_dimensions_in_range B ->
  Forall static_dimensions_in_range (Static.multiply_with_pow L B E).
Proof.
  intros HL HB. induction HL as [|t l Ht Hl IH].
  - repeat constructor. exact HB.
  - destruct t as [n|B1 E1|Us]; cbn [Static.multiply_with_pow];
      try (constructor; [exact Ht|exact IH]).
    destruct (static_unit_eqb B1 B); constructor; auto.
Qed.

Lemma static_divide_by_pow_in_range (L : list static_unit)
  (B : static_unit) (E : Z) :
  Forall static_dimensions_in_range L -> static_dimensions_in_range B ->
  Forall static_dimensions_in_range (Static.divide_by_pow L B E).
Proof.
  intros HL HB. induction HL as [|t l Ht Hl IH].
  - repeat constructor. exact HB.
  - destruct t as [n|B1 E1|Us]; cbn [Static.divide_by_pow];
      try (constructor; [exact Ht|exact IH]).
    destruct (static_unit_eqb B1 B); constructor; auto.
Qed.

Lemma static_multiply_with_dimension (B : static_unit) : forall L,
  Forall static_dimensions_in_range L -> static_dimensions_in_range B ->
  Forall static_dimensions_in_range (Static.multiply_with L B) /\
  dimension_product (map sdim (Static.multiply_with L B)) =
  dimension_mul (dimension_product (map sdim L)) (sdim B).
Proof.
  induction B as [n|Base E _|Us IH] using static_unit_ind; intros L HL HB.
  - split; [now apply static_multiply_with_pow_in_range|].
    cbn [Static.multiply_with].
    rewrite static_multiply_with_pow_dimension, dimension_pow_1
      by exact HB.
    reflexivity.
  - split; [now apply static_multiply_with_pow_in_range|].
    apply static_multiply_with_pow_dimension.
  - apply static_dimensions_in_range_product in HB.
    rewrite (static_dimension_product Us HB).
    revert L HL. induction IH as [|F N IHF _ IHN]; intros L HL.
    + split; [exact HL|].
      change (dimension_product (map sdim [])) with dimensionless.
      rewrite dimension_mul_1_r by apply dimension_product_in_range.
      reflexivity.
    + inversion HB as [|? ? HF HN]; subst.
      rewrite static_multiply_with_cons.
      destruct (IHF L HL HF) as [R1 D1].
      destruct (IHN HN _ R1) as [R2 D2].
      split; [exact R2|].
      rewrite D2, D1. cbn [map]. rewrite dimension_product_cons.
      symmetry. apply dimension_mul_assoc.
Qed.

Lemma static_divide_by_dimension (B : static_unit) : forall L,
  Forall static_dimensions_in_range L -> static_dimensions_in_range B ->
  Forall static_dimensions_in_range (Static.divide_by L B) /\
  dimension_product (map sdim (Static.divide_by L B)) =
  dimension_mul (dimension_product (map sdim L))
                (dimension_pow (sdim B) (-1)).
Proof.
  induction B as [n|Base E _|Us IH] using static_unit_ind; intros L HL HB.
  - split; [now apply static_divide_by_pow_in_range|].
    cbn [Static.divide_by].
    rewrite static_divide_by_pow_dimension, dimension_pow_1
      by exact HB.
    reflexivity.
  - split; [now apply static_divide_by_pow_in_range|].
    apply static_divide_by_pow_dimension.
  - apply static_dimensions_in_range_product in HB.
    rewrite (static_dimension_product Us HB).
    revert L HL. induction IH as [|F N IHF _ IHN]; intros L HL.
    + split; [exact HL|].
      change (dimension_product (map sdim [])) with dimensionless.
      rewrite dimension_pow_dimensionless.
      rewrite dimension_mul_1_r by apply dimension_product_in_range.
      reflexivity.
    + inversion HB as [|? ? HF HN]; subst.
      rewrite static_divide_by_cons.
      destruct (IHF L HL HF) as [R1 D1].
      destruct (IHN HN _ R1) as [R2 D2].
      split; [exact R2|].
      rewrite D2, D1. cbn [map]. rewrite dimension_product_cons.
      rewrite dimension_pow_mul. symmetry. apply dimension_mul_assoc.
Qed.

Lemma static_simplify_product_dimension (l : list static_unit) :
  Forall static_dimensions_in_range l ->
  sdim (Static.simplify_product l) = dimension_product (map sdim l) /\
  static_dimensions_in_range (Static.simplify_product l).
Proof.
  intros Hl. destruct l as [|T [|T' l]].
  - split; [reflexivity|]. cbn. apply dimensionless_in_range.
  - inversion Hl; subst. split; [|assumption].
    cbn [Static.simplify_product map]. rewrite dimension_product_cons.
    change (dimension_product []) with dimensionless.
    rewrite dimension_mul_1_r by now apply static_dimension_in_range.
    reflexivity.
  - split.
    + now apply static_dimension_product.
    + now apply static_dimensions_in_range_product.
Qed.

Lemma static_kept_false (T : static_unit) :
  Static.kept T = false -> T = static_named unitless.
Proof. destruct T as [[]| |]; cbn; congruence. Qed.

Lemma static_simplify_terms_dimension (Ts : list static_unit) :
  Forall (fun T => static_dimensions_in_range T ->
                   sdim (Static.simplify T) = sdim T /\
                   static_dimensions_in_range (Static.simplify T)) Ts ->
  Forall static_dimensions_in_range Ts ->
  dimension_product
    (map sdim (filter Static.kept (map Static.simplify Ts))) =
  dimension_product (map sdim Ts) /\
  Forall static_dimensions_in_range
    (filter Static.kept (map Static.simplify Ts)).
Proof.
  intros IH HR. induction IH as [|t l Ht _ IHl].
  - split; [reflexivity|constructor].
  - inversion HR as [|? ? Rt Rl]; subst.
    destruct (Ht Rt) as [Dt St]. destruct (IHl Rl) as [Dl Sl].
    cbn [map filter]. destruct (Static.kept (Static.simplify t)) eqn:K.
    + split; [|now constructor].
      cbn [map]. rewrite !dimension_product_cons, Dt, Dl. reflexivity.
    + split; [|exact Sl].
      apply static_kept_false in K. rewrite K in Dt.
      rewrite dimension_product_cons, <- Dt, Dl.
      change (sdim (static_named unitless)) with dimensionless.
      rewrite dimension_mul_1_l by apply dimension_product_in_range.
      reflexivity.
Qed.

Lemma static_simplify_dimension (T : static_unit) :
  static_dimensions_in_range T ->
  sdim (Static.simplify T) = sdim T /\
  static_dimensions_in_range (Static.simplify T).
Proof.
  induction T as [n|B E _|Ts IH] using static_unit_ind; intros HT.
  - split; [reflexivity|exact HT].
  - cbn [Static.simplify].
    change (sdim (static_pow B E)) with (dimension_pow (sdim B) E).
    destruct (Z.eqb_spec E 0) as [->|E0].
    + rewrite dimension_pow_0. split; [reflexivity|].
      cbn. apply dimensionless_in_range.
    + destruct (Z.eqb_spec E 1) as [->|E1].
      * rewrite dimension_pow_1 by now apply static_dimension_in_range.
        split; [reflexivity|exact HT].
      * split; [reflexivity|exact HT].
  - apply static_dimensions_in_range_product in HT.
    rewrite static_simplify_product.
    destruct (static_simplify_terms_dimension Ts IH HT) as [D R].
    destruct (static_simplify_product_dimension _ R) as [D' R'].
    split; [|exact R'].
    rewrite D', D. symmetry. now apply static_dimension_product.
Qed.

(** X16: the compile-time [simplify_t] keeps [static_dimension()], for a
    description whose named classes have [int] vectors as dimensions. *)
Theorem static_simplify_keeps_the_dimension (T : static_unit) :
  static_dimensions_in_range T ->
  Static.static_dimension (Static.simplify T) = Static.static_dimension T /\
  static_dimensions_in_range (Static.simplify T).
Proof. apply static_simplify_dimension. Qed.

Lemma static_simplify_keeps_the_dimension_witness :
  let T := static_product [static_pow (static_named meter) 1;
                           static_pow (static_named second) 0;
                           static_named unitless] in
  Static.static_dimension (Static.simplify T) = Static.static_dimension T.
Proof.
  intros T.
  assert (HT : static_dimensions_in_range T).
  { cbn. unfold dimension_in_range, int_range. cbn. lia. }
  destruct (static_simplify_keeps_the_dimension T HT) as [H _]. exact H.
Defined.

Lemma static_canonicalize_dimension (A : static_unit) :
  static_dimensions_in_range A ->
  Forall static_dimensions_in_range (Static.canonicalize A) /\
  dimension_product (map sdim (Static.canonicalize A)) = sdim A.
Proof.
  intros HA.
  destruct (static_multiply_with_dimension A [] (Forall_nil _) HA) as [R D].
  split; [exact R|].
  unfold Static.canonicalize. rewrite D.
  change (dimension_product (map sdim [])) with dimensionless.
  apply dimension_mul_1_l. now apply static_dimension_in_range.
Qed.

Lemma static_multiply_dimension (A B : static_unit) :
  static_dimensions_in_range A -> static_dimensions_in_range B ->
  sdim (Static.multiply A B) = dimension_mul (sdim A) (sdim B) /\
  static_dimensions_in_range (Static.multiply A B).
Proof.
  intros HA HB. destruct (static_canonicalize_dimension A HA) as [RA DA].
  destruct (static_multiply_with_dimension B _ RA HB) as [R D].
  apply static_dimensions_in_range_product in R.
  destruct (static_simplify_dimension _ R) as [DS RS].
  split; [|exact RS].
  unfold Static.multiply. rewrite DS.
  rewrite static_dimension_product
    by now apply static_dimensions_in_range_product.
  now rewrite D, DA.
Qed.

Lemma static_divide_dimension (A B : static_unit) :
  static_dimensions_in_range A -> static_dimensions_in_range B ->
  sdim (Static.divide A B) = dimension_div (sdim A) (sdim B) /\
  static_dimensions_in_range (Static.divide A B).
Proof.
  intros HA HB. destruct (static_canonicalize_dimension A HA) as [RA DA].
  destruct (static_divide_by_dimension B _ RA HB) as [R D].
  apply static_dimensions_in_range_product in R.
  destruct (static_simplify_dimension _ R) as [DS RS].
  split; [|exact RS].
  unfold Static.divide. rewrite DS.
  rewrite static_dimension_product
    by now apply static_dimensions_in_range_product.
  now rewrite D, DA, dimension_div_as_mul.
Qed.

(** X17: [operator*] and [operator/] on quantities with compile-time
    units: the value is the product (quotient) of the values and the unit
    of the result, [multiply<Unit1, Unit2>] ([divide<Unit1, Unit2>]), has
    the product (quotient) of the two dimensions. *)
Theorem quantity_product_and_quotient_dimensions
  {T : Type} {payload : Numeric T} (a b : quantity T) :
  static_dimensions_in_range (unit_type a) ->
  static_dimensions_in_range (unit_type b) ->
  let p := quantity_mul a b in
  let q := quantity_div a b in
  Static.static_dimension (unit_type p) =
    dimension_mul (Static.static_dimension (unit_type a))
                  (Static.static_dimension (unit_type b)) /\
  Static.static_dimension (unit_type q) =
    dimension_div (Static.static_dimension (unit_type a))
                  (Static.static_dimension (unit_type b)) /\
  value p = mul (value a) (value b) /\
  value q = div (value a) (value b) /\
  static_dimensions_in_range (unit_type p) /\
  static_dimensions_in_range (unit_type q).
Proof.
  intros Ha Hb p q.
  destruct (static_multiply_dimension _ _ Ha Hb) as [Dm Rm].
  destruct (static_divide_dimension _ _ Ha Hb) as [Dd Rd].
  repeat split; assumption.
Qed.

Lemma quantity_product_and_quotient_dimensions_witness :
  let a := mk_quantity (static_named meter) 6 in
  let b := mk_quantity (static_pow (static_named second) 2) 3 in
  Static.static_dimension (unit_type (quantity_div a b)) =
    dimension_div dimension_length (dimension_pow dimension_time 2) /\
  value (quantity_div a b) = 2.
Proof.
  intros a b.
  assert (Ha : static_dimensions_in_range (unit_type a)).
  { cbn. unfold dimension_in_range, int_range. cbn. lia. }
  assert (Hb : static_dimensions_in_range (unit_type b)).
  { cbn. unfold dimension_in_range, int_range. cbn. lia. }
  destruct (quantity_product_and_quotient_dimensions
              (payload := Numeric_Z) a b Ha Hb) as (_ & Hd & _ & Hv & _).
  split; [exact Hd|exact Hv].
Defined.

(** * Roots *)

Lemma static_root_helper_pow (B : static_unit) (E1 E : Z) (R : static_unit) :
  static_root_helper (static_pow B E1) E = Some R <->
  (E <> 0 /\ ~ (E1 = int_min /\ E = -1) /\ Z.rem E1 E = 0 /\
   R = static_pow B (int_quot E1 E)).
Proof.
  cbn [static_root_helper]. unfold int_rem.
  destruct (Z.eqb_spec E 0) as [E0|E0]; cbn [orb].
  - split; [discriminate|]. intros (H & _). contradiction.
  - destruct (Z.eqb_spec E1 int_min) as [Em|Em];
      destruct (Z.eqb_spec E (-1)) as [En|En]; cbn [andb];
      try (split; [discriminate|]; intros (_ & H & _); exfalso;
           apply H; now split).
    all: destruct (Z.eqb_spec (Z.rem E1 E) 0) as [Er|Er];
      (split;
       [ intros H; try discriminate; injection H as <-;
         repeat split; try assumption; intros [? ?]; contradiction
       | intros (_ & _ & Hr & ->); try contradiction; reflexivity ]).
Qed.

Lemma static_root_helper_product (Units : list static_unit) (E : Z)
  (R : static_unit) :
  static_root_helper (static_product Units) E = Some R <->
  exists roots,
    R = static_product roots /\
    Forall2 (fun T r => static_root_helper T E = Some r) Units roots.
Proof.
  cbn [static_root_helper].
  set (helper_units := fix helper_units (l : list static_unit)
           : option (list static_unit) :=
           match l with
           | [] => Some []
           | FirstUnit :: NextUnits =>
               match static_root_helper FirstUnit E,
                     helper_units NextUnits with
               | Some first_root, Some next_root =>
                   Some (first_root :: next_root)
               | _, _ => None
               end
           end).
  assert (H : forall l roots,
            helper_units l = Some roots <->
            Forall2 (fun T r => static_root_helper T E = Some r) l roots).
  { induction l as [|t l IH]; intros roots.
    - cbn. split.
      + intros [= <-]. constructor.
      + intros H. inversion H. reflexivity.
    - cbn [helper_units]. split.
      + destruct (static_root_helper t E) as [fr|] eqn:Et; [|discriminate].
        destruct (helper_units l) as [nr|] eqn:El; [|discriminate].
        intros [= <-]. constructor; [exact Et|]. now apply IH.
      + intros H. inversion H as [|? r ? rs Hr Hrs]; subst.
        rewrite Hr. apply IH in Hrs. now rewrite Hrs. }
  split.
  - destruct (helper_units Units) as [roots|] eqn:Eh; [|discriminate].
    intros [= <-]. exists roots. split; [reflexivity|]. now apply H.
  - intros (roots & -> & HF). apply H in HF. now rewrite HF.
Qed.

Lemma static_root_defined (Base : static_unit) (E : Z) :
  (exists R, static_root Base E = Some R) <->
  Forall (root_defined E) (Static.canonicalize Base).
Proof.
  unfold static_root. split.
  - intros [R HR].
    destruct (static_root_helper (static_product (Static.canonicalize Base)) E)
      as [root|] eqn:Eh; [|discriminate].
    apply static_root_helper_product in Eh. destruct Eh as (roots & _ & HF).
    assert (Hc : Forall is_static_pow (Static.canonicalize Base)).
    { apply (multiply_with_canonical Base []). split; constructor. }
    clear HR. induction HF as [|t r l rs Ht _ IH]; constructor.
    + destruct t as [n|B E1|Us].
      * discriminate.
      * apply static_root_helper_pow in Ht.
        destruct Ht as (H0 & Hm & Hr & _). now exists B, E1.
      * inversion Hc as [|? ? Hp _]. contradiction.
    + apply IH. now inversion Hc.
  - intros HF.
    assert (H : exists roots,
              Forall2 (fun T r => static_root_helper T E = Some r)
                      (Static.canonicalize Base) roots).
    { induction HF as [|t l (B & E1 & -> & H0 & Hm & Hr) _ [rs IH]].
      - exists []. constructor.
      - exists (static_pow B (int_quot E1 E) :: rs). constructor; [|exact IH].
        now apply static_root_helper_pow. }
    destruct H as [roots H].
    assert (Eh : static_root_helper
                   (static_product (Static.canonicalize Base)) E =
                 Some (static_product roots)).
    { apply static_root_helper_product. now exists roots. }
    rewrite Eh. eexists. reflexivity.
Qed.

Lemma static_root_of_pow (U : static_unit) (e : Z) :
  e <> 0 -> static_root (static_pow U e) e = Some U.
Proof.
  intros He. unfold static_root, Static.canonicalize.
  cbn [Static.multiply_with Static.multiply_with_pow].
  assert (Eh : static_root_helper (static_product [static_pow U e]) e =
               Some (static_product [static_pow U 1])).
  { apply static_root_helper_product. exists [static_pow U 1].
    split; [reflexivity|]. constructor; [|constructor].
    apply static_root_helper_pow. repeat split.
    - exact He.
    - intros [-> E']. unfold int_min in E'. lia.
    - apply Z.rem_same. exact He.
    - unfold int_quot. rewrite Z.quot_same by exact He. reflexivity. }
  rewrite Eh, static_simplify_single. reflexivity.
Qed.

Lemma dynamic_root_of_exp (b : dynamic_unit) (e : Z) :
  e <> 0 -> Dynamic.root (dynamic_exp b e) e = Ok b.
Proof.
  intros He. cbn [Dynamic.root]. unfold int_rem, int_quot.
  destruct (Z.eqb_spec e 0) as [|_]; [contradiction|]. cbn [orb].
  destruct (Z.eqb_spec e int_min) as [Em|_];
    destruct (Z.eqb_spec e (-1)) as [En|_]; cbn [andb];
    try (exfalso; unfold int_min in Em; lia).
  all: rewrite Z.rem_same, Z.quot_same by exact He; reflexivity.
Qed.

Lemma static_multiply_named_square (n : named) :
  Static.multiply (static_named n) (static_named n) =
  static_pow (static_named n) 2.
Proof.
  unfold Static.multiply, Static.canonicalize.
  cbn [Static.multiply_with Static.multiply_with_pow].
  rewrite static_unit_eqb_refl. change (int_add 1 1) with 2.
  now rewrite static_simplify_single.
Qed.

Lemma static_multiply_named_cube (n : named) :
  Static.multiply (static_pow (static_named n) 2) (static_named n) =
  static_pow (static_named n) 3.
Proof.
  unfold Static.multiply, Static.canonicalize.
  cbn [Static.multiply_with Static.multiply_with_pow].
  rewrite static_unit_eqb_refl. change (int_add 2 1) with 3.
  now rewrite static_simplify_single.
Qed.

Lemma dynamic_mul_named_square (n : named) :
  Dynamic.mul (dynamic_named n) (dynamic_named n) =
  Ok (dynamic_exp (dynamic_named n) 2).
Proof.
  unfold Dynamic.mul.
  cbn [Dynamic.multiply_with Dynamic.multiply_with_exp Dynamic.push_back
       app bind].
  rewrite unit_eq_named, named_equal_refl. cbn [bind].
  change (int_add 1 1) with 2.
  now rewrite dynamic_simplify_single.
Qed.

Lemma dynamic_mul_named_cube (n : named) :
  Dynamic.mul (dynamic_exp (dynamic_named n) 2) (dynamic_named n) =
  Ok (dynamic_exp (dynamic_named n) 3).
Proof.
  unfold Dynamic.mul.
  cbn [Dynamic.multiply_with Dynamic.multiply_with_exp Dynamic.push_back
       app bind].
  rewrite unit_eq_named, named_equal_refl. cbn [bind].
  change (int_add 2 1) with 3.
  now rewrite dynamic_simplify_single.
Qed.

(** X18: roots undo powers on both paths.  For [e <> 0] the [e]-th
    [static_root] of [static_pow<U, e>] is [U] and the run-time [root] of
    [dynamic_exp(b, e)] by [e] returns [b]; the square root of a named unit
    times itself and the cube root of its third power are the unit, with
    [static_sqrt] and [static_cbrt] as with [sqrt] and [cbrt]. *)
Theorem roots_undo_powers (e : Z) (n : named) :
  e <> 0 ->
  (forall U, static_root (static_pow U e) e = Some U) /\
  (forall b, Dynamic.root (dynamic_exp b e) e = Ok b) /\
  static_sqrt (Static.multiply (static_named n) (static_named n)) =
    Some (static_named n) /\
  static_cbrt (Static.multiply
                 (Static.multiply (static_named n) (static_named n))
                 (static_named n)) = Some (static_named n) /\
  (exists sq cube,
     Dynamic.mul (dynamic_named n) (dynamic_named n) = Ok sq /\
     Dynamic.mul sq (dynamic_named n) = Ok cube /\
     dynamic_sqrt sq = Ok (dynamic_named n) /\
     dynamic_cbrt cube = Ok (dynamic_named n)).
Proof.
  intros He.
  split; [intros U; now apply static_root_of_pow|].
  split; [intros b; now apply dynamic_root_of_exp|].
  rewrite !static_multiply_named_square, static_multiply_named_cube.
  unfold static_sqrt, static_cbrt, dynamic_sqrt, dynamic_cbrt.
  rewrite !static_root_of_pow by lia.
  split; [reflexivity|]. split; [reflexivity|].
  exists (dynamic_exp (dynamic_named n) 2), (dynamic_exp (dynamic_named n) 3).
  rewrite dynamic_mul_named_square, dynamic_mul_named_cube.
  rewrite !dynamic_root_of_exp by lia.
  repeat split.
Qed.

Lemma roots_undo_powers_witness :
  static_root (static_pow (static_named meter) (-4)) (-4) =
    Some (static_named meter) /\
  Dynamic.root (dynamic_exp (dynamic_named second) 6) 6 =
    Ok (dynamic_named second).
Proof.
  assert (H4 : -4 <> 0) by lia.
  assert (H6 : 6 <> 0) by lia.
  destruct (roots_undo_powers (-4) meter H4) as (Hs & _).
  destruct (roots_undo_powers 6 meter H6) as (_ & Hd & _).
  split; [apply Hs|apply Hd].
Defined.

(** X19: [static_root<Base, Exponent>] names a type exactly when every
    term of the canonical product of [Base] has an exponent that
    [Exponent] divides.  So a root of a named class other than the first
    or minus first does not build, and neither does the root of a power by
    an exponent that leaves a remainder. *)
Theorem static_root_is_defined_on_divisible_exponents
  (Base : static_unit) (Exponent : Z) :
  ((exists R, static_root Base Exponent = Some R) <->
   Forall (root_defined Exponent) (Static.canonicalize Base)) /\
  (forall n, Base = static_named n ->
     Exponent <> 1 -> Exponent <> -1 -> static_root Base Exponent = None) /\
  (forall U e, Base = static_pow U e ->
     Z.rem e Exponent <> 0 -> static_root Base Exponent = None).
Proof.
  split; [apply static_root_defined|].
  assert (Hnone : forall B,
            ~ Forall (root_defined Exponent) (Static.canonicalize B) ->
            static_root B Exponent = None).
  { intros B Hn. destruct (static_root B Exponent) as [R|] eqn:ER;
      [|reflexivity].
    exfalso. apply Hn. apply static_root_defined. now exists R. }
  split.
  - intros n -> H1 Hm1. apply Hnone. intros HF.
    inversion HF as [|? ? (B & E1 & Eq & H0 & _ & Hr) _]; subst.
    injection Eq as <- <-.
    rewrite <- Z.rem_abs_r, Z.rem_small in Hr by lia. discriminate.
  - intros U e -> Hr. apply Hnone. intros HF.
    inversion HF as [|? ? (B & E1 & Eq & _ & _ & Hr') _]; subst.
    injection Eq as <- <-. contradiction.
Qed.

Lemma static_root_is_defined_on_divisible_exponents_witness :
  static_root (static_named meter) 2 = None /\
  static_root (static_pow (static_named meter) 3) 2 = None.
Proof.
  split.
  - destruct (static_root_is_defined_on_divisible_exponents
                (static_named meter) 2) as (_ & H & _).
    apply (H meter eq_refl); lia.
  - destruct (static_root_is_defined_on_divisible_exponents
                (static_pow (static_named meter) 3) 2) as (_ & _ & H).
    apply (H (static_named meter) 3 eq_refl). vm_compute. discriminate.
Defined.

(** * The converting constructor *)

Lemma is_absolute_of_origin (A B : static_unit) :
  Static.static_origin A = Static.static_origin B ->
  Static.is_absolute A = Static.is_absolute B.
Proof. unfold Static.is_absolute. now intros ->. Qed.

Lemma same_kind_absolute (A B : static_unit) :
  (Static.is_absolute A && Static.is_absolute B) ||
  (Static.is_relative A && Static.is_relative B) = true ->
  Static.is_absolute A = Static.is_absolute B.
Proof.
  unfold Static.is_relative.
  destruct (Static.is_absolute A), (Static.is_absolute B); cbn;
    congruence.
Qed.



(** * Copies of static descriptions *)

Lemma static_copy_dimension (U : static_unit) : forall u d,
  static_dimensions_in_range U -> static_copy U = Some u ->
  Dynamic.dimension_of u = Ok d -> d = Static.static_dimension U.
Proof.
  induction U as [n|B E IH|Us IH] using static_unit_ind; intros u d HR Hc Hd.
  - injection Hc as <-. cbn in Hd. now injection Hd as <-.
  - cbn [static_copy] in Hc.
    destruct (static_copy B) as [b|] eqn:Eb; [|discriminate].
    injection Hc as <-. cbn [Dynamic.dimension_of] in Hd.
    destruct (Dynamic.dimension_of b) as [db| |] eqn:Edb; try discriminate.
    cbn [bind] in Hd. injection Hd as <-.
    cbn [Static.static_dimension]. now rewrite (IH b db HR eq_refl Edb).
  - cbn [static_copy] in Hc. destruct Us as [|F [|G l]]; try discriminate.
    + injection Hc as <-. discriminate.
    + destruct (static_copy F) as [f|] eqn:Ef; [|discriminate].
      injection Hc as <-. cbn [Dynamic.dimension_of] in Hd.
      destruct (Dynamic.dimension_of f) as [df| |] eqn:Edf; try discriminate.
      cbn [bind] in Hd. injection Hd as <-.
      inversion IH as [|? ? IHF _]; subst.
      apply static_dimensions_in_range_product in HR.
      inversion HR as [|? ? HF _]; subst.
      rewrite (IHF f df HF Ef Edf).
      cbn [Static.static_dimension].
      apply dimension_pow_1. now apply static_dimension_in_range.
Qed.

Lemma static_copy_origin (U : static_unit) (u : dynamic_unit) :
  static_copy U = Some u -> Dynamic.origin u = Static.static_origin U.
Proof.
  destruct U as [n|B E|Us]; cbn [static_copy].
  - now intros [= <-].
  - destruct (static_copy B); [|discriminate]. now intros [= <-].
  - destruct Us as [|F [|G l]]; try discriminate.
    + now intros [= <-].
    + destruct (static_copy F); [|discriminate]. now intros [= <-].
Qed.

(** X21: the run-time copy of a compile-time unit agrees with it: it has
    the same origin, any dimension it reports is [static_dimension()] of
    the unit, and it reports one when it holds no empty product. *)
Theorem static_copy_keeps_dimension_and_origin (U : static_unit)
  (u : dynamic_unit) :
  static_dimensions_in_range U -> static_copy U = Some u ->
  Dynamic.origin u = Static.static_origin U /\
  (forall d, Dynamic.dimension_of u = Ok d ->
             d = Static.static_dimension U) /\
  (no_empty_product u ->
   Dynamic.dimension_of u = Ok (Static.static_dimension U)).
Proof.
  intros HR Hc. split; [now apply static_copy_origin|].
  split; [intros d; now apply static_copy_dimension|].
  intros Hne. destruct (dimension_of_defined u Hne) as [d Hd].
  rewrite Hd. f_equal. exact (static_copy_dimension U u d HR Hc Hd).
Qed.

Lemma static_copy_keeps_dimension_and_origin_witness :
  Dynamic.dimension_of
    (dynamic_product [dynamic_exp (dynamic_exp (dynamic_named meter) 2) 1])
  = Ok (dimension_pow dimension_length 2).
Proof.
  assert (HR : static_dimensions_in_range
                 (static_product [static_pow (static_named meter) 2])).
  { cbn. unfold dimension_in_range, int_range. cbn. lia. }
  destruct (static_copy_keeps_dimension_and_origin
              (static_product [static_pow (static_named meter) 2]) _
              HR eq_refl) as (_ & _ & H).
  apply H. cbn. repeat split. discriminate.
Defined.

(** * Metric prefixes *)

Lemma rational_mul_exact (a b r : rational) :
  rational_reduced a -> rational_reduced b -> rational_reduced r ->
  Z.abs (numerator a * numerator b) <= int64_max ->
  denominator a * denominator b <= int64_max ->
  numerator r * (denominator a * denominator b) =
    (numerator a * numerator b) * denominator r ->
  rational_mul a b = r.
Proof.
  intros Ha Hb Hr Hn Hd Hv.
  pose proof (rational_mul_value a b Ha Hb Hn Hd) as Hm.
  assert (Hdp : 0 < denominator a * denominator b).
  { destruct Ha as [_ Ha], Hb as [_ Hb]. nia. }
  assert (Hok : rational_reduced (rational_mul a b)).
  { apply rational_mul_ok; unfold int64_min, int64_max in *; lia. }
  apply reduced_unique; [exact Hok|exact Hr|].
  apply (Z.mul_cancel_r _ _ (denominator a * denominator b)); [lia|].
  set (D := denominator a * denominator b) in *.
  set (N := numerator a * numerator b) in *.
  transitivity (N * denominator (rational_mul a b) * denominator r).
  - rewrite <- Hm. ring.
  - rewrite (Z.mul_comm N), <- Z.mul_assoc, <- Hv. ring.
Qed.

Lemma prefixes_cancel (m : rational) :
  rational_reduced m ->
  1000 * Z.abs (numerator m) <= int64_max ->
  1000 * denominator m <= int64_max ->
  rational_mul (rational_of_int 1000) (rational_mul (rational_from 1 1000) m)
    = m /\
  rational_mul (rational_from 1 1000) (rational_mul (rational_of_int 1000) m)
    = m.
Proof.
  intros Hm Hn Hd.
  change (rational_of_int 1000) with (mk_rational 1000 1).
  change (rational_from 1 1000) with (mk_rational 1 1000).
  assert (Hk : rational_reduced (mk_rational 1000 1)) by (split; reflexivity).
  assert (Hi : rational_reduced (mk_rational 1 1000))
    by (split; reflexivity).
  pose proof Hm as [_ Hdm].
  assert (Hmax : int64_max = 9223372036854775807) by reflexivity.
  assert (Hmin : int64_min = -9223372036854775808) by reflexivity.
  split.
  - set (m' := rational_mul (mk_rational 1 1000) m).
    destruct (rational_mul_ok (mk_rational 1 1000) m) as (R' & Bn & Bd);
      cbn [numerator denominator m_numerator m_denominator]; try lia.
    fold m' in R', Bn, Bd.
    cbn [numerator denominator m_numerator m_denominator] in Bn, Bd.
    pose proof (rational_mul_value (mk_rational 1 1000) m Hi Hm) as V.
    cbn [numerator denominator m_numerator m_denominator] in V.
    fold m' in V. specialize (V ltac:(lia) ltac:(lia)).
    pose proof R' as [_ Hd'].
    apply rational_mul_exact; try assumption;
      cbn [numerator denominator m_numerator m_denominator]; lia.
  - set (m' := rational_mul (mk_rational 1000 1) m).
    destruct (rational_mul_ok (mk_rational 1000 1) m) as (R' & Bn & Bd);
      cbn [numerator denominator m_numerator m_denominator]; try lia.
    fold m' in R', Bn, Bd.
    cbn [numerator denominator m_numerator m_denominator] in Bn, Bd.
    pose proof (rational_mul_value (mk_rational 1000 1) m Hk Hm) as V.
    cbn [numerator denominator m_numerator m_denominator] in V.
    fold m' in V. specialize (V ltac:(lia) ltac:(lia)).
    pose proof R' as [_ Hd'].
    apply rational_mul_exact; try assumption;
      cbn [numerator denominator m_numerator m_denominator]; lia.
Qed.

(** X22: the prefixes [kilo] and [milli] cancel.  For a unit whose
    magnitude is in lowest terms and stays within 64 bits when scaled by
    1000, [kilo<milli<U>>] and [milli<kilo<U>>] have the magnitude and the
    dimension of [U], and [kilo<milli<U>>] is [are_equal] to a [U] without
    origin. *)
Theorem kilo_and_milli_cancel (U : named) :
  rational_reduced (named_magnitude U) ->
  1000 * Z.abs (numerator (named_magnitude U)) <= int64_max ->
  1000 * denominator (named_magnitude U) <= int64_max ->
  named_magnitude (kilo (milli U)) = named_magnitude U /\
  named_magnitude (milli (kilo U)) = named_magnitude U /\
  named_dimension (kilo (milli U)) = named_dimension U /\
  named_dimension (milli (kilo U)) = named_dimension U /\
  (named_origin U = None ->
   Static.are_equal (static_named (kilo (milli U))) (static_named U) = true).
Proof.
  intros Hm Hn Hd.
  destruct (prefixes_cancel (named_magnitude U) Hm Hn Hd) as [H1 H2].
  split; [exact H1|]. split; [exact H2|].
  split; [reflexivity|]. split; [reflexivity|].
  intros Ho. apply are_equal_true. repeat split; [exact H1|].
  cbn. now rewrite Ho.
Qed.

Lemma kilo_and_milli_cancel_witness :
  named_magnitude (kilo (milli inch)) = named_magnitude inch /\
  Static.are_equal (static_named (kilo (milli inch))) (static_named inch)
    = true.
Proof.
  assert (Hm : rational_reduced (named_magnitude inch))
    by (split; reflexivity).
  assert (Hn : 1000 * Z.abs (numerator (named_magnitude inch)) <= int64_max)
    by (vm_compute; discriminate).
  assert (Hd : 1000 * denominator (named_magnitude inch) <= int64_max)
    by (vm_compute; discriminate).
  destruct (kilo_and_milli_cancel inch Hm Hn Hd) as (H1 & _ & _ & _ & H).
  split; [exact H1|apply H; reflexivity].
Defined.

(** * Conversions on an exact payload *)

Lemma rational_div_value (a b : rational) :
  exact_quotient a b ->
  numerator (rational_div a b) * (denominator a * numerator b) =
    numerator a * denominator b * denominator (rational_div a b) /\
  denominator (rational_div a b) > 0.
Proof.
  intros (Ha & Hb & Hr & Hnz & Hn & Hd).
  destruct (inverse_ok b Hr Hnz) as (Ri & _ & _).
  pose proof (inverse_fields b Hb Hr Hnz) as Ei.
  unfold rational_div.
  assert (Hn' : Z.abs (numerator a * numerator (inverse b)) <= int64_max).
  { rewrite Ei. cbn [numerator m_numerator].
    rewrite Z.mul_assoc, Z.abs_mul.
    destruct Hb as [_ Hb].
    assert (Hs : Z.abs (Z.sgn (numerator b)) = 1)
      by (destruct (Z.sgn_spec (numerator b)) as [[? E]|[[? E]|[? E]]];
          rewrite E; try reflexivity; exfalso; lia).
    rewrite (Z.abs_mul (numerator a)), Hs, Z.mul_1_r.
    rewrite Z.abs_mul in Hn. rewrite (Z.abs_eq (denominator b)) by lia.
    rewrite (Z.abs_eq (denominator b)) in Hn by lia. exact Hn. }
  assert (Hd' : denominator a * denominator (inverse b) <= int64_max).
  { rewrite Ei. exact Hd. }
  pose proof (rational_mul_value a (inverse b) Ha Ri Hn' Hd') as V.
  assert (Rm : rational_reduced (rational_mul a (inverse b))).
  { pose proof Ha as [_ Hda]. pose proof Ri as [_ Hdi].
    apply rational_mul_ok; unfold int64_min, int64_max in *; try lia; nia. }
  split; [|exact (proj2 Rm)].
  set (n := numerator (rational_mul a (inverse b))) in *.
  set (d := denominator (rational_mul a (inverse b))) in *.
  rewrite Ei in V. cbn [numerator denominator m_numerator m_denominator] in V.
  assert (Es : Z.abs (numerator b) * Z.sgn (numerator b) = numerator b)
    by apply Z.abs_sgn.
  assert (Es2 : Z.sgn (numerator b) * Z.sgn (numerator b) = 1).
  { destruct (Z.sgn_spec (numerator b)) as [[? E]|[[? E]|[? E]]];
      rewrite E; try reflexivity; exfalso; lia. }
  transitivity (n * (denominator a * Z.abs (numerator b)) *
                Z.sgn (numerator b)).
  - rewrite <- Es at 1. ring.
  - rewrite V.
    transitivity (numerator a * denominator b * d *
                  (Z.sgn (numerator b) * Z.sgn (numerator b))); [ring|].
    rewrite Es2. ring.
Qed.

Local Abbreviation to_Q := (convert_to (payload := Numeric_Q)).

Lemma inject_Z_nonzero (z : Z) : z <> 0 -> ~ (inject_Z z == 0)%Q.
Proof.
  intros Hz E. apply Hz. unfold Qeq in E. cbn in E. lia.
Qed.

Lemma to_Q_nonzero (b : rational) :
  rational_reduced b -> numerator b <> 0 -> ~ (to_Q b == 0)%Q.
Proof.
  intros [_ Hd] Hn. unfold convert_to. cbn [div of_int Numeric_Q].
  unfold numerator, denominator in *.
  intros E. apply Hn.
  assert (Hd0 : ~ (inject_Z (m_denominator b) == 0)%Q)
    by (apply inject_Z_nonzero; lia).
  destruct (Z.eq_dec (m_numerator b) 0) as [E0|E0]; [exact E0|].
  exfalso. apply (inject_Z_nonzero _ E0).
  rewrite <- (Qmult_div_r (inject_Z (m_numerator b))
                          (inject_Z (m_denominator b)) Hd0).
  rewrite E. ring.
Qed.

Lemma to_Q_quotient (a b : rational) :
  exact_quotient a b -> (to_Q (rational_div a b) == to_Q a / to_Q b)%Q.
Proof.
  intros H. destruct (rational_div_value a b H) as [V Hd].
  destruct H as ([_ Hda] & [_ Hdb] & _ & Hnz & _).
  unfold convert_to. cbn [div of_int Numeric_Q].
  unfold numerator, denominator in *.
  set (n := m_numerator (rational_div a b)) in *.
  set (d := m_denominator (rational_div a b)) in *.
  assert (VQ : (inject_Z n * (inject_Z (m_denominator a) *
                              inject_Z (m_numerator b)) ==
                inject_Z (m_numerator a) * inject_Z (m_denominator b) *
                inject_Z d)%Q).
  { rewrite <- !inject_Z_mult. now rewrite V. }
  assert (N1 : ~ (inject_Z d == 0)%Q)
    by (apply inject_Z_nonzero; lia).
  assert (N2 : ~ (inject_Z (m_denominator a) == 0)%Q)
    by (apply inject_Z_nonzero; lia).
  assert (N3 : ~ (inject_Z (m_denominator b) == 0)%Q)
    by (apply inject_Z_nonzero; lia).
  assert (N4 : ~ (inject_Z (m_numerator b) == 0)%Q)
    by (apply inject_Z_nonzero; lia).
  field_simplify_eq; [|repeat split; assumption].
  transitivity (inject_Z n * (inject_Z (m_denominator a) *
                              inject_Z (m_numerator b)))%Q; [ring|].
  rewrite VQ. ring.
Qed.

Lemma conversion_new_round_trip (mA mB : rational) (oA oB : option rational)
  (x : Q) :
  exact_conversion mA oA mB oB -> exact_conversion mB oB mA oA ->
  (convert (conversion_new (payload := Numeric_Q) mB oB mA oA)
     (convert (conversion_new (payload := Numeric_Q) mA oA mB oB) x) == x)%Q.
Proof.
  intros (Hab & HoA & HoB) (Hba & HoB' & HoA').
  assert (Na : ~ (to_Q mA == 0)%Q).
  { destruct Hba as (_ & R & _ & Hn & _). now apply to_Q_nonzero. }
  assert (Nb : ~ (to_Q mB == 0)%Q).
  { destruct Hab as (_ & R & _ & Hn & _). now apply to_Q_nonzero. }
  pose proof (to_Q_quotient mA mB Hab) as Kab.
  pose proof (to_Q_quotient mB mA Hba) as Kba.
  unfold convert, conversion_new. cbn [m_multiplier m_offset].
  cbn [add sub mul of_int Numeric_Q].
  rewrite Kab, Kba.
  destruct oA as [a|], oB as [b|].
  - rewrite (to_Q_quotient a mB (HoA a eq_refl)),
            (to_Q_quotient b mB (HoB b eq_refl)),
            (to_Q_quotient a mA (HoA' a eq_refl)),
            (to_Q_quotient b mA (HoB' b eq_refl)).
    field. split; assumption.
  - rewrite (to_Q_quotient a mB (HoA a eq_refl)),
            (to_Q_quotient a mA (HoA' a eq_refl)).
    field. split; assumption.
  - rewrite (to_Q_quotient b mB (HoB b eq_refl)),
            (to_Q_quotient b mA (HoB' b eq_refl)).
    field. split; assumption.
  - field. split; assumption.
Qed.


